(** * SocialMediaPlatform: the account-security core

    A shallow embedding of the account model (the User schema and its
    methods), the auth controller ([register], [login], [forgotPassword],
    [resetPassword], [verifyEmail], [refreshToken]) and the [protect]
    middleware, followed by the properties of the lockout policy, token
    rotation, single-use tokens and access-token verification.

    Around that core the development also embeds the rest of the auth
    controller, the rate limiter and the auth routes, the user controller's
    [updateUser] and [deleteUser], the Comment model with the comment
    controller, and [sanitizeMiddleware], each with the properties its code
    shows.

    Conventions of the embedding:
    - a [Date] and a [Date.now()] reading are milliseconds since the epoch,
      as [Z];
    - every read of the clock inside one synchronous stretch of code yields
      the same instant; a function whose body awaits between two reads takes
      one instant per stretch;
    - the user collection is a list of documents in natural order; [findOne]
      returns the first document that satisfies the filter; a filter on
      [username] or [email] is cast through the setters of the schema, as
      Mongoose casts it, before it is compared;
    - a document is loaded whole ([User]) or under a projection
      ([Loaded.document], with the paths that were not selected absent);
    - random draws ([crypto.randomBytes], [bcrypt.genSalt]) and the outcome of
      mail delivery are inputs of the operation that uses them;
    - a [string] is a JavaScript string given by its UTF-16 code units, one
      character of the [string] per code unit: [String.length] is the
      [length] of the JavaScript string.  The code units are those below
      256 (Basic Latin and Latin-1 Supplement); [trim] and [toLowerCase]
      are those of JavaScript on such strings. *)

From Stdlib Require Import ZArith List String Ascii Bool Lia DecimalString.
Import ListNotations.
Local Open Scope string_scope.
Local Open Scope list_scope.
Local Open Scope Z_scope.

Definition Millis := Z.

(** ** JavaScript values that can reach the core through a JSON body *)
Module Js.

Inductive value :=
| Undefined
| Null
| Bool (b : bool)
| Num (z : Z)
| Str (s : string).

Definition typeof (v : value) : string :=
  match v with
  | Undefined => "undefined"
  | Null => "object"
  | Bool _ => "boolean"
  | Num _ => "number"
  | Str _ => "string"
  end.

(** [if (v)], [!v] *)
Definition truthy (v : value) : bool :=
  match v with
  | Undefined | Null => false
  | Bool b => b
  | Num z => negb (z =? 0)
  | Str s => negb (s =? "")%string
  end.

End Js.

(** ** bcryptjs, as far as [matchPassword] and the pre-save hook use it *)
Module Bcrypt.

(** A promise settles with a value or with an [Error]. *)
Inductive settled (A : Type) :=
| Resolved (a : A)
| Rejected (message : string).
Arguments Resolved {A} a.
Arguments Rejected {A} message.

Section Core.
(** The key-derivation itself: [crypt s salt] is the 60-character digest of
    [s] under [salt], or [None] when the library reports an error (an
    invalid salt version, for instance). *)
Variable crypt : string -> string -> option string.

(** [bcrypt.hash(s, salt)] *)
Definition hash (s salt : string) : settled string :=
  match crypt s salt with
  | Some digest => Resolved digest
  | None => Rejected "Invalid salt"
  end.

(** [bcrypt.compare(s, hash)]: arguments that are not strings reject; a
    digest that is not 60 characters long resolves to [false]; otherwise [s]
    is hashed under the salt the digest starts with (its first
    [length - 31] characters) and the two digests are compared. *)
Definition compare (s digest : Js.value) : settled bool :=
  match s, digest with
  | Js.Str s, Js.Str h =>
      if negb (Nat.eqb (String.length h) 60) then Resolved false
      else match hash s (substring 0 (String.length h - 31) h) with
           | Resolved comp => Resolved (comp =? h)%string
           | Rejected e => Rejected e
           end
  | _, _ =>
      Rejected ("Illegal arguments: " ++ Js.typeof s ++ ", " ++ Js.typeof digest)%string
  end.
End Core.

End Bcrypt.

(** ** The closed set of roles ([enum: ['user', 'admin', 'moderator']]) *)
Inductive Role := user_role | admin_role | moderator_role.

(** ** jsonwebtoken, symbolically

    A token string is empty, or does not decode, or decodes to claims signed
    under some key.  [verify] accepts a signature only under the key it is
    given.  A property of the payload whose value is [undefined] is left
    out of the token ([JSON.stringify] drops it): it is [None] here. *)
Module Jwt.

Record claims := {
  id : nat;
  email : option string;
  username : option string;
  role : option Role;
  iat : Z;
  exp : Z;
  iss : option string;
  aud : option string
}.

Inductive token :=
| Empty
| Garbage (raw : string)
| Signed (key : string) (c : claims).

Inductive error :=
| TokenExpiredError
| JsonWebTokenError (message : string).

Record VerifyOptions := {
  audience : option string;
  issuer : option string
}.

(** [jwt.verify(token, secret)] passes no options. *)
Definition no_options : VerifyOptions :=
  {| audience := None; issuer := None |}.

(** [jwt.sign(payload, secret, { expiresIn, issuer, audience })]; [expiresIn]
    in seconds, the clock in milliseconds. *)
Definition sign (uid : nat) (mail name : option string) (r : option Role)
    (secret : string) (expiresIn : Z) (issuer audience : string)
    (now : Millis) : token :=
  Signed secret
    {| id := uid; email := mail; username := name; role := r;
       iat := now / 1000; exp := now / 1000 + expiresIn;
       iss := Some issuer; aud := Some audience |}.

Definition claim_matches (expected actual : option string) : bool :=
  match expected, actual with
  | None, _ => true
  | Some e, Some a => (e =? a)%string
  | Some _, None => false
  end.

(** [jwt.verify(token, secret, options)]: decode, check the signature, then
    the expiry, then the audience and the issuer, the last two only when the
    caller names an expected value in [options]. *)
Definition verify (t : token) (secret : string) (o : VerifyOptions)
    (now : Millis) : error + claims :=
  match t with
  | Empty => inl (JsonWebTokenError "jwt must be provided")
  | Garbage _ => inl (JsonWebTokenError "jwt malformed")
  | Signed key c =>
      if negb (key =? secret)%string then
        inl (JsonWebTokenError "invalid signature")
      else if now / 1000 >=? exp c then inl TokenExpiredError
      else if negb (claim_matches (audience o) (aud c)) then
        inl (JsonWebTokenError "jwt audience invalid")
      else if negb (claim_matches (issuer o) (iss c)) then
        inl (JsonWebTokenError "jwt issuer invalid")
      else inr c
  end.

End Jwt.

(** ** [process.env], with every numeral already parsed *)
Record Config := {
  JWT_SECRET : string;
  JWT_EXPIRE : Z;                 (* seconds; '30d' *)
  JWT_ISSUER : string;
  JWT_AUDIENCE : string;
  RESET_PASSWORD_EXPIRE : Z;      (* minutes *)
  EMAIL_VERIFICATION_EXPIRE : Z;  (* hours *)
  MAX_LOGIN_ATTEMPTS : Z;
  LOCKOUT_TIME : Z                (* minutes *)
}.

(** The values of [.env.example]. *)
Definition default_env : Config :=
  {| JWT_SECRET := "your_super_secret_jwt_key_change_this_in_production";
     JWT_EXPIRE := 30 * 24 * 60 * 60;
     JWT_ISSUER := "social-media-platform";
     JWT_AUDIENCE := "social-media-users";
     RESET_PASSWORD_EXPIRE := 10;
     EMAIL_VERIFICATION_EXPIRE := 24;
     MAX_LOGIN_ATTEMPTS := 5;
     LOCKOUT_TIME := 30 |}.

(** ** The User schema *)

Record RefreshTokenRecord := {
  token : string;
  createdAt : Millis;
  expiresAt : Millis
}.

Record Status := {
  isActive : bool;
  emailVerified : bool;
  lastLogin : option Millis;
  lastSeen : Millis
}.

(** The fields the security core reads or writes; [profile], [settings] and
    the follower lists play no part in it.  [loginAttempts] has the schema
    default 0, so a document whose field was unset reads 0; [lockUntil] and
    the four token fields are absent ([None]) until assigned. *)
Record User := {
  _id : nat;
  username : string;
  email : string;
  password : string;
  role : Role;
  emailVerificationToken : option string;
  emailVerificationExpire : option Millis;
  resetPasswordToken : option string;
  resetPasswordExpire : option Millis;
  loginAttempts : Z;
  lockUntil : option Millis;
  refreshTokens : list RefreshTokenRecord;
  status : Status
}.

(** An assignment to one field leaves the others as they are. *)
Definition set_password (v : string) (u : User) : User :=
  {| _id := _id u; username := username u; email := email u; password := v;
     role := role u;
     emailVerificationToken := emailVerificationToken u;
     emailVerificationExpire := emailVerificationExpire u;
     resetPasswordToken := resetPasswordToken u;
     resetPasswordExpire := resetPasswordExpire u;
     loginAttempts := loginAttempts u; lockUntil := lockUntil u;
     refreshTokens := refreshTokens u; status := status u |}.

Definition set_emailVerificationToken (v : option string) (u : User) : User :=
  {| _id := _id u; username := username u; email := email u;
     password := password u; role := role u;
     emailVerificationToken := v;
     emailVerificationExpire := emailVerificationExpire u;
     resetPasswordToken := resetPasswordToken u;
     resetPasswordExpire := resetPasswordExpire u;
     loginAttempts := loginAttempts u; lockUntil := lockUntil u;
     refreshTokens := refreshTokens u; status := status u |}.

Definition set_emailVerificationExpire (v : option Millis) (u : User) : User :=
  {| _id := _id u; username := username u; email := email u;
     password := password u; role := role u;
     emailVerificationToken := emailVerificationToken u;
     emailVerificationExpire := v;
     resetPasswordToken := resetPasswordToken u;
     resetPasswordExpire := resetPasswordExpire u;
     loginAttempts := loginAttempts u; lockUntil := lockUntil u;
     refreshTokens := refreshTokens u; status := status u |}.

Definition set_resetPasswordToken (v : option string) (u : User) : User :=
  {| _id := _id u; username := username u; email := email u;
     password := password u; role := role u;
     emailVerificationToken := emailVerificationToken u;
     emailVerificationExpire := emailVerificationExpire u;
     resetPasswordToken := v;
     resetPasswordExpire := resetPasswordExpire u;
     loginAttempts := loginAttempts u; lockUntil := lockUntil u;
     refreshTokens := refreshTokens u; status := status u |}.

Definition set_resetPasswordExpire (v : option Millis) (u : User) : User :=
  {| _id := _id u; username := username u; email := email u;
     password := password u; role := role u;
     emailVerificationToken := emailVerificationToken u;
     emailVerificationExpire := emailVerificationExpire u;
     resetPasswordToken := resetPasswordToken u;
     resetPasswordExpire := v;
     loginAttempts := loginAttempts u; lockUntil := lockUntil u;
     refreshTokens := refreshTokens u; status := status u |}.

Definition set_loginAttempts (v : Z) (u : User) : User :=
  {| _id := _id u; username := username u; email := email u;
     password := password u; role := role u;
     emailVerificationToken := emailVerificationToken u;
     emailVerificationExpire := emailVerificationExpire u;
     resetPasswordToken := resetPasswordToken u;
     resetPasswordExpire := resetPasswordExpire u;
     loginAttempts := v; lockUntil := lockUntil u;
     refreshTokens := refreshTokens u; status := status u |}.

Definition set_lockUntil (v : option Millis) (u : User) : User :=
  {| _id := _id u; username := username u; email := email u;
     password := password u; role := role u;
     emailVerificationToken := emailVerificationToken u;
     emailVerificationExpire := emailVerificationExpire u;
     resetPasswordToken := resetPasswordToken u;
     resetPasswordExpire := resetPasswordExpire u;
     loginAttempts := loginAttempts u; lockUntil := v;
     refreshTokens := refreshTokens u; status := status u |}.

Definition set_refreshTokens (v : list RefreshTokenRecord) (u : User) : User :=
  {| _id := _id u; username := username u; email := email u;
     password := password u; role := role u;
     emailVerificationToken := emailVerificationToken u;
     emailVerificationExpire := emailVerificationExpire u;
     resetPasswordToken := resetPasswordToken u;
     resetPasswordExpire := resetPasswordExpire u;
     loginAttempts := loginAttempts u; lockUntil := lockUntil u;
     refreshTokens := v; status := status u |}.

Definition set_status (v : Status) (u : User) : User :=
  {| _id := _id u; username := username u; email := email u;
     password := password u; role := role u;
     emailVerificationToken := emailVerificationToken u;
     emailVerificationExpire := emailVerificationExpire u;
     resetPasswordToken := resetPasswordToken u;
     resetPasswordExpire := resetPasswordExpire u;
     loginAttempts := loginAttempts u; lockUntil := lockUntil u;
     refreshTokens := refreshTokens u; status := v |}.

Definition set_emailVerified (v : bool) (s : Status) : Status :=
  {| isActive := isActive s; emailVerified := v;
     lastLogin := lastLogin s; lastSeen := lastSeen s |}.

Definition set_lastLogin (v : option Millis) (s : Status) : Status :=
  {| isActive := isActive s; emailVerified := emailVerified s;
     lastLogin := v; lastSeen := lastSeen s |}.

Definition set_lastSeen (v : Millis) (s : Status) : Status :=
  {| isActive := isActive s; emailVerified := emailVerified s;
     lastLogin := lastLogin s; lastSeen := v |}.

(** ** Schema setters: [trim: true], [lowercase: true] *)

(** White space and line terminators of ECMAScript among the code units
    below 256: U+0009 to U+000D, U+0020 and U+00A0. *)
Definition is_space (c : ascii) : bool :=
  let n := nat_of_ascii c in
  (Nat.eqb n 32 || (Nat.leb 9 n && Nat.leb n 13) || Nat.eqb n 160)%bool.

Fixpoint trimStart (s : string) : string :=
  match s with
  | String c r => if is_space c then trimStart r else s
  | EmptyString => EmptyString
  end.

Definition reverse (s : string) : string :=
  string_of_list_ascii (rev (list_ascii_of_string s)).

Definition trim (s : string) : string :=
  reverse (trimStart (reverse (trimStart s))).

(** The lower-case mapping of one code unit below 256: [A] to [Z], and
    U+00C0 to U+00DE without the multiplication sign U+00D7. *)
Definition lower (c : ascii) : ascii :=
  let n := nat_of_ascii c in
  if ((Nat.leb 65 n && Nat.leb n 90)
      || (Nat.leb 192 n && Nat.leb n 222 && negb (Nat.eqb n 215)))%bool
  then ascii_of_nat (n + 32) else c.

Fixpoint toLowerCase (s : string) : string :=
  match s with
  | String c r => String (lower c) (toLowerCase r)
  | EmptyString => EmptyString
  end.

(** ** The store and the effects of one request *)

Definition Db := list User.

(** Calls that leave the process. *)
Inductive Call :=
| bcrypt_compare (s digest : Js.value)
| sendEmail_to (to subject : string).

Record World := {
  users : Db;
  calls : list Call
}.

Record Exn := {
  name : string;
  message : string
}.

Inductive Completion (A : Type) :=
| Normal (a : A)
| Throw (e : Exn).
Arguments Normal {A} a.
Arguments Throw {A} e.

(** A computation reads and writes the store, records its outside calls and
    completes normally or throws. *)
Definition M (A : Type) : Type := World -> Completion A * World.

Definition ret {A} (a : A) : M A := fun w => (Normal a, w).

Definition throw {A} (e : Exn) : M A := fun w => (Throw e, w).

Definition bind {A B} (m : M A) (k : A -> M B) : M B :=
  fun w =>
    match m w with
    | (Normal a, w') => k a w'
    | (Throw e, w') => (Throw e, w')
    end.

(** [try { m } catch (error) { h(error) }] *)
Definition try_catch {A} (m : M A) (h : Exn -> M A) : M A :=
  fun w =>
    match m w with
    | (Normal a, w') => (Normal a, w')
    | (Throw e, w') => h e w'
    end.

Notation "x <- m ;; k" := (bind m (fun x => k))
  (at level 61, m at next level, right associativity).
Notation "m ;; k" := (bind m (fun _ => k))
  (at level 61, right associativity).

Definition call (c : Call) : M unit :=
  fun w => (Normal tt, {| users := users w; calls := calls w ++ [c] |}).

Definition modify_users (f : Db -> Db) : M unit :=
  fun w => (Normal tt, {| users := f (users w); calls := calls w |}).

(** [User.findOne(filter)] *)
Definition findOne (filter : User -> bool) : M (option User) :=
  fun w => (Normal (find filter (users w)), w).

(** [User.findById(id)] *)
Definition findById (i : nat) : M (option User) :=
  findOne (fun u => Nat.eqb (_id u) i).

(** The update operators the model uses, each on the field it names. *)
Inductive UpdateOp :=
| unset_loginAttempts
| unset_lockUntil
| set_loginAttempts_to (n : Z)
| set_lockUntil_to (t : Millis)
| inc_loginAttempts (n : Z).

Definition apply_op (d : User) (o : UpdateOp) : User :=
  match o with
  | unset_loginAttempts => set_loginAttempts 0 d
  | unset_lockUntil => set_lockUntil None d
  | set_loginAttempts_to n => set_loginAttempts n d
  | set_lockUntil_to t => set_lockUntil (Some t) d
  | inc_loginAttempts n => set_loginAttempts (loginAttempts d + n) d
  end.

Definition on_id (i : nat) (f : User -> User) (db : Db) : Db :=
  map (fun d => if Nat.eqb (_id d) i then f d else d) db.

(** The paths a controller assigns before [save]; [save] writes the modified
    paths of the document and no other. *)
Inductive Path :=
| password_path
| emailVerificationToken_path
| emailVerificationExpire_path
| resetPasswordToken_path
| resetPasswordExpire_path
| refreshTokens_path
| emailVerified_path
| lastLogin_path
| lastSeen_path.

Definition Path_eqb (p q : Path) : bool :=
  match p, q with
  | password_path, password_path
  | emailVerificationToken_path, emailVerificationToken_path
  | emailVerificationExpire_path, emailVerificationExpire_path
  | resetPasswordToken_path, resetPasswordToken_path
  | resetPasswordExpire_path, resetPasswordExpire_path
  | refreshTokens_path, refreshTokens_path
  | emailVerified_path, emailVerified_path
  | lastLogin_path, lastLogin_path
  | lastSeen_path, lastSeen_path => true
  | _, _ => false
  end.

Definition isModified (p : Path) (modified : list Path) : bool :=
  existsb (Path_eqb p) modified.

(** Write path [p] of the document in memory into the stored one. *)
Definition write_path (this stored : User) (p : Path) : User :=
  match p with
  | password_path => set_password (password this) stored
  | emailVerificationToken_path =>
      set_emailVerificationToken (emailVerificationToken this) stored
  | emailVerificationExpire_path =>
      set_emailVerificationExpire (emailVerificationExpire this) stored
  | resetPasswordToken_path =>
      set_resetPasswordToken (resetPasswordToken this) stored
  | resetPasswordExpire_path =>
      set_resetPasswordExpire (resetPasswordExpire this) stored
  | refreshTokens_path => set_refreshTokens (refreshTokens this) stored
  | emailVerified_path =>
      set_status (set_emailVerified (emailVerified (status this)) (status stored)) stored
  | lastLogin_path =>
      set_status (set_lastLogin (lastLogin (status this)) (status stored)) stored
  | lastSeen_path =>
      set_status (set_lastSeen (lastSeen (status this)) (status stored)) stored
  end.

(** The validators of the schema: the regular expressions on [username],
    [email] and [password] together with their length bounds. *)
Record Validators := {
  username_ok : string -> bool;
  email_ok : string -> bool;
  password_ok : string -> bool
}.

Definition ValidationError : Exn :=
  {| name := "ValidationError"; message := "User validation failed" |}.

Definition DuplicateKeyError : Exn :=
  {| name := "MongoServerError"; message := "E11000 duplicate key error" |}.

(** ** A document loaded under a projection

    [findOne(filter).select(fields)] delivers a document that carries the
    selected paths and [_id]; every other path of it reads [undefined], also
    where the schema declares a default.  The record has the paths the
    login flow reads or assigns, each present or absent; the methods of the
    model are given as they run on such a document.  The methods the other
    handlers call, always on a document loaded whole, are given on the
    record of the whole document in the section below; the two agree on a
    whole document (lemmas [whole_isLocked] and the like). *)
Module Loaded.

Record document := {
  _id : nat;
  username : option string;
  email : option string;
  password : option string;
  role : option Role;
  loginAttempts : option Z;
  lockUntil : option Millis;
  refreshTokens : option (list RefreshTokenRecord);
  lastLogin : option Millis;      (* status.lastLogin *)
  lastSeen : option Millis        (* status.lastSeen *)
}.

(** Write path [p] of the document in memory into the stored one.  The
    controllers save such a document with [status.lastLogin],
    [status.lastSeen] and [refreshTokens] assigned; a path the record does
    not carry, or one without a value, leaves the stored document as it
    is. *)
Definition write_path (this : document) (stored : User) (p : Path) : User :=
  match p with
  | password_path =>
      match password this with
      | Some v => set_password v stored
      | None => stored
      end
  | refreshTokens_path =>
      match refreshTokens this with
      | Some l => set_refreshTokens l stored
      | None => stored
      end
  | lastLogin_path =>
      set_status (set_lastLogin (lastLogin this) (status stored)) stored
  | lastSeen_path =>
      match lastSeen this with
      | Some t => set_status (set_lastSeen t (status stored)) stored
      | None => stored
      end
  | _ => stored
  end.

(** An assignment to one path leaves the others as they are. *)
Definition set_password (v : option string) (d : document) : document :=
  {| _id := _id d; username := username d; email := email d; password := v;
     role := role d; loginAttempts := loginAttempts d;
     lockUntil := lockUntil d; refreshTokens := refreshTokens d;
     lastLogin := lastLogin d; lastSeen := lastSeen d |}.

Definition set_refreshTokens (v : option (list RefreshTokenRecord))
    (d : document) : document :=
  {| _id := _id d; username := username d; email := email d;
     password := password d; role := role d;
     loginAttempts := loginAttempts d; lockUntil := lockUntil d;
     refreshTokens := v; lastLogin := lastLogin d; lastSeen := lastSeen d |}.

Definition set_lastLogin (v : option Millis) (d : document) : document :=
  {| _id := _id d; username := username d; email := email d;
     password := password d; role := role d;
     loginAttempts := loginAttempts d; lockUntil := lockUntil d;
     refreshTokens := refreshTokens d; lastLogin := v;
     lastSeen := lastSeen d |}.

Definition set_lastSeen (v : option Millis) (d : document) : document :=
  {| _id := _id d; username := username d; email := email d;
     password := password d; role := role d;
     loginAttempts := loginAttempts d; lockUntil := lockUntil d;
     refreshTokens := refreshTokens d; lastLogin := lastLogin d;
     lastSeen := v |}.

(** [this.password] as [bcrypt] receives it. *)
Definition password_value (this : document) : Js.value :=
  match password this with
  | Some p => Js.Str p
  | None => Js.Undefined
  end.

(** [this.updateOne(update)]: the operators act on the stored document whose
    [_id] is [this._id] ([_id] is unique in a collection), not on [this]. *)
Definition updateOne (this : document) (update : list UpdateOp) : M unit :=
  modify_users (on_id (_id this) (fun d => fold_left apply_op update d)).

Section Methods.

Variable crypt : string -> string -> option string.   (* bcrypt *)
Variable validators : Validators.
Variable env : Config.

(** The virtual [isLocked]: [!!(this.lockUntil && this.lockUntil > Date.now())] *)
Definition isLocked (this : document) (now : Millis) : bool :=
  match lockUntil this with
  | Some l => l >? now
  | None => false
  end.

(** [matchPassword]: the result of [bcrypt.compare], and nothing
    ([undefined]) when the comparison throws; the [catch] block only logs. *)
Definition matchPassword (this : document) (enteredPassword : Js.value)
    : M Js.value :=
  try_catch
    (call (bcrypt_compare enteredPassword (password_value this)) ;;
     match Bcrypt.compare crypt enteredPassword (password_value this) with
     | Bcrypt.Resolved b => ret (Js.Bool b)
     | Bcrypt.Rejected e => throw {| name := "Error"; message := e |}
     end)
    (fun _ => ret Js.Undefined).

(** [getSignedJwtToken]: the payload is
    [{ id: this._id, email: this.email, username: this.username, role: this.role }]. *)
Definition getSignedJwtToken (this : document) (now : Millis) : Jwt.token :=
  Jwt.sign (_id this) (email this) (username this) (role this)
    (JWT_SECRET env) (JWT_EXPIRE env) (JWT_ISSUER env) (JWT_AUDIENCE env) now.

(** [generateRefreshToken]: [this.refreshTokens.push(..)] is a call on
    [undefined] when the array was not loaded.  [random] is
    [crypto.randomBytes(40).toString('hex')]. *)
Definition generateRefreshToken (this : document) (random : string)
    (now : Millis) : M (document * string) :=
  match refreshTokens this with
  | None => throw {| name := "TypeError";
                     message := "Cannot read properties of undefined" |}
  | Some l =>
      ret (set_refreshTokens
             (Some (l ++ [{| token := random; createdAt := now;
                             expiresAt := now + 7 * 24 * 60 * 60 * 1000 |}]))
             this,
           random)
  end.

(** [cleanExpiredTokens]: an array that is missing is replaced by the empty
    one; otherwise the records that have not expired are kept.  Every
    element of a loaded array is a record with its expiry, so that neither
    [catch] block of the method is entered. *)
Definition cleanExpiredTokens (this : document) (now : Millis) : document :=
  match refreshTokens this with
  | None => set_refreshTokens (Some []) this
  | Some l =>
      set_refreshTokens
        (Some (filter (fun tokenObj => expiresAt tokenObj >? now) l)) this
  end.

(** [incLoginAttempts]: a lock that has expired restarts the count at 1;
    otherwise the count goes up by one and, when it reaches the maximum,
    the lock is set.  Both tests read the document in memory; a path that
    was not loaded fails its test ([undefined && ..] and [NaN >= ..]). *)
Definition incLoginAttempts (this : document) (now : Millis) : M unit :=
  if match lockUntil this with Some l => l <? now | None => false end then
    updateOne this [unset_lockUntil; set_loginAttempts_to 1]
  else
    let updates := [inc_loginAttempts 1] in
    if match loginAttempts this with
       | Some n => n + 1 >=? MAX_LOGIN_ATTEMPTS env
       | None => false
       end
    then
      updateOne this
        (updates ++ [set_lockUntil_to (now + LOCKOUT_TIME env * 60 * 1000)])
    else updateOne this updates.

(** [this.save({ validateBeforeSave })] on a loaded document whose paths
    [modified] were assigned since.  Validation first (on the password only
    when that path is modified), then the two pre-save hooks: the password
    is hashed when modified, and [status.lastSeen] is set when
    [status.lastLogin] is modified.  Only the modified paths are written.
    Returns the document in memory. *)
Definition save (this : document) (modified : list Path)
    (validateBeforeSave : bool) (salt : string) (now : Millis) : M document :=
  if (validateBeforeSave && isModified password_path modified
      && negb match password this with
              | Some p => password_ok validators p
              | None => false
              end)%bool
  then throw ValidationError
  else
    hashed <- (if isModified password_path modified then
                 match password this with
                 | Some p =>
                     match Bcrypt.hash crypt p salt with
                     | Bcrypt.Resolved digest =>
                         ret (set_password (Some digest) this)
                     | Bcrypt.Rejected e =>
                         throw {| name := "Error"; message := e |}
                     end
                 | None =>
                     throw {| name := "Error";
                              message := "Illegal arguments: undefined, string" |}
                 end
               else ret this) ;;
    let seen :=
      if isModified lastLogin_path modified
      then (set_lastSeen (Some now) hashed, lastSeen_path :: modified)
      else (hashed, modified) in
    modify_users
      (on_id (_id this) (fun d => fold_left (write_path (fst seen)) (snd seen) d)) ;;
    ret (fst seen).

End Methods.

End Loaded.

(** A document loaded whole (no [select], or exclusions only). *)
Definition whole (u : User) : Loaded.document :=
  {| Loaded._id := _id u;
     Loaded.username := Some (username u);
     Loaded.email := Some (email u);
     Loaded.password := Some (password u);
     Loaded.role := Some (role u);
     Loaded.loginAttempts := Some (loginAttempts u);
     Loaded.lockUntil := lockUntil u;
     Loaded.refreshTokens := Some (refreshTokens u);
     Loaded.lastLogin := lastLogin (status u);
     Loaded.lastSeen := Some (lastSeen (status u)) |}.

(** What [.select('+password + loginAttempts +lockUntil')] loads.  Mongoose
    splits the argument at white space into [+password], [+],
    [loginAttempts] and [+lockUntil].  [loginAttempts] without a sign asks
    for inclusion, which makes the projection an inclusive one; [+password]
    lifts [select: false] of the password and includes it; [+lockUntil],
    on a path without a [select] option, is dropped.  The projection sent
    is [{ '+': 1, loginAttempts: 1, password: 1 }]: the document carries
    [_id], [password] and [loginAttempts], and nothing else. *)
Definition select_login (u : User) : Loaded.document :=
  {| Loaded._id := _id u;
     Loaded.username := None;
     Loaded.email := None;
     Loaded.password := Some (password u);
     Loaded.role := None;
     Loaded.loginAttempts := Some (loginAttempts u);
     Loaded.lockUntil := None;
     Loaded.refreshTokens := None;
     Loaded.lastLogin := None;
     Loaded.lastSeen := None |}.

(** ** What a handler hands back *)

Inductive Reason := USER_NOT_FOUND | ACCOUNT_LOCKED | INVALID_PASSWORD.

(** [{ user, reason }] of [getAuthenticatedUser] *)
Record AuthResult := {
  user : option Loaded.document;
  reason : option Reason
}.

Inductive Payload :=
| no_data
| token_only (accessToken : Jwt.token)
| token_pair (accessToken : Jwt.token) (refreshToken : string)
| session (account : Loaded.document) (accessToken : Jwt.token)
    (refreshToken : string).

(** [res.status(s).json({ success: true, message, data })],
    [next(new ErrorResponse(message, statusCode))], or [next()] with
    [req.user] set. *)
Inductive Response :=
| json (statusCode : Z) (message : string) (data : Payload)
| next_error (message : string) (statusCode : Z)
| next_with (req_user : User).

(** The credentials of a request as [protect] reads them: the second word of
    an [Authorization] header that starts with ['Bearer '], and the
    [accessToken] cookie. *)
Record Credentials := {
  bearer : option Jwt.token;
  cookie_accessToken : option Jwt.token
}.

Definition opt_string_eqb (a b : option string) : bool :=
  match a, b with
  | Some x, Some y => (x =? y)%string
  | None, None => true
  | _, _ => false
  end.

(** [{ $gt: now }] on a [Date] field that may be absent *)
Definition gt_now (field : option Millis) (now : Millis) : bool :=
  match field with
  | Some t => t >? now
  | None => false
  end.

Section Accounts.

Variable crypt : string -> string -> option string.   (* bcrypt *)
Variable sha256 : string -> string.                   (* hex digest *)
Variable validators : Validators.
Variable env : Config.

(** *** Persistence with the schema's hooks *)

(** [this.save({ validateBeforeSave })] on a document whose paths [modified]
    were assigned since it was loaded.  Validation comes first (on the
    password only when that path is modified), then the two pre-save hooks:
    the password is hashed when modified, and [status.lastSeen] is set when
    [status.lastLogin] is modified.  Returns the document in memory. *)
Definition save (this : User) (modified : list Path)
    (validateBeforeSave : bool) (salt : string) (now : Millis) : M User :=
  if (validateBeforeSave && isModified password_path modified
      && negb (password_ok validators (password this)))%bool
  then throw ValidationError
  else
    hashed <- (if isModified password_path modified then
                 match Bcrypt.hash crypt (password this) salt with
                 | Bcrypt.Resolved digest => ret (set_password digest this)
                 | Bcrypt.Rejected e => throw {| name := "Error"; message := e |}
                 end
               else ret this) ;;
    let seen :=
      if isModified lastLogin_path modified
      then (set_status (set_lastSeen now (status hashed)) hashed,
            lastSeen_path :: modified)
      else (hashed, modified) in
    modify_users
      (on_id (_id this) (fun d => fold_left (write_path (fst seen)) (snd seen) d)) ;;
    ret (fst seen).

(** [User.create({ username, email, password, ... })]: setters, validation,
    the pre-save hooks of a new document, then the insert under the unique
    indexes on [username] and [email]. *)
Definition create (newId : nat) (new_username new_email new_password : string)
    (salt : string) (now : Millis) : M User :=
  let uname := trim new_username in
  let mail := toLowerCase (trim new_email) in
  if negb (username_ok validators uname && email_ok validators mail
           && password_ok validators new_password)%bool
  then throw ValidationError
  else
    match Bcrypt.hash crypt new_password salt with
    | Bcrypt.Rejected e => throw {| name := "Error"; message := e |}
    | Bcrypt.Resolved digest =>
        clash <- findOne (fun u => ((username u =? uname)%string
                                    || (email u =? mail)%string)%bool) ;;
        match clash with
        | Some _ => throw DuplicateKeyError
        | None =>
            let doc :=
              {| _id := newId; username := uname; email := mail;
                 password := digest; role := user_role;
                 emailVerificationToken := None;
                 emailVerificationExpire := None;
                 resetPasswordToken := None;
                 resetPasswordExpire := None;
                 loginAttempts := 0; lockUntil := None;
                 refreshTokens := [];
                 status := {| isActive := true; emailVerified := false;
                              lastLogin := None; lastSeen := now |} |} in
            modify_users (fun db => db ++ [doc]) ;;
            ret doc
        end
    end.

(** *** Methods of the model, on a document loaded whole *)

(** The virtual [isLocked]: [!!(this.lockUntil && this.lockUntil > Date.now())] *)
Definition isLocked (this : User) (now : Millis) : bool :=
  match lockUntil this with
  | Some l => l >? now
  | None => false
  end.

(** [matchPassword]: the result of [bcrypt.compare], and nothing
    ([undefined]) when the comparison throws; the [catch] block only logs. *)
Definition matchPassword (this : User) (enteredPassword : Js.value) : M Js.value :=
  try_catch
    (call (bcrypt_compare enteredPassword (Js.Str (password this))) ;;
     match Bcrypt.compare crypt enteredPassword (Js.Str (password this)) with
     | Bcrypt.Resolved b => ret (Js.Bool b)
     | Bcrypt.Rejected e => throw {| name := "Error"; message := e |}
     end)
    (fun _ => ret Js.Undefined).

Definition getSignedJwtToken (this : User) (now : Millis) : Jwt.token :=
  Jwt.sign (_id this) (Some (email this)) (Some (username this))
    (Some (role this))
    (JWT_SECRET env) (JWT_EXPIRE env) (JWT_ISSUER env) (JWT_AUDIENCE env) now.

(** [random] is [crypto.randomBytes(40).toString('hex')]. *)
Definition generateRefreshToken (this : User) (random : string) (now : Millis)
    : User * string :=
  (set_refreshTokens
     (refreshTokens this ++
      [{| token := random; createdAt := now;
          expiresAt := now + 7 * 24 * 60 * 60 * 1000 |}]) this,
   random).

Definition removeRefreshToken (this : User) (tokenToRemove : string) : User :=
  set_refreshTokens
    (filter (fun tokenObj => negb (token tokenObj =? tokenToRemove)%string)
       (refreshTokens this)) this.

(** [random] is [crypto.randomBytes(20).toString('hex')]. *)
Definition getEmailVerificationToken (this : User) (random : string)
    (now : Millis) : User * string :=
  (set_emailVerificationExpire
     (Some (now + EMAIL_VERIFICATION_EXPIRE env * 60 * 60 * 1000))
     (set_emailVerificationToken (Some (sha256 random)) this),
   random).

Definition getResetPasswordToken (this : User) (random : string)
    (now : Millis) : User * string :=
  (set_resetPasswordExpire
     (Some (now + RESET_PASSWORD_EXPIRE env * 60 * 1000))
     (set_resetPasswordToken (Some (sha256 random)) this),
   random).

(** The static [getAuthenticatedUser].  The filter
    [{ $or: [{ username: identifier }, { email: identifier }] }] is cast
    through the setters of the schema before it is sent: [trim] on
    [username], [lowercase] and [trim] on [email].  The document found is
    loaded under the projection of [select_login].  [now] is the instant of
    the lock check (and of [incLoginAttempts] on the locked path, which runs
    in the same stretch); [later] is the instant after the password
    comparison. *)
Definition getAuthenticatedUser (identifier : string) (enteredPassword : Js.value)
    (now later : Millis) : M AuthResult :=
  found <- findOne (fun u => ((username u =? trim identifier)%string
                              || (email u =? toLowerCase (trim identifier))%string)%bool) ;;
  match found with
  | None => ret {| user := None; reason := Some USER_NOT_FOUND |}
  | Some found =>
      let this := select_login found in
      if Loaded.isLocked this now then
        Loaded.incLoginAttempts env this now ;;
        ret {| user := None; reason := Some ACCOUNT_LOCKED |}
      else
        isMatch <- Loaded.matchPassword crypt this enteredPassword ;;
        if Js.truthy isMatch then
          (if match Loaded.loginAttempts this with
              | Some n => n >? 0
              | None => false
              end
           then Loaded.updateOne this [unset_loginAttempts; unset_lockUntil]
           else ret tt) ;;
          ret {| user := Some this; reason := None |}
        else
          Loaded.incLoginAttempts env this later ;;
          ret {| user := None; reason := Some INVALID_PASSWORD |}
  end.

(** *** The mail collaborator: one attempt; a failure throws. *)
Definition sendEmail (to subject : string) (delivered : bool) : M unit :=
  call (sendEmail_to to subject) ;;
  if delivered then ret tt
  else throw {| name := "Error"; message := "Email sending error" |}.

(** *** The auth controller *)

(** [exports.register].  [errors_isEmpty] is [validationResult(req).isEmpty()];
    the three instants are those of the insert, of the issue of the
    verification token and of the code after the mail attempt.  The filter
    of the lookup is cast through the setters of the schema;
    [existingUser.email === email] compares with the email as sent. *)
Definition register (errors_isEmpty : bool)
    (body_username body_email body_password : string)
    (newId : nat) (salt verificationRandom refreshRandom : string)
    (delivered : bool) (t_create t_issue t_after : Millis) : M Response :=
  if negb errors_isEmpty then ret (next_error "Validation error" 400)
  else
    existingUser <- findOne (fun u => ((email u =? toLowerCase (trim body_email))%string
                                       || (username u =? trim body_username)%string)%bool) ;;
    match existingUser with
    | Some existingUser =>
        let field := if (email existingUser =? body_email)%string
                     then "email" else "username" in
        ret (next_error ("User with this " ++ field ++ " already exists")%string 400)
    | None =>
        created <- create newId body_username body_email body_password
                     salt t_create ;;
        let issued := getEmailVerificationToken created verificationRandom t_issue in
        this <- save (fst issued)
                  [emailVerificationToken_path; emailVerificationExpire_path]
                  false salt t_issue ;;
        try_catch
          (sendEmail (email this) "Account Verification" delivered ;;
           let accessToken := getSignedJwtToken this t_after in
           let rotated := generateRefreshToken this refreshRandom t_after in
           saved <- save (fst rotated) [refreshTokens_path] false salt t_after ;;
           ret (json 201
                  "User registered successfully. Please check your email to verify your account."
                  (session (whole saved) accessToken (snd rotated))))
          (fun _ =>
             let cleared := set_emailVerificationExpire None
                              (set_emailVerificationToken None this) in
             save cleared
               [emailVerificationToken_path; emailVerificationExpire_path]
               false salt t_after ;;
             ret (next_error "Email could not be sent. Please try again later." 500))
    end.

Definition login_failure_message (r : option Reason) : string :=
  match r with
  | Some USER_NOT_FOUND => "No account found with this username or email"
  | Some ACCOUNT_LOCKED =>
      ("Account temporarily locked due to too many failed login attempts. Try again in "
       ++ NilZero.string_of_int (Z.to_int (LOCKOUT_TIME env)) ++ " minutes.")%string
  | Some INVALID_PASSWORD => "Invalid password"
  | None => "Invalid credentials"
  end.

(** [exports.login].  [now] and [later] as in [getAuthenticatedUser];
    [t_session] is the instant of the code that follows it, [t_save] the
    instant of the pre-save hook.  [result.user] is the document
    [getAuthenticatedUser] loaded, with the paths of its projection. *)
Definition login (errors_isEmpty : bool) (body_username : string)
    (body_password : Js.value) (refreshRandom salt : string)
    (now later t_session t_save : Millis) : M Response :=
  if negb errors_isEmpty then ret (next_error "Validation error" 400)
  else
    result <- getAuthenticatedUser body_username body_password now later ;;
    match user result with
    | None => ret (next_error (login_failure_message (reason result)) 401)
    | Some this =>
        let this := Loaded.set_lastLogin (Some t_session) this in
        let this := Loaded.set_lastSeen (Some t_session) this in
        let this := Loaded.cleanExpiredTokens this t_session in
        let accessToken := Loaded.getSignedJwtToken env this t_session in
        rotated <- Loaded.generateRefreshToken this refreshRandom t_session ;;
        saved <- Loaded.save crypt validators (fst rotated)
                   [lastLogin_path; lastSeen_path; refreshTokens_path]
                   false salt t_save ;;
        ret (json 200 "Login successful"
               (session saved accessToken (snd rotated)))
    end.

(** [exports.forgotPassword]; the filter [{ email }] is cast through the
    setters of the schema. *)
Definition forgotPassword (errors_isEmpty : bool) (body_email : string)
    (resetRandom salt : string) (delivered : bool)
    (now t_after : Millis) : M Response :=
  if negb errors_isEmpty then ret (next_error "Validation error" 400)
  else
    found <- findOne (fun u => (email u =? toLowerCase (trim body_email))%string) ;;
    match found with
    | None => ret (next_error "User not found" 404)
    | Some this =>
        let issued := getResetPasswordToken this resetRandom now in
        this <- save (fst issued)
                  [resetPasswordToken_path; resetPasswordExpire_path]
                  false salt now ;;
        try_catch
          (sendEmail (email this) "Password Reset Request" delivered ;;
           ret (json 200 "Password reset email sent" no_data))
          (fun _ =>
             let cleared := set_resetPasswordExpire None
                              (set_resetPasswordToken None this) in
             save cleared
               [resetPasswordToken_path; resetPasswordExpire_path]
               false salt t_after ;;
             ret (next_error "Email could not be sent" 500))
    end.

(** The filter of [exports.resetPassword]:
    [{ resetPasswordToken, resetPasswordExpire: { $gt: Date.now() } }] *)
Definition reset_filter (digest : string) (now : Millis) (u : User) : bool :=
  (opt_string_eqb (resetPasswordToken u) (Some digest)
   && gt_now (resetPasswordExpire u) now)%bool.

(** The filter of [exports.verifyEmail]:
    [{ emailVerificationToken, emailVerificationExpire: { $gt: Date.now() } }] *)
Definition verification_filter (digest : string) (now : Millis) (u : User) : bool :=
  (opt_string_eqb (emailVerificationToken u) (Some digest)
   && gt_now (emailVerificationExpire u) now)%bool.

(** [exports.resetPassword]; the only [save] of the controller that
    validates. *)
Definition resetPassword (errors_isEmpty : bool)
    (resettoken body_password salt : string) (now t_save : Millis) : M Response :=
  if negb errors_isEmpty then ret (next_error "Validation error" 400)
  else
    let digest := sha256 resettoken in
    found <- findOne (reset_filter digest now) ;;
    match found with
    | None => ret (next_error "Invalid or expired token" 400)
    | Some this =>
        let this := set_password body_password this in
        let this := set_resetPasswordToken None this in
        let this := set_resetPasswordExpire None this in
        let this := set_refreshTokens [] this in
        saved <- save this
                   [password_path; resetPasswordToken_path;
                    resetPasswordExpire_path; refreshTokens_path]
                   true salt t_save ;;
        ret (json 200 "Password reset successful"
               (token_only (getSignedJwtToken saved t_save)))
    end.

(** [exports.verifyEmail] *)
Definition verifyEmail (param_token salt : string) (now : Millis) : M Response :=
  let digest := sha256 param_token in
  found <- findOne (verification_filter digest now) ;;
  match found with
  | None => ret (next_error "Invalid or expired verification token" 400)
  | Some this =>
      let this := set_status (set_emailVerified true (status this)) this in
      let this := set_emailVerificationToken None this in
      let this := set_emailVerificationExpire None this in
      save this
        [emailVerified_path; emailVerificationToken_path;
         emailVerificationExpire_path]
        false salt now ;;
      ret (json 200 "Email verified successfully" no_data)
  end.

(** The filter of [exports.refreshToken]:
    [{ 'refreshTokens.token': t, 'refreshTokens.expiresAt': { $gt: now } }].
    Each dotted condition on the array holds when SOME element satisfies
    it; the two need not be satisfied by the same element (that would take
    [$elemMatch]). *)
Definition refresh_filter (t : string) (now : Millis) (u : User) : bool :=
  (existsb (fun r => (token r =? t)%string) (refreshTokens u)
   && existsb (fun r => expiresAt r >? now) (refreshTokens u))%bool.

(** [exports.refreshToken]; [body_refreshToken] is [None] when the body has
    no such field. *)
Definition refreshToken (body_refreshToken : option string)
    (newRandom salt : string) (now t_rotate : Millis) : M Response :=
  match body_refreshToken with
  | None | Some EmptyString => ret (next_error "Refresh token required" 401)
  | Some supplied =>
      found <- findOne (refresh_filter supplied now) ;;
      match found with
      | None => ret (next_error "Invalid or expired refresh token" 401)
      | Some this =>
          let accessToken := getSignedJwtToken this t_rotate in
          let this := removeRefreshToken this supplied in
          let rotated := generateRefreshToken this newRandom t_rotate in
          save (fst rotated) [refreshTokens_path] false salt t_rotate ;;
          ret (json 200 "" (token_pair accessToken (snd rotated)))
      end
  end.

(** *** The [protect] middleware *)
Definition protect (req : Credentials) (now : Millis) : M Response :=
  let presented :=
    match bearer req with
    | Some t => Some t
    | None =>
        match cookie_accessToken req with
        | Some Jwt.Empty => None
        | c => c
        end
    end in
  match presented with
  | None | Some Jwt.Empty =>
      ret (next_error "Access denied. No token provided" 401)
  | Some t =>
      match Jwt.verify t (JWT_SECRET env) Jwt.no_options now with
      | inr decoded =>
          found <- findById (Jwt.id decoded) ;;
          match found with
          | None => ret (next_error "User not found" 404)
          | Some this =>
              if negb (isActive (status this))
              then ret (next_error "User account is deacrivated" 401)
              else ret (next_with this)
          end
      | inl Jwt.TokenExpiredError => ret (next_error "Token Expired" 401)
      | inl (Jwt.JsonWebTokenError _) => ret (next_error "Invalid Token" 401)
      end
  end.


(** A private route: [protect] runs first and the handler sees [req.user]. *)
Definition authenticated (req : Credentials) (now : Millis)
    (handler : User -> M Response) : M Response :=
  passed <- protect req now ;;
  match passed with
  | next_with req_user => handler req_user
  | refused => ret refused
  end.

(** [exports.logout] *)
Definition logout (req_user : User) (body_refreshToken : option string)
    (salt : string) (now : Millis) : M Response :=
  match body_refreshToken with
  | None | Some EmptyString => ret (json 200 "Logged out successfully" no_data)
  | Some supplied =>
      save (removeRefreshToken req_user supplied) [refreshTokens_path]
        false salt now ;;
      ret (json 200 "Logged out successfully" no_data)
  end.

(** [exports.logoutAll] *)
Definition logoutAll (req_user : User) (salt : string) (now : Millis) : M Response :=
  save (set_refreshTokens [] req_user) [refreshTokens_path] false salt now ;;
  ret (json 200 "Logged out from all devices successfully" no_data).

(** [exports.updatePassword]; a missing document makes [user.matchPassword]
    a call on [null]. *)
Definition updatePassword (errors_isEmpty : bool) (req_user : User)
    (currentPassword : Js.value) (newPassword salt : string)
    (now : Millis) : M Response :=
  if negb errors_isEmpty then ret (next_error "Validation error" 400)
  else
    found <- findById (_id req_user) ;;
    match found with
    | None => throw {| name := "TypeError";
                       message := "Cannot read properties of null" |}
    | Some this =>
        isMatch <- matchPassword this currentPassword ;;
        if negb (Js.truthy isMatch)
        then ret (next_error "Current password is incorrect" 401)
        else
          saved <- save (set_password newPassword this) [password_path]
                     true salt now ;;
          ret (json 200 "Password updated successfully"
                 (token_only (getSignedJwtToken saved now)))
    end.

(** [exports.resendVerification]; its [catch] block only reports. *)
Definition resendVerification (req_user : User)
    (verificationRandom salt : string) (delivered : bool)
    (now : Millis) : M Response :=
  if emailVerified (status req_user)
  then ret (next_error "Email is already verified" 400)
  else
    let issued := getEmailVerificationToken req_user verificationRandom now in
    this <- save (fst issued)
              [emailVerificationToken_path; emailVerificationExpire_path]
              false salt now ;;
    try_catch
      (sendEmail (email this) "Email Verification" delivered ;;
       ret (json 200 "Verification email sent" no_data))
      (fun _ => ret (next_error "Email could not be sent" 500)).

(** ** Vocabulary of the statements *)

(** The filter of a login, [{ $or: [{ username }, { email }] }], as it is
    sent: cast through the setters of the schema. *)
Definition by_identifier (identifier : string) (u : User) : bool :=
  ((username u =? trim identifier)%string
   || (email u =? toLowerCase (trim identifier))%string)%bool.

(** The account a login with [identifier] resolves in world [w]. *)
Definition account (w : World) (identifier : string) : option User :=
  find (by_identifier identifier) (users w).

(** The stored document with a given [_id]. *)
Definition stored (w : World) (i : nat) : option User :=
  find (fun u => Nat.eqb (_id u) i) (users w).

(** One login attempt: the password sent and the two instants of
    [getAuthenticatedUser]. *)
Record Attempt := {
  entered : Js.value;
  at_check : Millis;
  at_update : Millis
}.

(** [entered] is the password of [u]: the comparison resolves to [true]. *)
Definition verifies (u : User) (entered : Js.value) : bool :=
  match Bcrypt.compare crypt entered (Js.Str (password u)) with
  | Bcrypt.Resolved b => b
  | Bcrypt.Rejected _ => false
  end.

(** The world after a run of login attempts on one identifier. *)
Fixpoint attempts (w : World) (identifier : string) (l : list Attempt) : World :=
  match l with
  | [] => w
  | a :: l =>
      attempts
        (snd (getAuthenticatedUser identifier (entered a)
                (at_check a) (at_update a) w))
        identifier l
  end.

(** The lock a failure at instant [t] sets. *)
Definition lock_from (t : Millis) : Millis := t + LOCKOUT_TIME env * 60 * 1000.

(** The update [incLoginAttempts] sends at instant [t] for the stored
    document [u] as a login has loaded it. *)
Definition attempt_update (u : User) (t : Millis) : list UpdateOp :=
  if loginAttempts u + 1 >=? MAX_LOGIN_ATTEMPTS env
  then [inc_loginAttempts 1; set_lockUntil_to (lock_from t)]
  else [inc_loginAttempts 1].

(** The world after [updateOne] on the stored document of [u]. *)
Definition updated (w : World) (u : User) (ops : list UpdateOp) : World :=
  {| users := on_id (_id u) (fun d => fold_left apply_op ops d) (users w);
     calls := calls w |}.

(** The world after one call of [bcrypt.compare]. *)
Definition compared (w : World) (u : User) (pw : Js.value) : World :=
  {| users := users w;
     calls := calls w ++ [bcrypt_compare pw (Js.Str (password u))] |}.


(** A handler answered with [res.status(..).json(..)]. *)
Definition succeeded (c : Completion Response) : bool :=
  match c with
  | Normal (json _ _ _) => true
  | _ => false
  end.

(** The token [protect] looks at: the bearer token when the header is there,
    else the cookie. *)
Definition presented (req : Credentials) : option Jwt.token :=
  match bearer req with
  | Some t => Some t
  | None => cookie_accessToken req
  end.

(** The three failures of [protect] that concern the token. *)
Definition token_expired_response : Response := next_error "Token Expired" 401.
Definition invalid_token_response : Response := next_error "Invalid Token" 401.
Definition unknown_subject_response : Response := next_error "User not found" 404.

(** The record [generateRefreshToken] pushes. *)
Definition issued_record (random : string) (now : Millis) : RefreshTokenRecord :=
  {| token := random; createdAt := now;
     expiresAt := now + 7 * 24 * 60 * 60 * 1000 |}.

(** What a login of the account loaded as [u], served at [t_session] and
    saved at [t_save], leaves of the stored document [d]: the reset of the
    lock fields when the loaded counter is above zero, then the three paths
    [save] writes. *)
Definition after_login (u : User) (random : string) (t_session t_save : Millis)
    (d : User) : User :=
  let d := if loginAttempts u >? 0
           then fold_left apply_op [unset_loginAttempts; unset_lockUntil] d
           else d in
  set_refreshTokens [issued_record random t_session]
    (set_status
       (set_lastSeen t_save (set_lastLogin (Some t_session) (status d))) d).

(** [u] stores a refresh-token record with value [t]. *)
Definition holds_refresh (t : string) (u : User) : bool :=
  existsb (fun r => (token r =? t)%string) (refreshTokens u).

(** *** The requests of the auth routes and the states they reach *)

Inductive Request :=
| POST_register (errors_isEmpty : bool)
    (body_username body_email body_password : string) (newId : nat)
    (salt verificationRandom refreshRandom : string) (delivered : bool)
    (t_create t_issue t_after : Millis)
| POST_login (errors_isEmpty : bool) (body_username : string)
    (body_password : Js.value) (refreshRandom salt : string)
    (now later t_session t_save : Millis)
| POST_forgot_password (errors_isEmpty : bool)
    (body_email resetRandom salt : string) (delivered : bool)
    (now t_after : Millis)
| PUT_reset_password (errors_isEmpty : bool)
    (resettoken body_password salt : string) (now t_save : Millis)
| GET_verify_email (param_token salt : string) (now : Millis)
| POST_refresh_token (body_refreshToken : option string)
    (newRandom salt : string) (now t_rotate : Millis)
| POST_logout (req : Credentials) (body_refreshToken : option string)
    (salt : string) (now t_handler : Millis)
| POST_logout_all (req : Credentials) (salt : string) (now t_handler : Millis)
| PUT_password (req : Credentials) (errors_isEmpty : bool)
    (currentPassword : Js.value) (newPassword salt : string)
    (now t_handler : Millis)
| POST_resend_verification (req : Credentials)
    (verificationRandom salt : string) (delivered : bool)
    (now t_handler : Millis).

(** The handler behind each route.  [PUT_reset_password] is served with
    either verdict of the validation; through its route the verdict is
    always an error ([reset_password_route] below), so that the worlds
    reached here include those the route reaches. *)
Definition handle (r : Request) : M Response :=
  match r with
  | POST_register e un em pw i salt vr rr delivered t1 t2 t3 =>
      register e un em pw i salt vr rr delivered t1 t2 t3
  | POST_login e un pw rr salt now later t3 t4 =>
      login e un pw rr salt now later t3 t4
  | POST_forgot_password e em rr salt delivered now t2 =>
      forgotPassword e em rr salt delivered now t2
  | PUT_reset_password e tok pw salt now t2 =>
      resetPassword e tok pw salt now t2
  | GET_verify_email tok salt now => verifyEmail tok salt now
  | POST_refresh_token tok r salt now t2 => refreshToken tok r salt now t2
  | POST_logout req tok salt now t2 =>
      authenticated req now (fun req_user => logout req_user tok salt t2)
  | POST_logout_all req salt now t2 =>
      authenticated req now (fun req_user => logoutAll req_user salt t2)
  | PUT_password req e current new salt now t2 =>
      authenticated req now
        (fun req_user => updatePassword e req_user current new salt t2)
  | POST_resend_verification req r salt delivered now t2 =>
      authenticated req now
        (fun req_user => resendVerification req_user r salt delivered t2)
  end.

(** The first and the last instant of a request. *)
Definition begins (r : Request) : Millis :=
  match r with
  | POST_register _ _ _ _ _ _ _ _ _ t1 _ _ => t1
  | POST_login _ _ _ _ _ now _ _ _ => now
  | POST_forgot_password _ _ _ _ _ now _ => now
  | PUT_reset_password _ _ _ _ now _ => now
  | GET_verify_email _ _ now => now
  | POST_refresh_token _ _ _ now _ => now
  | POST_logout _ _ _ now _ => now
  | POST_logout_all _ _ now _ => now
  | PUT_password _ _ _ _ _ now _ => now
  | POST_resend_verification _ _ _ _ now _ => now
  end.

Definition ends (r : Request) : Millis :=
  match r with
  | POST_register _ _ _ _ _ _ _ _ _ _ _ t3 => t3
  | POST_login _ _ _ _ _ _ _ _ t4 => t4
  | POST_forgot_password _ _ _ _ _ _ t2 => t2
  | PUT_reset_password _ _ _ _ _ t2 => t2
  | GET_verify_email _ _ now => now
  | POST_refresh_token _ _ _ _ t2 => t2
  | POST_logout _ _ _ _ t2 => t2
  | POST_logout_all _ _ _ t2 => t2
  | PUT_password _ _ _ _ _ _ t2 => t2
  | POST_resend_verification _ _ _ _ _ t2 => t2
  end.

(** The clock does not run backwards inside a request. *)
Definition in_order (r : Request) : Prop :=
  match r with
  | POST_register _ _ _ _ _ _ _ _ _ t1 t2 t3 => t1 <= t2 /\ t2 <= t3
  | POST_login _ _ _ _ _ now later t3 t4 => now <= later /\ later <= t3 /\ t3 <= t4
  | POST_forgot_password _ _ _ _ _ now t2 => now <= t2
  | PUT_reset_password _ _ _ _ now t2 => now <= t2
  | GET_verify_email _ _ _ => True
  | POST_refresh_token _ _ _ now t2 => now <= t2
  | POST_logout _ _ _ now t2 => now <= t2
  | POST_logout_all _ _ now t2 => now <= t2
  | PUT_password _ _ _ _ _ now t2 => now <= t2
  | POST_resend_verification _ _ _ _ now t2 => now <= t2
  end.

(** A new document gets an [_id] no stored document has. *)
Definition mints_fresh_id (r : Request) (w : World) : Prop :=
  match r with
  | POST_register _ _ _ _ i _ _ _ _ _ _ _ => forall d, In d (users w) -> _id d <> i
  | _ => True
  end.

(** [reachable t w]: the world [w] results from the empty store by requests
    to the auth routes served one after the other, the last of them ending at
    instant [t]. *)
Inductive reachable : Millis -> World -> Prop :=
| reachable_empty (t : Millis) : reachable t {| users := []; calls := [] |}
| reachable_step (t : Millis) (w : World) (r : Request) :
    reachable t w ->
    t <= begins r -> in_order r -> mints_fresh_id r w ->
    reachable (ends r) (snd (handle r w)).

(** [m] takes a world where [P] holds to a world where [Q] holds. *)
Definition step {A} (P : World -> Prop) (m : M A) (Q : World -> Prop) : Prop :=
  forall w, P w -> Q (snd (m w)).

(** The world after serving requests one after the other. *)
Fixpoint replay (w : World) (rs : list Request) : World :=
  match rs with
  | [] => w
  | r :: rs => replay (snd (handle r w)) rs
  end.

(** *** Sample data for the concrete instances *)

(** Stand-ins for the two hash functions: the digest is the salt followed by
    the input, and the input in brackets. *)
Definition sample_crypt (s salt : string) : option string := Some (salt ++ s)%string.
Definition sample_sha256 (s : string) : string := ("sha256(" ++ s ++ ")")%string.
Definition sample_validators : Validators :=
  {| username_ok := fun s => Nat.leb 3 (String.length s);
     email_ok := fun s => Nat.leb 3 (String.length s);
     password_ok := fun s => Nat.leb 6 (String.length s) |}.

Definition sample_salt : string := "$2a$12$abcdefghijklmnopqrstuv".
Definition sample_password : string := "Passw0rd!Passw0rd!Passw0rd!1234".

Definition alice : User :=
  {| _id := 1; username := "alice"; email := "alice@example.com";
     password := (sample_salt ++ sample_password)%string; role := user_role;
     emailVerificationToken := None; emailVerificationExpire := None;
     resetPasswordToken := None; resetPasswordExpire := None;
     loginAttempts := 0; lockUntil := None; refreshTokens := [];
     status := {| isActive := true; emailVerified := false;
                  lastLogin := None; lastSeen := 0 |} |}.

Definition empty_world : World := {| users := []; calls := [] |}.
Definition alice_world : World := {| users := [alice]; calls := [] |}.

Definition wrong_at (t : Millis) : Attempt :=
  {| entered := Js.Str "letmein"; at_check := t; at_update := t + 300 |}.

(** Four failed attempts. *)
Definition four_wrong : list Attempt :=
  [wrong_at 1000; wrong_at 2000; wrong_at 3000; wrong_at 4000].

(** [alice] after five failures, the last at instant 5300. *)
Definition alice_locked : User :=
  set_lockUntil (Some 1805300) (set_loginAttempts 5 alice).

(** [alice] with two sessions, the older one expired at instant 100. *)
Definition alice_two_sessions : User :=
  set_refreshTokens
    [ {| token := "old-token"; createdAt := 0; expiresAt := 100 |};
      {| token := "new-token"; createdAt := 400; expiresAt := 604800400 |} ]
    alice.

(** [alice] with one live session. *)
Definition alice_one_session : User :=
  set_refreshTokens
    [ {| token := "new-token"; createdAt := 400; expiresAt := 604800400 |} ]
    alice.

(** [alice] with a verification token and a reset token pending. *)
Definition alice_pending : User :=
  set_resetPasswordExpire (Some 600000)
    (set_resetPasswordToken (Some (sample_sha256 "reset-me"))
       (set_emailVerificationExpire (Some 86400000)
          (set_emailVerificationToken (Some (sample_sha256 "verify-me"))
             alice_one_session))).

(** A token signed under the server's secret by another issuer, for another
    audience. *)
Definition foreign_token : Jwt.token :=
  Jwt.Signed (JWT_SECRET default_env)
    {| Jwt.id := 1; Jwt.email := Some "alice@example.com";
       Jwt.username := Some "alice"; Jwt.role := Some user_role;
       Jwt.iat := 0; Jwt.exp := 2592000;
       Jwt.iss := Some "another-service"; Jwt.aud := Some "another-audience" |}.

(** A registration of alice followed by five logins with a wrong password. *)
Definition sample_history : list Request :=
  [ POST_register true "alice" "alice@example.com" sample_password 1
      sample_salt "verify-me" "first-token" true 0 0 100;
    POST_login true "alice" (Js.Str "letmein") "r1" sample_salt 1000 1300 1300 1300;
    POST_login true "alice" (Js.Str "letmein") "r2" sample_salt 2000 2300 2300 2300;
    POST_login true "alice" (Js.Str "letmein") "r3" sample_salt 3000 3300 3300 3300;
    POST_login true "alice" (Js.Str "letmein") "r4" sample_salt 4000 4300 4300 4300;
    POST_login true "alice" (Js.Str "letmein") "r5" sample_salt 5000 5300 5300 5300 ].

(** Two registrations, a third one that asks for a username that is taken,
    and a login. *)
Definition two_accounts_history : list Request :=
  [ POST_register true "alice" "alice@example.com" sample_password 1
      sample_salt "verify-me" "first-token" true 0 0 100;
    POST_register true "bob" "bob@example.com" sample_password 2
      sample_salt "verify-bob" "bob-token" true 1000 1000 1100;
    POST_register true " alice " "carol@example.com" sample_password 3
      sample_salt "verify-carol" "carol-token" true 2000 2000 2100;
    POST_login true "alice" (Js.Str sample_password) "r1" sample_salt
      3000 3300 3300 3400 ].

(** [n] times the code unit [c]. *)
Definition letters (c n : nat) : string :=
  string_of_list_ascii (repeat (ascii_of_nat c) n).

(** Two no-break spaces, U+00A0. *)
Definition nbsp_only : string := letters 160 2.

(** Another password, of 31 characters as [sample_password]. *)
Definition other_password : string := "0ther-Passw0rd!0ther-Passw0rd!!".

(** ** Around the core: the rate limiter, two routes, the soft delete, a virtual *)

(** *** [rateLimitByUser(windowMs, max)] *)

(** The entry the closure's [Map] keeps per caller. *)
Record Window := {
  count : Z;
  resetTime : Millis
}.

(** The [Map], from [req.user.id] or [req.ip] to the caller's entry. *)
Definition Attempts := string -> option Window.

Definition no_attempts : Attempts := fun _ => None.

(** [attempts.set(userId, entry)]; the assignments to [userAttempts.count] and
    [userAttempts.resetTime] change the object in the map, which is the same. *)
Definition Map_set (attempts : Attempts) (userId : string) (entry : Window)
    : Attempts :=
  fun k => if (k =? userId)%string then Some entry else attempts k.

(** [next()], or [next(new ErrorResponse('Too many requests. Try again later.', 429))] *)
Inductive Verdict := passed | too_many.

Definition rateLimitByUser (windowMs max : Z) (attempts : Attempts)
    (userId : string) (now : Millis) : Attempts * Verdict :=
  match attempts userId with
  | None =>
      (Map_set attempts userId {| count := 1; resetTime := now + windowMs |},
       passed)
  | Some userAttempts =>
      if now >? resetTime userAttempts then
        (Map_set attempts userId {| count := 1; resetTime := now + windowMs |},
         passed)
      else if count userAttempts >=? max then (attempts, too_many)
      else
        (Map_set attempts userId
           {| count := count userAttempts + 1;
              resetTime := resetTime userAttempts |},
         passed)
  end.

(** Requests, each from a caller at an instant, through one limiter. *)
Fixpoint limit_all (windowMs max : Z) (attempts : Attempts)
    (requests : list (string * Millis)) : Attempts * list Verdict :=
  match requests with
  | [] => (attempts, [])
  | (userId, now) :: rest =>
      let first := rateLimitByUser windowMs max attempts userId now in
      let others := limit_all windowMs max (fst first) rest in
      (fst others, snd first :: snd others)
  end.

(** The requests of one caller, and the verdicts they got. *)
Fixpoint of_caller {A} (userId : string) (requests : list (string * Millis))
    (answers : list A) : list A :=
  match requests, answers with
  | (k, _) :: rest, a :: more =>
      if (k =? userId)%string then a :: of_caller userId rest more
      else of_caller userId rest more
  | _, _ => []
  end.

(** *** [router.post('/login', rateLimitByUser(15 * 60 * 1000, 5), validateLogin, login)] *)

Definition too_many_requests : Response :=
  next_error "Too many requests. Try again later." 429.

(** One request to the login route: the instant of the limiter, then the
    arguments of [login].  The route is public, so the limiter's key is
    [req.ip]. *)
Record LoginCall := {
  at_limiter : Millis;
  call_errors_isEmpty : bool;
  call_username : string;
  call_password : Js.value;
  call_random : string;
  call_salt : string;
  call_now : Millis;
  call_later : Millis;
  call_session : Millis;
  call_save : Millis
}.

Definition login_route (attempts : Attempts) (ip : string) (c : LoginCall)
    (w : World) : Attempts * (Completion Response * World) :=
  let limited := rateLimitByUser (15 * 60 * 1000) 5 attempts ip (at_limiter c) in
  match snd limited with
  | too_many => (fst limited, (Normal too_many_requests, w))
  | passed =>
      (fst limited,
       login (call_errors_isEmpty c) (call_username c) (call_password c)
         (call_random c) (call_salt c)
         (call_now c) (call_later c) (call_session c) (call_save c) w)
  end.

(** Login requests from one address, served one after the other. *)
Fixpoint login_route_all (attempts : Attempts) (ip : string) (w : World)
    (cs : list LoginCall) : Attempts * World * list (Completion Response) :=
  match cs with
  | [] => (attempts, w, [])
  | c :: rest =>
      let served := login_route attempts ip c w in
      let others := login_route_all (fst served) ip (snd (snd served)) rest in
      (fst (fst others), snd (fst others), fst (snd served) :: snd others)
  end.

(** *** [router.put('/reset-password/:resettoken', validateToken, validatePasswordReset, resetPassword)] *)

(** [req.params]: the values the route pattern binds, by name. *)
Definition Params := list (string * string).

(** What [param(field)] selects: the bound value, or [undefined]. *)
Definition param (params : Params) (field : string) : Js.value :=
  match find (fun kv => (fst kv =? field)%string) params with
  | Some kv => Js.Str (snd kv)
  | None => Js.Undefined
  end.

(** The string a standard validator sees: an absent value is the empty
    string. *)
Definition toString (v : Js.value) : string :=
  match v with
  | Js.Str s => s
  | Js.Undefined | Js.Null => ""
  | Js.Bool true => "true"
  | Js.Bool false => "false"
  | Js.Num z => NilZero.string_of_int (Z.to_int z)
  end.

(** [validateToken]: [param('token').isLength({ min: 20 })]; [true] when the
    chain reports no error. *)
Definition validateToken (params : Params) : bool :=
  Nat.leb 20 (String.length (toString (param params "token"))).

(** The route: the pattern binds [resettoken]; [body_valid] is the verdict of
    [validatePasswordReset]; [validationResult(req)] gathers both. *)
Definition reset_password_route (resettoken : string) (body_valid : bool)
    (body_password salt : string) (now t_save : Millis) : M Response :=
  let params := [("resettoken", resettoken)] in
  resetPassword (validateToken params && body_valid) resettoken body_password
    salt now t_save.

(** *** [exports.deleteUser]: the soft delete *)

Definition set_isActive (v : bool) (s : Status) : Status :=
  {| isActive := v; emailVerified := emailVerified s;
     lastLogin := lastLogin s; lastSeen := lastSeen s |}.

(** [user.status.isActive = false; await user.save()]: the one modified path
    is written, and neither pre-save hook has anything to do (the password
    is not modified, the document is not new and [status.lastLogin] is not
    modified). *)
Definition deleteUser (param_id : nat) : M Response :=
  found <- findById param_id ;;
  match found with
  | None =>
      ret (next_error
             ("User not found with id of "
              ++ NilEmpty.string_of_uint (Nat.to_uint param_id))%string 404)
  | Some this =>
      modify_users
        (on_id (_id this)
           (fun d => set_status (set_isActive false (status d)) d)) ;;
      ret (json 200 "" no_data)
  end.

(** *** The virtual [profile.age] *)

(** [getFullYear()], [getMonth()] and [getDate()] of a [Date]. *)
Record CalendarDate := {
  fullYear : Z;
  month : Z;
  date : Z
}.

(** The getter; in its second test both sides read [today.getDate()]. *)
Definition age (dateOfBirth : option CalendarDate) (today : CalendarDate)
    : option Z :=
  match dateOfBirth with
  | None => None
  | Some birthDate =>
      let age := fullYear today - fullYear birthDate in
      let monthDiff := month today - month birthDate in
      if ((monthDiff <? 0)
          || ((monthDiff =? 0) && (date today <? date today)))%bool
      then Some (age - 1)
      else Some age
  end.

(** The years a person has completed on [today]: the difference of the
    years, less one before the birthday of the year. *)
Definition years_completed (birthDate today : CalendarDate) : Z :=
  fullYear today - fullYear birthDate
  - (if ((month today <? month birthDate)
         || ((month today =? month birthDate)
             && (date today <? date birthDate)))%bool
     then 1 else 0).

(** *** Two more invariants of the store *)

(** No two accounts share an [_id], a username or an email. *)
Definition unique_accounts (w : World) : Prop :=
  NoDup (map _id (users w))
  /\ NoDup (map username (users w))
  /\ NoDup (map email (users w)).

(** Every stored password is a digest: the output of the hasher on some
    input, under some salt. *)
Definition passwords_hashed (w : World) : Prop :=
  forall u, In u (users w) ->
    exists s salt, crypt s salt = Some (password u).

(** ** Comments: the [Comment] model and the comment controller *)

(** An element of [likes]: [{ user, createdAt }], [createdAt] defaulting to
    [Date.now]. *)
Record Like := {
  like_user : nat;
  like_createdAt : Millis
}.

(** The paths the schema declares.  [_id] is [comment_id] here; the two
    timestamps Mongoose keeps under [timestamps: true] are left out, no
    handler below reads them. *)
Record Comment := {
  comment_id : nat;
  content : string;
  author : nat;
  post : nat;
  parentComment : option nat;
  likes : list Like;
  likeCount : Z;
  replyCount : Z;
  isEdited : bool;
  editedAt : option Millis
}.

Definition set_content (v : string) (c : Comment) : Comment :=
  {| comment_id := comment_id c; content := v; author := author c;
     post := post c; parentComment := parentComment c; likes := likes c;
     likeCount := likeCount c; replyCount := replyCount c;
     isEdited := isEdited c; editedAt := editedAt c |}.

Definition set_likes (v : list Like) (c : Comment) : Comment :=
  {| comment_id := comment_id c; content := content c; author := author c;
     post := post c; parentComment := parentComment c; likes := v;
     likeCount := likeCount c; replyCount := replyCount c;
     isEdited := isEdited c; editedAt := editedAt c |}.

Definition set_likeCount (v : Z) (c : Comment) : Comment :=
  {| comment_id := comment_id c; content := content c; author := author c;
     post := post c; parentComment := parentComment c; likes := likes c;
     likeCount := v; replyCount := replyCount c;
     isEdited := isEdited c; editedAt := editedAt c |}.

Definition set_replyCount (v : Z) (c : Comment) : Comment :=
  {| comment_id := comment_id c; content := content c; author := author c;
     post := post c; parentComment := parentComment c; likes := likes c;
     likeCount := likeCount c; replyCount := v;
     isEdited := isEdited c; editedAt := editedAt c |}.

Definition set_isEdited (v : bool) (c : Comment) : Comment :=
  {| comment_id := comment_id c; content := content c; author := author c;
     post := post c; parentComment := parentComment c; likes := likes c;
     likeCount := likeCount c; replyCount := replyCount c;
     isEdited := v; editedAt := editedAt c |}.

Definition set_editedAt (v : option Millis) (c : Comment) : Comment :=
  {| comment_id := comment_id c; content := content c; author := author c;
     post := post c; parentComment := parentComment c; likes := likes c;
     likeCount := likeCount c; replyCount := replyCount c;
     isEdited := isEdited c; editedAt := v |}.

(** The comments, the [_id]s of the posts, and the calls
    [Post.findByIdAndUpdate(id, { $inc: { commentCount: n } })] in the order
    they were made. *)
Record Forum := {
  post_ids : list nat;
  comments : list Comment;
  post_calls : list (nat * Z)
}.

Definition set_comments (cs : list Comment) (f : Forum) : Forum :=
  {| post_ids := post_ids f; comments := cs; post_calls := post_calls f |}.

Definition inc_commentCount (postId : nat) (n : Z) (f : Forum) : Forum :=
  {| post_ids := post_ids f; comments := comments f;
     post_calls := post_calls f ++ [(postId, n)] |}.

(** [Post.findById(postId)], as far as the controller looks at it. *)
Definition Post_exists (postId : nat) (f : Forum) : bool :=
  existsb (Nat.eqb postId) (post_ids f).

(** [Comment.findById(id)] *)
Definition Comment_findById (i : nat) (f : Forum) : option Comment :=
  find (fun c => Nat.eqb (comment_id c) i) (comments f).

(** [Comment.findByIdAndUpdate(id, { $inc: { replyCount: n } })]; nothing
    happens when no comment has the [_id]. *)
Definition inc_replyCount (i : nat) (n : Z) (cs : list Comment)
    : list Comment :=
  map (fun c => if Nat.eqb (comment_id c) i
                then set_replyCount (replyCount c + n) c else c) cs.

Definition opt_nat_eqb (a b : option nat) : bool :=
  match a, b with
  | Some x, Some y => Nat.eqb x y
  | None, None => true
  | _, _ => false
  end.

(** [content]: [required: true], [maxlength: 1000], on the trimmed value;
    [maxlength] compares the [length] of the string, its number of code
    units. *)
Definition content_ok (s : string) : bool :=
  (negb (s =? "")%string && Nat.leb (String.length s) 1000)%bool.

Definition CommentValidationError : Exn :=
  {| name := "ValidationError"; message := "Comment validation failed" |}.

(** The hook [pre('save')]: a new reply counts for its parent. *)
Definition comment_pre_save (isNew : bool) (this : Comment) (f : Forum)
    : Forum :=
  match isNew, parentComment this with
  | true, Some p => set_comments (inc_replyCount p 1 (comments f)) f
  | _, _ => f
  end.

(** The hook [pre('remove')]: the post's counter, the parent's counter, then
    [deleteMany({ parentComment: this._id })], which runs no hook. *)
Definition comment_pre_remove (this : Comment) (f : Forum) : Forum :=
  let f1 := inc_commentCount (post this) (-1) f in
  let f2 :=
    match parentComment this with
    | Some p => set_comments (inc_replyCount p (-1) (comments f1)) f1
    | None => f1
    end in
  set_comments
    (filter (fun c => negb (opt_nat_eqb (parentComment c)
                                        (Some (comment_id this))))
       (comments f2)) f2.

(** [comment.remove()], the document method of Mongoose 5 and 6: the hook,
    then the document. *)
Definition remove (this : Comment) (f : Forum) : Forum :=
  let f1 := comment_pre_remove this f in
  set_comments
    (filter (fun c => negb (Nat.eqb (comment_id c) (comment_id this)))
       (comments f1)) f1.

(** [Comment.create({ content, author, post, parentComment })] under the
    fresh [_id] [newId]: the setter, the validation, the hook, the insert. *)
Definition Comment_create (newId : nat) (content0 : string)
    (author0 post0 : nat) (parentComment0 : option nat) (f : Forum)
    : Completion Comment * Forum :=
  let this :=
    {| comment_id := newId; content := trim content0; author := author0;
       post := post0; parentComment := parentComment0; likes := [];
       likeCount := 0; replyCount := 0; isEdited := false;
       editedAt := None |} in
  if negb (content_ok (content this)) then (Throw CommentValidationError, f)
  else
    let f1 := comment_pre_save true this f in
    (Normal this, set_comments (comments f1 ++ [this]) f1).

(** The paths the controller assigns before [comment.save()]. *)
Inductive CommentPath :=
| content_path
| isEdited_path
| editedAt_path
| likes_path
| likeCount_path.

Definition write_comment_path (this stored : Comment) (p : CommentPath)
    : Comment :=
  match p with
  | content_path => set_content (content this) stored
  | isEdited_path => set_isEdited (isEdited this) stored
  | editedAt_path => set_editedAt (editedAt this) stored
  | likes_path => set_likes (likes this) stored
  | likeCount_path => set_likeCount (likeCount this) stored
  end.

Definition writes_content (modified : list CommentPath) : bool :=
  existsb (fun p => match p with content_path => true | _ => false end)
    modified.

(** [comment.save()] of a stored comment: validation, the hook (with [isNew]
    false), then the modified paths are written.  What is stored has passed
    the validation when it was written, so that only a [content] the
    controller has just assigned can fail it. *)
Definition Comment_save (this : Comment) (modified : list CommentPath)
    (f : Forum) : Completion unit * Forum :=
  if (writes_content modified && negb (content_ok (content this)))%bool
  then (Throw CommentValidationError, f)
  else
    let f1 := comment_pre_save false this f in
    (Normal tt,
     set_comments
       (map (fun d => if Nat.eqb (comment_id d) (comment_id this)
                      then fold_left (write_comment_path this) modified d
                      else d) (comments f1)) f1).

(** What the controller answers: [res.status(s).json({ success: true, data,
    message })] or [res.status(s).json({ success: false, error, message })].
    The author of a comment in [data] is left as its [_id], [details] are
    left out. *)
Inductive CommentData :=
| no_comment
| the_comment (comment : Comment)
| like_state (comment : Comment) (isLiked : bool) (likeCount : Z).

Inductive Reply :=
| res_ok (statusCode : Z) (data : CommentData) (message : string)
| res_error (statusCode : Z) (error message : string).

Definition statusCode (a : Reply) : Z :=
  match a with
  | res_ok s _ _ => s
  | res_error s _ _ => s
  end.

Definition ObjectId_toString (i : nat) : string :=
  NilEmpty.string_of_uint (Nat.to_uint i).

Definition validation_error : Reply :=
  res_error 400 "Validation Error" "Please provide valid input data".

Definition comment_not_found (commentId : nat) : Reply :=
  res_error 404 "Comment not found"
    ("Comment with ID " ++ ObjectId_toString commentId ++ " does not exist")%string.

(** The [catch] of [createComment]. *)
Definition createComment_catch (e : Exn) : Reply :=
  if (name e =? "ValidationError")%string then validation_error
  else res_error 500 "Server Error" (message e).

(** The [catch] of the other handlers. *)
Definition comment_catch (e : Exn) : Reply :=
  if (name e =? "CastError")%string
  then res_error 400 "Invalid Comment ID" "Please provide a valid comment ID"
  else res_error 500 "Server Error" (message e).

(** [CommentController.createComment] *)
Definition createComment (errors_isEmpty : bool) (content0 : string)
    (parentComment0 : option nat) (postId req_user_id newId : nat)
    (f : Forum) : Reply * Forum :=
  if negb errors_isEmpty then (validation_error, f)
  else if negb (Post_exists postId f) then
    (res_error 404 "Post not found"
       ("Post with ID " ++ ObjectId_toString postId ++ " does not exist")%string,
     f)
  else
    let parent_missing :=
      match parentComment0 with
      | Some p =>
          match Comment_findById p f with
          | Some parent => negb (Nat.eqb (post parent) postId)
          | None => true
          end
      | None => false
      end in
    if parent_missing then
      (res_error 404 "Parent comment not found"
         "Invalid parent comment for this post", f)
    else
      match Comment_create newId content0 req_user_id postId parentComment0 f
      with
      | (Throw e, f1) => (createComment_catch e, f1)
      | (Normal comment, f1) =>
          (res_ok 201 (the_comment comment) "Comment created successfully",
           inc_commentCount postId 1 f1)
      end.

(** [CommentController.updateComment] *)
Definition updateComment (errors_isEmpty : bool) (commentId : nat)
    (content0 : string) (req_user_id : nat) (now : Millis) (f : Forum)
    : Reply * Forum :=
  if negb errors_isEmpty then (validation_error, f)
  else
    match Comment_findById commentId f with
    | None => (comment_not_found commentId, f)
    | Some found =>
        if negb (Nat.eqb (author found) req_user_id) then
          (res_error 403 "Authorization Error"
             "You can only update your own comments", f)
        else
          let comment :=
            set_editedAt (Some now)
              (set_isEdited true (set_content (trim content0) found)) in
          match Comment_save comment
                  [content_path; isEdited_path; editedAt_path] f with
          | (Throw e, f1) => (comment_catch e, f1)
          | (Normal _, f1) =>
              (res_ok 200 (the_comment comment) "Comment updated successfully",
               f1)
          end
    end.

(** [CommentController.deleteComment] *)
Definition deleteComment (commentId req_user_id : nat) (f : Forum)
    : Reply * Forum :=
  match Comment_findById commentId f with
  | None => (comment_not_found commentId, f)
  | Some comment =>
      if negb (Nat.eqb (author comment) req_user_id) then
        (res_error 403 "Authorization Error"
           "You can only delete your own comments", f)
      else
        (res_ok 200 no_comment "Comment deleted successfully",
         remove comment f)
  end.

(** [CommentController.likeComment] *)
Definition likeComment (commentId userId : nat) (now : Millis) (f : Forum)
    : Reply * Forum :=
  match Comment_findById commentId f with
  | None => (comment_not_found commentId, f)
  | Some found =>
      let existingLike :=
        find (fun like => Nat.eqb (like_user like) userId) (likes found) in
      let comment :=
        match existingLike with
        | Some _ =>
            set_likeCount (Z.max 0 (likeCount found - 1))
              (set_likes
                 (filter (fun like => negb (Nat.eqb (like_user like) userId))
                    (likes found)) found)
        | None =>
            set_likeCount (likeCount found + 1)
              (set_likes
                 (likes found
                  ++ [{| like_user := userId; like_createdAt := now |}])
                 found)
        end in
      match Comment_save comment [likes_path; likeCount_path] f with
      | (Throw e, f1) => (comment_catch e, f1)
      | (Normal _, f1) =>
          let isLiked :=
            match existingLike with Some _ => false | None => true end in
          (res_ok 200 (like_state comment isLiked (likeCount comment))
             (if isLiked then "Comment liked successfully"
              else "Comment unliked successfully"),
           f1)
      end
  end.

(** *** The protected comment routes, one request after the other *)

Inductive CommentRequest :=
| POST_comment (errors_isEmpty : bool) (content0 : string)
    (parentComment0 : option nat) (postId req_user_id newId : nat)
| PUT_comment (errors_isEmpty : bool) (commentId : nat) (content0 : string)
    (req_user_id : nat) (now : Millis)
| DELETE_comment (commentId req_user_id : nat)
| POST_like (commentId userId : nat) (now : Millis).

Definition serve (r : CommentRequest) : Forum -> Reply * Forum :=
  match r with
  | POST_comment e c p postId u newId => createComment e c p postId u newId
  | PUT_comment e i c u now => updateComment e i c u now
  | DELETE_comment i u => deleteComment i u
  | POST_like i u now => likeComment i u now
  end.

(** [req.user.id] of a request. *)
Definition requester (r : CommentRequest) : nat :=
  match r with
  | POST_comment _ _ _ _ u _ => u
  | PUT_comment _ _ _ u _ => u
  | DELETE_comment _ u => u
  | POST_like _ u _ => u
  end.

(** The [_id] a creation draws is a new ObjectId: no stored comment has it,
    and none names it as its parent. *)
Definition new_ObjectId (r : CommentRequest) (f : Forum) : Prop :=
  match r with
  | POST_comment _ _ _ _ _ newId =>
      forall c, In c (comments f) ->
        comment_id c <> newId /\ parentComment c <> Some newId
  | _ => True
  end.

(** The forums the routes lead to, from posts without comments. *)
Inductive forum_reachable : Forum -> Prop :=
| forum_start (ps : list nat) :
    forum_reachable {| post_ids := ps; comments := []; post_calls := [] |}
| forum_step (f : Forum) (r : CommentRequest) :
    forum_reachable f -> new_ObjectId r f ->
    forum_reachable (snd (serve r f)).

Fixpoint serve_all (rs : list CommentRequest) (f : Forum) : Forum :=
  match rs with
  | [] => f
  | r :: rest => serve_all rest (snd (serve r f))
  end.

(** The direct replies to the comment [i] that are stored. *)
Definition replies_to (i : nat) (cs : list Comment) : list Comment :=
  filter (fun c => opt_nat_eqb (parentComment c) (Some i)) cs.

(** [likeCount] is the number of [likes], and no user is in [likes] twice. *)
Definition likes_exact (c : Comment) : Prop :=
  likeCount c = Z.of_nat (List.length (likes c))
  /\ NoDup (map like_user (likes c)).

(** [replyCount] is the number of stored replies. *)
Definition replies_exact (cs : list Comment) (c : Comment) : Prop :=
  replyCount c = Z.of_nat (List.length (replies_to (comment_id c) cs)).

(** What the comment routes keep: the [_id]s are unique, the counters are
    exact, and a reply is on the post of its parent. *)
Definition comments_ok (cs : list Comment) : Prop :=
  NoDup (map comment_id cs)
  /\ (forall c, In c cs -> likes_exact c)
  /\ (forall c, In c cs -> replies_exact cs c)
  /\ (forall c p, In c cs -> In p cs ->
        parentComment c = Some (comment_id p) -> post c = post p).

(** ** [sanitizeMiddleware]: what every handler gets as [req.body] *)

(** A value of [JSON.parse]. *)
#[warnings="-register-all"] Inductive Json :=
| JNull
| JBool (b : bool)
| JNum (n : Z)
| JStr (s : string)
| JArr (items : list Json)
| JObj (fields : list (string * Json)).

(** [key.startsWith('$') || key.includes('.')] *)
Definition operator_key (key : string) : bool :=
  (String.prefix "$" key
   || existsb (Ascii.eqb ".") (list_ascii_of_string key))%bool.

(** [sanitize]: the keys with a [$] in front or a dot inside are deleted, at
    every depth; [for ... in] walks the indices of an array as it walks the
    keys of an object, so the branch for arrays is never taken and changes
    nothing. *)
Fixpoint sanitize (obj : Json) : Json :=
  match obj with
  | JObj fields =>
      JObj ((fix each (fields : list (string * Json)) :=
               match fields with
               | [] => []
               | (key, v) :: rest =>
                   if operator_key key then each rest
                   else (key, sanitize v) :: each rest
               end) fields)
  | JArr items => JArr (map sanitize items)
  | _ => obj
  end.

(** [s.replace(/c/g, by)] for a single character [c]. *)
Fixpoint replace (c : ascii) (by_ : string) (s : string) : string :=
  match s with
  | EmptyString => EmptyString
  | String a rest =>
      if Ascii.eqb a c then (by_ ++ replace c by_ rest)%string
      else String a (replace c by_ rest)
  end.

Definition quot : ascii := ascii_of_nat 34.
Definition apos : ascii := ascii_of_nat 39.

(** The five replacements of [xssSanitize], in their order. *)
Definition escape (s : string) : string :=
  replace "/" "&#x2F;"
    (replace apos "&#x27;"
       (replace quot "&quot;"
          (replace ">" "&gt;"
             (replace "<" "&lt;" s)))).

(** [obj.constructor === Object] on an object of [JSON.parse]: the property
    is the inherited one, [Object], unless the object has a property
    [constructor] of its own, whose value no JSON text makes [Object]. *)
Definition constructor_is_Object (fields : list (string * Json)) : bool :=
  negb (existsb (fun kv => (fst kv =? "constructor")%string) fields).

(** [xssSanitize]: strings are escaped; the values of an object whose
    [constructor] is [Object] and the items of an array are sanitized in
    place, keys are left as they are.  An object with another [constructor]
    fails the second test and, not being an array, the third: it is
    returned as it is, with everything below it. *)
Fixpoint xssSanitize (obj : Json) : Json :=
  match obj with
  | JStr s => JStr (escape s)
  | JObj fields =>
      if constructor_is_Object fields
      then JObj (map (fun kv => (fst kv, xssSanitize (snd kv))) fields)
      else obj
  | JArr items => JArr (map xssSanitize items)
  | _ => obj
  end.

(** [req.body = xssSanitize(sanitize(JSON.parse(JSON.stringify(req.body))))] *)
Definition sanitizeMiddleware (body : Json) : Json :=
  xssSanitize (sanitize body).

(** No key, at any depth, starts with [$] or holds a dot. *)
Fixpoint no_operator_key (v : Json) : bool :=
  match v with
  | JObj fields =>
      forallb (fun kv => (negb (operator_key (fst kv))
                          && no_operator_key (snd kv))%bool) fields
  | JArr items => forallb no_operator_key items
  | _ => true
  end.

(** The characters [xssSanitize] replaces. *)
Definition markup (a : ascii) : bool :=
  existsb (Ascii.eqb a) ["<"; ">"; quot; apos; "/"]%char.

Definition no_markup (s : string) : bool :=
  forallb (fun a => negb (markup a)) (list_ascii_of_string s).

(** No string value, at any depth, holds one of them. *)
Fixpoint no_markup_value (v : Json) : bool :=
  match v with
  | JStr s => no_markup s
  | JObj fields => forallb (fun kv => no_markup_value (snd kv)) fields
  | JArr items => forallb no_markup_value items
  | _ => true
  end.

(** No object, at any depth, has a property [constructor] of its own. *)
Fixpoint no_constructor_key (v : Json) : bool :=
  match v with
  | JObj fields =>
      (constructor_is_Object fields
       && forallb (fun kv => no_constructor_key (snd kv)) fields)%bool
  | JArr items => forallb no_constructor_key items
  | _ => true
  end.

(** The character [c] is nowhere in [s]. *)
Definition free_of (c : ascii) (s : string) : bool :=
  forallb (fun a => negb (Ascii.eqb a c)) (list_ascii_of_string s).

(** ** [exports.updateUser]:
    [User.findByIdAndUpdate(req.params.id, req.body, { new: true, runValidators: true })] *)

(** [req.body], as far as it names these three paths; [lockUntil] may be
    [null]. *)
Record UserBody := {
  body_password : option string;
  body_loginAttempts : option Z;
  body_lockUntil : option (option Millis)
}.

(** The [$set] the query casts the body to. *)
Definition set_paths (body : UserBody) (d : User) : User :=
  let d1 :=
    match body_password body with
    | Some p => set_password p d
    | None => d
    end in
  let d2 :=
    match body_loginAttempts body with
    | Some n => set_loginAttempts n d1
    | None => d1
    end in
  match body_lockUntil body with
  | Some l => set_lockUntil l d2
  | None => d2
  end.

(** [res.status(s).json({ success: true, data: user })], the document being
    serialised without its password, or [next(new ErrorResponse(...))]. *)
Inductive UserAnswer :=
| user_json (statusCode : Z) (data : User)
| user_next_error (message : string) (statusCode : Z).

(** The update validators run on the paths of the body, then the query
    writes them; no [save] hook runs. *)
Definition updateUser (param_id : nat) (body : UserBody) : M UserAnswer :=
  if match body_password body with
     | Some p => negb (password_ok validators p)
     | None => false
     end
  then throw ValidationError
  else
    modify_users (on_id param_id (set_paths body)) ;;
    found <- findById param_id ;;
    match found with
    | None =>
        ret (user_next_error
               ("User not found with id of "
                ++ NilEmpty.string_of_uint (Nat.to_uint param_id))%string 404)
    | Some user => ret (user_json 200 user)
    end.

(** ** Sample data for the login route, the comment routes and the middleware *)

(** A body whose object has a property [constructor] of its own. *)
Definition sample_marked_body : Json :=
  JObj [("constructor", JNull); ("bio", JStr "<script>")].

(** A body without one. *)
Definition sample_body : Json :=
  JObj [("$where", JStr "1"); ("bio", JStr "<script>");
        ("tags", JArr [JStr "a/b"; JObj [("a.b", JNum 1)]])].


(** A login request with a wrong password that reaches the limiter at [t]. *)
Definition wrong_login_at (t : Millis) : LoginCall :=
  {| at_limiter := t; call_errors_isEmpty := true; call_username := "alice";
     call_password := Js.Str "letmein"; call_random := "r";
     call_salt := sample_salt; call_now := t + 10; call_later := t + 20;
     call_session := t + 20; call_save := t + 30 |}.

(** A post with a comment of user 7, a reply of user 8 to it, a reply of user
    9 to the reply, and a like of user 8 on the comment. *)
Definition sample_forum_start : Forum :=
  {| post_ids := [1%nat]; comments := []; post_calls := [] |}.

Definition sample_comment_requests : list CommentRequest :=
  [ POST_comment true "first" None 1 7 10;
    POST_comment true "reply" (Some 10%nat) 1 8 11;
    POST_comment true "deep" (Some 11%nat) 1 9 12;
    POST_like 10 8 500 ].

Definition sample_forum : Forum :=
  serve_all sample_comment_requests sample_forum_start.

(** The three comments of [sample_forum]. *)
Definition sample_comment : Comment :=
  {| comment_id := 10; content := "first"; author := 7; post := 1;
     parentComment := None;
     likes := [{| like_user := 8; like_createdAt := 500 |}];
     likeCount := 1; replyCount := 1; isEdited := false; editedAt := None |}.

Definition sample_reply : Comment :=
  {| comment_id := 11; content := "reply"; author := 8; post := 1;
     parentComment := Some 10%nat; likes := []; likeCount := 0;
     replyCount := 1; isEdited := false; editedAt := None |}.

Definition sample_deep : Comment :=
  {| comment_id := 12; content := "deep"; author := 9; post := 1;
     parentComment := Some 11%nat; likes := []; likeCount := 0;
     replyCount := 0; isEdited := false; editedAt := None |}.

(** * Properties *)

(** ** Generic facts about the store *)

Lemma find_map_stable {A} (p : A -> bool) (g : A -> A) (l : list A) :
  (forall x, p (g x) = p x) ->
  find p (map g l) = option_map g (find p l).
Proof.
  intros Hp. induction l as [|x l IH]; simpl; [reflexivity|].
  rewrite Hp. destruct (p x); [reflexivity | exact IH].
Qed.

Lemma find_on_id (p : User -> bool) (i : nat) (f : User -> User) (db : Db) :
  (forall x, p (f x) = p x) ->
  find p (on_id i f db)
  = option_map (fun d => if Nat.eqb (_id d) i then f d else d) (find p db).
Proof.
  intros Hp. unfold on_id. apply find_map_stable.
  intros x. destruct (Nat.eqb (_id x) i); [apply Hp | reflexivity].
Qed.

Lemma find_on_id_hit (p : User -> bool) (u : User) (f : User -> User) (db : Db) :
  (forall x, p (f x) = p x) ->
  find p db = Some u ->
  find p (on_id (_id u) f db) = Some (f u).
Proof.
  intros Hp Hu. rewrite find_on_id by exact Hp. rewrite Hu. simpl.
  now rewrite Nat.eqb_refl.
Qed.

Lemma find_none_on_id (p : User -> bool) (i : nat) (f : User -> User) (db : Db) :
  (forall d, In d db -> Nat.eqb (_id d) i = true -> p (f d) = false) ->
  (forall d, In d db -> Nat.eqb (_id d) i = false -> p d = false) ->
  find p (on_id i f db) = None.
Proof.
  intros Hin Hout. unfold on_id.
  induction db as [|d db IH]; simpl; [reflexivity|].
  destruct (Nat.eqb (_id d) i) eqn:E.
  - rewrite (Hin d (or_introl eq_refl) E).
    apply IH; intros; [apply Hin | apply Hout]; simpl; auto.
  - rewrite (Hout d (or_introl eq_refl) E).
    apply IH; intros; [apply Hin | apply Hout]; simpl; auto.
Qed.

Lemma apply_op_keeps (d : User) (o : UpdateOp) :
  _id (apply_op d o) = _id d /\ username (apply_op d o) = username d
  /\ email (apply_op d o) = email d /\ password (apply_op d o) = password d
  /\ refreshTokens (apply_op d o) = refreshTokens d
  /\ status (apply_op d o) = status d.
Proof. destruct o; simpl; repeat split. Qed.

Lemma update_keeps (ops : list UpdateOp) (d : User) :
  _id (fold_left apply_op ops d) = _id d
  /\ username (fold_left apply_op ops d) = username d
  /\ email (fold_left apply_op ops d) = email d
  /\ password (fold_left apply_op ops d) = password d
  /\ refreshTokens (fold_left apply_op ops d) = refreshTokens d
  /\ status (fold_left apply_op ops d) = status d.
Proof.
  revert d. induction ops as [|o ops IH]; intros d; simpl.
  - repeat split.
  - destruct (IH (apply_op d o)) as (A & B & C & D & E & F).
    destruct (apply_op_keeps d o) as (A' & B' & C' & D' & E' & F').
    repeat split; congruence.
Qed.

Lemma by_identifier_update (identifier : string) (ops : list UpdateOp) (d : User) :
  by_identifier identifier (fold_left apply_op ops d) = by_identifier identifier d.
Proof.
  unfold by_identifier.
  destruct (update_keeps ops d) as (_ & B & C & _). now rewrite B, C.
Qed.

(** ** The setters of the schema *)

Lemma list_ascii_of_string_app (s1 s2 : string) :
  list_ascii_of_string (s1 ++ s2)
  = (list_ascii_of_string s1 ++ list_ascii_of_string s2)%list.
Proof. induction s1 as [|c s1 IH]; simpl; [reflexivity | now rewrite IH]. Qed.

Lemma string_of_list_ascii_app (l1 l2 : list ascii) :
  string_of_list_ascii (l1 ++ l2)
  = (string_of_list_ascii l1 ++ string_of_list_ascii l2)%string.
Proof. induction l1 as [|c l1 IH]; simpl; [reflexivity | now rewrite IH]. Qed.

Lemma reverse_involutive (s : string) : reverse (reverse s) = s.
Proof.
  unfold reverse.
  rewrite list_ascii_of_string_of_list_ascii, rev_involutive.
  apply string_of_list_ascii_of_string.
Qed.

Lemma reverse_app (p q : string) :
  reverse (p ++ q) = (reverse q ++ reverse p)%string.
Proof.
  unfold reverse.
  now rewrite list_ascii_of_string_app, rev_app_distr, string_of_list_ascii_app.
Qed.

Lemma trimStart_clean (s : string) :
  match trimStart s with
  | String c _ => is_space c = false
  | EmptyString => True
  end.
Proof.
  induction s as [|c r IH]; simpl; [exact I|].
  destruct (is_space c) eqn:E; [exact IH | exact E].
Qed.

Lemma trimStart_id (s : string) :
  match s with
  | String c _ => is_space c = false
  | EmptyString => True
  end ->
  trimStart s = s.
Proof. destruct s; simpl; [reflexivity|]. now intros ->. Qed.

Lemma trimStart_suffix (s : string) :
  exists p, s = (p ++ trimStart s)%string.
Proof.
  induction s as [|c r [p IH]]; simpl.
  - now exists ""%string.
  - destruct (is_space c).
    + exists (String c p). simpl. now rewrite <- IH.
    + now exists ""%string.
Qed.

(** [trim] leaves a trimmed string as it is. *)
Lemma trim_trim (s : string) : trim (trim s) = trim s.
Proof.
  unfold trim.
  set (a := trimStart s).
  set (b := trimStart (reverse a)).
  assert (Ca := trimStart_clean s). fold a in Ca.
  assert (Cb := trimStart_clean (reverse a)). fold b in Cb.
  destruct (trimStart_suffix (reverse a)) as [p Hp]. fold b in Hp.
  assert (Ha : a = (reverse b ++ reverse p)%string).
  { rewrite <- reverse_app, <- Hp. symmetry. apply reverse_involutive. }
  assert (Cr : match reverse b with
               | String c _ => is_space c = false
               | EmptyString => True
               end).
  { destruct (reverse b) as [|c r]; [exact I|].
    rewrite Ha in Ca. exact Ca. }
  rewrite (trimStart_id (reverse b) Cr), reverse_involutive.
  now rewrite (trimStart_id b Cb).
Qed.

(** ** The lockout policy *)

(** On a document loaded whole, the methods of [Loaded] are the methods of
    the model. *)
Lemma whole_isLocked (u : User) (now : Millis) :
  Loaded.isLocked (whole u) now = isLocked u now.
Proof. reflexivity. Qed.

Lemma whole_matchPassword (u : User) (pw : Js.value) :
  Loaded.matchPassword crypt (whole u) pw = matchPassword u pw.
Proof. reflexivity. Qed.

Lemma whole_getSignedJwtToken (u : User) (now : Millis) :
  Loaded.getSignedJwtToken env (whole u) now = getSignedJwtToken u now.
Proof. reflexivity. Qed.

Lemma whole_generateRefreshToken (u : User) (random : string) (now : Millis)
    (w : World) :
  Loaded.generateRefreshToken (whole u) random now w
  = (Normal (whole (fst (generateRefreshToken u random now)),
             snd (generateRefreshToken u random now)), w).
Proof. reflexivity. Qed.

(** The document a login loads carries no [lockUntil]: it never reads as
    locked. *)
Lemma select_login_not_locked (u : User) (now : Millis) :
  Loaded.isLocked (select_login u) now = false.
Proof. reflexivity. Qed.

Lemma incLoginAttempts_update (u : User) (t : Millis) :
  Loaded.incLoginAttempts env (select_login u) t
  = Loaded.updateOne (select_login u) (attempt_update u t).
Proof.
  unfold Loaded.incLoginAttempts, attempt_update, lock_from.
  cbn [Loaded.lockUntil Loaded.loginAttempts select_login].
  destruct (loginAttempts u + 1 >=? MAX_LOGIN_ATTEMPTS env); reflexivity.
Qed.

Lemma matchPassword_run (u : User) (pw : Js.value) (w : World) :
  exists v, matchPassword u pw w = (Normal v, compared w u pw)
            /\ Js.truthy v = verifies u pw
            /\ (v = Js.Undefined \/ exists b, v = Js.Bool b).
Proof.
  unfold matchPassword, try_catch, bind, call, verifies, compared; simpl.
  destruct (Bcrypt.compare crypt pw (Js.Str (password u))) as [b|e]; simpl.
  - exists (Js.Bool b). repeat split. right. now exists b.
  - exists Js.Undefined. repeat split. now left.
Qed.

Lemma matchPassword_loaded_run (u : User) (pw : Js.value) (w : World) :
  exists v, Loaded.matchPassword crypt (select_login u) pw w
            = (Normal v, compared w u pw)
            /\ Js.truthy v = verifies u pw.
Proof.
  destruct (matchPassword_run u pw w) as (v & E & T & _).
  exists v. split; [exact E | exact T].
Qed.

(** [getAuthenticatedUser], branch by branch. *)
Lemma auth_not_found (identifier : string) (pw : Js.value) (now later : Millis)
    (w : World) :
  account w identifier = None ->
  getAuthenticatedUser identifier pw now later w
  = (Normal {| user := None; reason := Some USER_NOT_FOUND |}, w).
Proof.
  intros H. unfold getAuthenticatedUser, bind, findOne.
  unfold account, by_identifier in H. now rewrite H.
Qed.

Lemma auth_invalid (identifier : string) (pw : Js.value) (now later : Millis)
    (w : World) (u : User) :
  account w identifier = Some u ->
  verifies u pw = false ->
  getAuthenticatedUser identifier pw now later w
  = (Normal {| user := None; reason := Some INVALID_PASSWORD |},
     updated (compared w u pw) u (attempt_update u later)).
Proof.
  intros H V. unfold getAuthenticatedUser, bind, findOne.
  unfold account, by_identifier in H. rewrite H. cbv zeta.
  rewrite select_login_not_locked.
  destruct (matchPassword_loaded_run u pw w) as (v & -> & T).
  rewrite T, V. now rewrite incLoginAttempts_update.
Qed.

Lemma auth_success (identifier : string) (pw : Js.value) (now later : Millis)
    (w : World) (u : User) :
  account w identifier = Some u ->
  verifies u pw = true ->
  getAuthenticatedUser identifier pw now later w
  = (Normal {| user := Some (select_login u); reason := None |},
     if loginAttempts u >? 0
     then updated (compared w u pw) u [unset_loginAttempts; unset_lockUntil]
     else compared w u pw).
Proof.
  intros H V. unfold getAuthenticatedUser, bind, findOne.
  unfold account, by_identifier in H. rewrite H. cbv zeta.
  rewrite select_login_not_locked.
  destruct (matchPassword_loaded_run u pw w) as (v & -> & T).
  rewrite T, V. cbn [Loaded.loginAttempts select_login].
  destruct (loginAttempts u >? 0); reflexivity.
Qed.

Lemma account_updated (identifier : string) (w : World) (u : User)
    (ops : list UpdateOp) :
  account w identifier = Some u ->
  account (updated w u ops) identifier = Some (fold_left apply_op ops u).
Proof.
  intros H. unfold account, updated; simpl.
  apply (find_on_id_hit (by_identifier identifier) u
           (fun d => fold_left apply_op ops d)); [|exact H].
  intros x. apply by_identifier_update.
Qed.

(** The answer of [getAuthenticatedUser] in every case: the reason
    ACCOUNT_LOCKED is not among them. *)
Lemma auth_answer (identifier : string) (pw : Js.value) (now later : Millis)
    (w : World) :
  fst (getAuthenticatedUser identifier pw now later w)
  = Normal
      match account w identifier with
      | None => {| user := None; reason := Some USER_NOT_FOUND |}
      | Some u =>
          if verifies u pw
          then {| user := Some (select_login u); reason := None |}
          else {| user := None; reason := Some INVALID_PASSWORD |}
      end.
Proof.
  destruct (account w identifier) as [u|] eqn:A.
  - destruct (verifies u pw) eqn:V.
    + now rewrite (auth_success identifier pw now later w u A V).
    + now rewrite (auth_invalid identifier pw now later w u A V).
  - now rewrite (auth_not_found identifier pw now later w A).
Qed.

(** C2, on the code.  An attempt on an account that is locked at the instant
    of the check is not rejected before the password comparison: the
    document the lookup loads has no [lockUntil], the comparison is called,
    and the attempt is answered by its outcome, INVALID_PASSWORD or success,
    never ACCOUNT_LOCKED. *)
Theorem locked_account_is_compared (identifier : string) (pw : Js.value)
    (now later : Millis) (w : World) (u : User) (l : Millis) :
  account w identifier = Some u ->
  lockUntil u = Some l ->
  now < l ->
  let run := getAuthenticatedUser identifier pw now later w in
  isLocked u now = true
  /\ calls (snd run) = calls w ++ [bcrypt_compare pw (Js.Str (password u))]
  /\ fst run
     = Normal (if verifies u pw
               then {| user := Some (select_login u); reason := None |}
               else {| user := None; reason := Some INVALID_PASSWORD |})
  /\ fst run <> Normal {| user := None; reason := Some ACCOUNT_LOCKED |}.
Proof.
  intros A L Lt. cbv zeta.
  split; [unfold isLocked; rewrite L; apply Z.gtb_lt; lia|].
  rewrite auth_answer, A.
  split.
  - destruct (verifies u pw) eqn:V.
    + rewrite (auth_success identifier pw now later w u A V). cbn [snd].
      now destruct (loginAttempts u >? 0).
    + now rewrite (auth_invalid identifier pw now later w u A V).
  - split; [reflexivity|]. destruct (verifies u pw); discriminate.
Qed.

Lemma verifies_same_password (u u' : User) (pw : Js.value) :
  password u' = password u -> verifies u' pw = verifies u pw.
Proof. intros H. unfold verifies. now rewrite H. Qed.

(** Failures that stay below the maximum only count. *)
Lemma failures_below_max (identifier : string) (tries : list Attempt) :
  forall (w : World) (u : User),
    account w identifier = Some u ->
    loginAttempts u + Z.of_nat (List.length tries) < MAX_LOGIN_ATTEMPTS env ->
    (forall a, In a tries -> verifies u (entered a) = false) ->
    exists u', account (attempts w identifier tries) identifier = Some u'
               /\ lockUntil u' = lockUntil u
               /\ loginAttempts u' = loginAttempts u + Z.of_nat (List.length tries)
               /\ password u' = password u.
Proof.
  induction tries as [|a tries IH]; intros w u A B V.
  - exists u. simpl. repeat split; auto; lia.
  - cbn [attempts].
    rewrite (auth_invalid identifier (entered a) (at_check a) (at_update a)
               w u A (V a (or_introl eq_refl))).
    cbn [snd].
    assert (U : attempt_update u (at_update a) = [inc_loginAttempts 1]).
    { unfold attempt_update.
      replace (loginAttempts u + 1 >=? MAX_LOGIN_ATTEMPTS env) with false;
        [reflexivity|].
      symmetry. rewrite Z.geb_leb. apply Z.leb_gt.
      cbn [List.length] in B. lia. }
    rewrite U.
    pose proof (account_updated identifier (compared w u (entered a)) u
                  [inc_loginAttempts 1] A) as A1.
    cbn [fold_left apply_op] in A1.
    destruct (IH _ _ A1) as (u' & A' & L' & C' & P').
    + cbn [loginAttempts set_loginAttempts]. cbn [List.length] in B. lia.
    + intros b Hb. rewrite <- (V b (or_intror Hb)).
      apply verifies_same_password. reflexivity.
    + exists u'. repeat split; auto.
      rewrite C'. cbn [loginAttempts set_loginAttempts List.length]. lia.
Qed.

Lemma attempts_app (identifier : string) (l1 l2 : list Attempt) (w : World) :
  attempts w identifier (l1 ++ l2)
  = attempts (attempts w identifier l1) identifier l2.
Proof.
  revert w. induction l1 as [|a l1 IH]; intros w; simpl; [reflexivity|].
  apply IH.
Qed.

(** The store after [MAX_LOGIN_ATTEMPTS] failures in a row on an account
    that had none. *)
Lemma failures_reach_max (identifier : string) (w : World) (u : User)
    (tries : list Attempt) (last : Attempt) :
  account w identifier = Some u ->
  loginAttempts u = 0 ->
  Z.of_nat (List.length tries) + 1 = MAX_LOGIN_ATTEMPTS env ->
  (forall a, In a (tries ++ [last]) -> verifies u (entered a) = false) ->
  exists u',
    account (attempts w identifier (tries ++ [last])) identifier = Some u'
    /\ loginAttempts u' = MAX_LOGIN_ATTEMPTS env
    /\ lockUntil u' = Some (lock_from (at_update last))
    /\ password u' = password u.
Proof.
  intros A C M V.
  destruct (failures_below_max identifier tries w u A)
    as (u1 & A1 & L1 & C1 & P1).
  - lia.
  - intros a Ha. apply V. apply in_or_app. now left.
  - rewrite attempts_app. cbn [attempts].
    set (w1 := attempts w identifier tries) in *.
    assert (Vl : verifies u1 (entered last) = false).
    { rewrite (verifies_same_password u u1 _ P1).
      apply V. apply in_or_app. right. now left. }
    rewrite (auth_invalid identifier (entered last) (at_check last)
               (at_update last) w1 u1 A1 Vl).
    cbn [snd].
    assert (U : attempt_update u1 (at_update last)
                = [inc_loginAttempts 1;
                   set_lockUntil_to (lock_from (at_update last))]).
    { unfold attempt_update.
      replace (loginAttempts u1 + 1 >=? MAX_LOGIN_ATTEMPTS env) with true;
        [reflexivity|].
      symmetry. rewrite Z.geb_leb. apply Z.leb_le. lia. }
    rewrite U.
    pose proof (account_updated identifier (compared w1 u1 (entered last)) u1
                  [inc_loginAttempts 1;
                   set_lockUntil_to (lock_from (at_update last))] A1) as A2.
    cbn [fold_left apply_op] in A2.
    eexists. split; [exact A2|].
    split; [cbn; lia|]. split; [reflexivity|]. exact P1.
Qed.

(** ** Login, refresh and the single-use tokens *)


Lemma write_path_keeps (this d : User) (p : Path) :
  _id (write_path this d p) = _id d
  /\ username (write_path this d p) = username d
  /\ email (write_path this d p) = email d
  /\ loginAttempts (write_path this d p) = loginAttempts d
  /\ lockUntil (write_path this d p) = lockUntil d.
Proof. destruct p; simpl; repeat split. Qed.

Lemma written_keeps (this : User) (paths : list Path) (d : User) :
  _id (fold_left (write_path this) paths d) = _id d
  /\ username (fold_left (write_path this) paths d) = username d
  /\ email (fold_left (write_path this) paths d) = email d
  /\ loginAttempts (fold_left (write_path this) paths d) = loginAttempts d
  /\ lockUntil (fold_left (write_path this) paths d) = lockUntil d.
Proof.
  revert d. induction paths as [|p paths IH]; intros d; simpl.
  - repeat split.
  - destruct (IH (write_path this d p)) as (A & B & C & D & E).
    destruct (write_path_keeps this d p) as (A' & B' & C' & D' & E').
    repeat split; congruence.
Qed.

(** The world after [save] wrote [paths] of [this]. *)
Lemma save_plain (this : User) (modified : list Path) (salt : string)
    (t : Millis) (w : World) :
  isModified password_path modified = false ->
  save this modified false salt t w
  = (Normal (fst (if isModified lastLogin_path modified
                  then (set_status (set_lastSeen t (status this)) this,
                        lastSeen_path :: modified)
                  else (this, modified))),
     {| users :=
          on_id (_id this)
            (fun d =>
               fold_left
                 (write_path
                    (fst (if isModified lastLogin_path modified
                          then (set_status (set_lastSeen t (status this)) this,
                                lastSeen_path :: modified)
                          else (this, modified))))
                 (snd (if isModified lastLogin_path modified
                       then (set_status (set_lastSeen t (status this)) this,
                             lastSeen_path :: modified)
                       else (this, modified))) d)
            (users w);
        calls := calls w |}).
Proof.
  intros H. unfold save. cbn [andb]. rewrite H.
  unfold bind, ret, modify_users. reflexivity.
Qed.

Lemma on_id_twice (i : nat) (f g : User -> User) (db : Db) :
  (forall d, _id (g d) = _id d) ->
  on_id i f (on_id i g db) = on_id i (fun d => f (g d)) db.
Proof.
  intros G. unfold on_id. rewrite map_map. apply map_ext. intros d.
  destruct (Nat.eqb (_id d) i) eqn:E.
  - now rewrite G, E.
  - now rewrite E.
Qed.

(** A login with the password of the account: the answer and the store.
    The array of refresh tokens was not loaded, so [cleanExpiredTokens]
    starts an empty one and [save] writes the array of the one new record
    over the stored one. *)
Lemma login_run (identifier : string) (pw : Js.value)
    (random salt : string) (now later t_session t_save : Millis)
    (w : World) (u : User) :
  account w identifier = Some u ->
  verifies u pw = true ->
  exists saved,
    login true identifier pw random salt now later t_session t_save w
    = (Normal (json 200 "Login successful"
                 (session saved
                    (Loaded.getSignedJwtToken env (select_login u) t_session)
                    random)),
       {| users := on_id (_id u) (after_login u random t_session t_save) (users w);
          calls := calls w ++ [bcrypt_compare pw (Js.Str (password u))] |}).
Proof.
  intros A V. unfold login. cbn [negb]. unfold bind at 1.
  rewrite (auth_success identifier pw now later w u A V).
  cbn [user reason fst snd]. cbv zeta.
  unfold Loaded.cleanExpiredTokens, Loaded.generateRefreshToken.
  cbn [Loaded.refreshTokens Loaded.set_refreshTokens Loaded.set_lastSeen
       Loaded.set_lastLogin select_login].
  unfold bind, ret, Loaded.save, modify_users, bind, ret.
  cbn [andb isModified existsb Path_eqb orb fst snd Loaded._id app].
  eexists. f_equal. unfold after_login.
  destruct (loginAttempts u >? 0).
  - cbn [updated compared users calls].
    rewrite on_id_twice by (intros d; apply update_keeps).
    f_equal.
  - cbn [compared users calls]. f_equal.
Qed.

Lemma after_login_keeps (u : User) (random : string) (t_session t_save : Millis)
    (d : User) :
  _id (after_login u random t_session t_save d) = _id d
  /\ username (after_login u random t_session t_save d) = username d
  /\ email (after_login u random t_session t_save d) = email d
  /\ password (after_login u random t_session t_save d) = password d
  /\ isActive (status (after_login u random t_session t_save d))
     = isActive (status d).
Proof.
  unfold after_login. destruct (loginAttempts u >? 0); cbn; repeat split.
Qed.

Lemma login_account (identifier : string) (pw : Js.value)
    (random salt : string) (now later t_session t_save : Millis)
    (w : World) (u : User) :
  account w identifier = Some u ->
  verifies u pw = true ->
  account (snd (login true identifier pw random salt now later
                  t_session t_save w)) identifier
  = Some (after_login u random t_session t_save u).
Proof.
  intros A V.
  destruct (login_run identifier pw random salt now later t_session t_save
              w u A V) as (saved & ->).
  unfold account. cbn [snd users].
  apply (find_on_id_hit (by_identifier identifier) u
           (after_login u random t_session t_save)); [|exact A].
  intros x. unfold by_identifier.
  destruct (after_login_keeps u random t_session t_save x) as (_ & -> & -> & _).
  reflexivity.
Qed.

(** C6. A login whose password verifies on an account that is not locked
    succeeds; the stored last-login timestamp becomes the instant of the
    login; if the failed-attempt counter was above zero, the counter and the
    lock expiry are both cleared.  So once [lockUntil] has passed, the right
    password logs in and the counter is left at zero. *)
Theorem successful_login_resets (identifier : string) (pw : Js.value)
    (random salt : string) (now later t_session t_save : Millis)
    (w : World) (u : User) :
  account w identifier = Some u ->
  isLocked u now = false ->
  verifies u pw = true ->
  0 <= loginAttempts u ->
  let run := login true identifier pw random salt now later t_session t_save w in
  (exists saved access,
     fst run = Normal (json 200 "Login successful" (session saved access random)))
  /\ exists u',
       account (snd run) identifier = Some u'
       /\ lastLogin (status u') = Some t_session
       /\ loginAttempts u' = 0
       /\ (loginAttempts u > 0 -> lockUntil u' = None).
Proof.
  intros A L V C. cbv zeta. split.
  - destruct (login_run identifier pw random salt now later t_session t_save
                w u A V) as (saved & ->).
    do 2 eexists. reflexivity.
  - exists (after_login u random t_session t_save u).
    split; [now apply login_account|].
    unfold after_login. destruct (loginAttempts u >? 0) eqn:G.
    + cbn. repeat split.
    + cbn. rewrite Z.gtb_ltb in G. apply Z.ltb_ge in G.
      repeat split; try lia.
Qed.

(** ** The password hasher boundary *)

(** C8, as the code has it. [matchPassword] never throws: it completes
    normally in every world, for every entered value and every stored digest.
    When the comparison resolves it returns that boolean ([false] on a
    mismatch); when the comparison itself fails it returns [undefined], which
    is not the boolean [false] but is falsy, so no entered value is accepted
    without a comparison that resolved to [true]. *)
Theorem matchPassword_never_throws (this : User) (enteredPassword : Js.value)
    (w : World) :
  exists v,
    fst (matchPassword this enteredPassword w) = Normal v
    /\ match Bcrypt.compare crypt enteredPassword (Js.Str (password this)) with
       | Bcrypt.Resolved b => v = Js.Bool b
       | Bcrypt.Rejected _ => v = Js.Undefined
       end
    /\ Js.truthy v = verifies this enteredPassword.
Proof.
  unfold matchPassword, try_catch, bind, call, verifies; simpl.
  destruct (Bcrypt.compare crypt enteredPassword (Js.Str (password this)));
    simpl; eexists; repeat split.
Qed.

(** ** Access tokens *)

(** C7, as the code has it. An access token carries the account id, email,
    username and role, is signed under [JWT_SECRET] and carries the configured
    issuer and audience.  [protect] checks the signature against [JWT_SECRET]
    and the expiry; it does not look at the issuer or the audience of the
    token.  It answers with three different errors for an expired token, for
    a token that is malformed or signed under another key, and for a valid
    token whose subject is not in the store. *)
Theorem access_token_verification :
  (forall (this : User) (now : Millis),
     getSignedJwtToken this now
     = Jwt.Signed (JWT_SECRET env)
         {| Jwt.id := _id this; Jwt.email := Some (email this);
            Jwt.username := Some (username this);
            Jwt.role := Some (role this);
            Jwt.iat := now / 1000; Jwt.exp := now / 1000 + JWT_EXPIRE env;
            Jwt.iss := Some (JWT_ISSUER env);
            Jwt.aud := Some (JWT_AUDIENCE env) |})
  /\ (forall (req : Credentials) (now : Millis) (w : World),
        fst (protect req now w)
        = Normal
            match presented req with
            | None | Some Jwt.Empty =>
                next_error "Access denied. No token provided" 401
            | Some (Jwt.Garbage _) => invalid_token_response
            | Some (Jwt.Signed key c) =>
                if negb (key =? JWT_SECRET env)%string then invalid_token_response
                else if now / 1000 >=? Jwt.exp c then token_expired_response
                else match stored w (Jwt.id c) with
                     | None => unknown_subject_response
                     | Some this =>
                         if negb (isActive (status this))
                         then next_error "User account is deacrivated" 401
                         else next_with this
                     end
            end)
  /\ token_expired_response <> invalid_token_response
  /\ token_expired_response <> unknown_subject_response
  /\ invalid_token_response <> unknown_subject_response.
Proof.
  split; [reflexivity|]. split.
  - intros req now w. unfold protect, presented.
    destruct (bearer req) as [t|]; [|destruct (cookie_accessToken req) as [t|]];
      try reflexivity;
      (destruct t as [|raw|key c]; try reflexivity);
    unfold Jwt.verify;
    (destruct (negb (key =? JWT_SECRET env)%string); [reflexivity|]);
    (destruct (now / 1000 >=? Jwt.exp c); [reflexivity|]);
    cbn [Jwt.no_options Jwt.audience Jwt.issuer Jwt.claim_matches negb];
    unfold bind, findById, findOne, stored, ret;
    (destruct (find (fun u => Nat.eqb (_id u) (Jwt.id c)) (users w)) as [u|];
      [|reflexivity]);
    destruct (negb (isActive (status u))); reflexivity.
  - repeat split; discriminate.
Qed.


(** ** Generic facts about [find] *)


Lemma existsb_filter_out (t : string) (l : list RefreshTokenRecord) :
  existsb (fun r => (token r =? t)%string)
    (filter (fun r => negb (token r =? t)%string) l) = false.
Proof.
  induction l as [|r l IH]; simpl; [reflexivity|].
  destruct (token r =? t)%string eqn:E; simpl; [exact IH|].
  now rewrite E.
Qed.

(** ** Refresh-token rotation *)

Lemma refreshToken_found (supplied newRandom salt : string)
    (now t_rotate : Millis) (w : World) (u : User) :
  supplied <> "" ->
  find (refresh_filter supplied now) (users w) = Some u ->
  refreshToken (Some supplied) newRandom salt now t_rotate w
  = (Normal (json 200 "" (token_pair (getSignedJwtToken u t_rotate) newRandom)),
     {| users :=
          on_id (_id u)
            (fun d =>
               fold_left
                 (write_path
                    (fst (generateRefreshToken (removeRefreshToken u supplied)
                            newRandom t_rotate)))
                 [refreshTokens_path] d)
            (users w);
        calls := calls w |}).
Proof.
  intros N F. unfold refreshToken.
  destruct supplied as [|c rest]; [congruence|].
  unfold bind at 1. unfold findOne. rewrite F. cbv zeta.
  unfold bind. rewrite save_plain by reflexivity. reflexivity.
Qed.

Lemma refreshToken_not_found (supplied newRandom salt : string)
    (now t_rotate : Millis) (w : World) :
  find (refresh_filter supplied now) (users w) = None ->
  refreshToken (Some supplied) newRandom salt now t_rotate w
  = (Normal
       (next_error
          (if (supplied =? "")%string then "Refresh token required"
           else "Invalid or expired refresh token") 401), w).
Proof.
  intros F. unfold refreshToken.
  destruct supplied as [|c rest]; [reflexivity|].
  unfold bind, findOne. now rewrite F.
Qed.


(** ** Verification and reset tokens *)

Lemma opt_string_eqb_some (a : option string) (d : string) :
  opt_string_eqb a (Some d) = true <-> a = Some d.
Proof.
  destruct a as [x|]; simpl; split; intros H; try discriminate.
  - apply String.eqb_eq in H. now subst.
  - injection H as ->. apply String.eqb_refl.
Qed.

Lemma gt_now_spec (field : option Millis) (now : Millis) :
  gt_now field now = true <-> exists e, field = Some e /\ e > now.
Proof.
  destruct field as [e|]; simpl; split.
  - intros H. exists e. split; [reflexivity|]. apply Z.gtb_lt in H. lia.
  - intros (e' & H & G). injection H as ->. apply Z.gtb_lt. lia.
  - discriminate.
  - intros (e' & H & _). discriminate.
Qed.

Lemma verification_filter_spec (digest : string) (now : Millis) (u : User) :
  verification_filter digest now u = true
  <-> emailVerificationToken u = Some digest
      /\ exists e, emailVerificationExpire u = Some e /\ e > now.
Proof.
  unfold verification_filter. rewrite andb_true_iff.
  now rewrite opt_string_eqb_some, gt_now_spec.
Qed.

Lemma reset_filter_spec (digest : string) (now : Millis) (u : User) :
  reset_filter digest now u = true
  <-> resetPasswordToken u = Some digest
      /\ exists e, resetPasswordExpire u = Some e /\ e > now.
Proof.
  unfold reset_filter. rewrite andb_true_iff.
  now rewrite opt_string_eqb_some, gt_now_spec.
Qed.

(** The document [verifyEmail] saves. *)
Lemma verifyEmail_found (param_token salt : string) (now : Millis)
    (w : World) (u : User) :
  find (verification_filter (sha256 param_token) now) (users w) = Some u ->
  verifyEmail param_token salt now w
  = (Normal (json 200 "Email verified successfully" no_data),
     {| users :=
          on_id (_id u)
            (fun d =>
               fold_left
                 (write_path
                    (set_emailVerificationExpire None
                       (set_emailVerificationToken None
                          (set_status (set_emailVerified true (status u)) u))))
                 [emailVerified_path; emailVerificationToken_path;
                  emailVerificationExpire_path] d)
            (users w);
        calls := calls w |}).
Proof.
  intros F. unfold verifyEmail. cbv zeta.
  unfold bind at 1. unfold findOne. rewrite F.
  unfold bind. rewrite save_plain by reflexivity. reflexivity.
Qed.

Lemma verifyEmail_not_found (param_token salt : string) (now : Millis)
    (w : World) :
  find (verification_filter (sha256 param_token) now) (users w) = None ->
  verifyEmail param_token salt now w
  = (Normal (next_error "Invalid or expired verification token" 400), w).
Proof.
  intros F. unfold verifyEmail. cbv zeta. unfold bind, findOne. now rewrite F.
Qed.

(** The document [resetPassword] saves when the new password passes the
    schema and hashes to [digest]. *)
Lemma resetPassword_found (resettoken body_password salt digest : string)
    (now t_save : Millis) (w : World) (u : User) :
  find (reset_filter (sha256 resettoken) now) (users w) = Some u ->
  password_ok validators body_password = true ->
  crypt body_password salt = Some digest ->
  resetPassword true resettoken body_password salt now t_save w
  = (Normal
       (json 200 "Password reset successful"
          (token_only
             (getSignedJwtToken
                (set_password digest
                   (set_refreshTokens []
                      (set_resetPasswordExpire None
                         (set_resetPasswordToken None
                            (set_password body_password u)))))
                t_save))),
     {| users :=
          on_id (_id u)
            (fun d =>
               fold_left
                 (write_path
                    (set_password digest
                       (set_refreshTokens []
                          (set_resetPasswordExpire None
                             (set_resetPasswordToken None
                                (set_password body_password u))))))
                 [password_path; resetPasswordToken_path;
                  resetPasswordExpire_path; refreshTokens_path] d)
            (users w);
        calls := calls w |}).
Proof.
  intros F P H. unfold resetPassword. cbn [negb]. cbv zeta.
  unfold bind at 1. unfold findOne. rewrite F.
  unfold bind, save. cbn [isModified existsb Path_eqb orb andb].
  cbn [password set_password set_refreshTokens set_resetPasswordExpire
       set_resetPasswordToken].
  rewrite P. cbn [negb]. unfold bind, Bcrypt.hash. rewrite H.
  reflexivity.
Qed.

(** A reset whose new password fails the schema throws and consumes nothing. *)
Lemma resetPassword_invalid_password (resettoken body_password salt : string)
    (now t_save : Millis) (w : World) (u : User) :
  find (reset_filter (sha256 resettoken) now) (users w) = Some u ->
  password_ok validators body_password = false ->
  resetPassword true resettoken body_password salt now t_save w
  = (Throw ValidationError, w).
Proof.
  intros F P. unfold resetPassword. cbn [negb]. cbv zeta.
  unfold bind at 1. unfold findOne. rewrite F.
  unfold bind, save. cbn [isModified existsb Path_eqb orb andb].
  cbn [password set_password set_refreshTokens set_resetPasswordExpire
       set_resetPasswordToken].
  rewrite P. reflexivity.
Qed.

Lemma resetPassword_not_found (resettoken body_password salt : string)
    (now t_save : Millis) (w : World) :
  find (reset_filter (sha256 resettoken) now) (users w) = None ->
  resetPassword true resettoken body_password salt now t_save w
  = (Normal (next_error "Invalid or expired token" 400), w).
Proof.
  intros F. unfold resetPassword. cbn [negb]. cbv zeta.
  unfold bind, findOne. now rewrite F.
Qed.

(** X7. A verification token is consumed once.  Consuming it succeeds
    exactly when some account stores the SHA-256 digest of the supplied
    cleartext with an expiry later than now.  On success the
    email-verified flag of the account is set and the stored digest and
    expiry are cleared, so that a second consumption with the same
    cleartext fails, the digest being held by that one account. *)
Theorem verification_token_single_use :
  (forall (cleartext salt : string) (now : Millis) (w : World),
     succeeded (fst (verifyEmail cleartext salt now w)) = true
     <-> exists u, In u (users w)
                   /\ emailVerificationToken u = Some (sha256 cleartext)
                   /\ exists e, emailVerificationExpire u = Some e /\ e > now)
  /\ (forall (cleartext salt : string) (now : Millis) (w : World) (u : User),
        find (verification_filter (sha256 cleartext) now) (users w) = Some u ->
        (forall d, In d (users w) ->
           emailVerificationToken d = Some (sha256 cleartext) -> _id d = _id u) ->
        let w' := snd (verifyEmail cleartext salt now w) in
        (exists u', In u' (users w') /\ _id u' = _id u
                    /\ emailVerified (status u') = true
                    /\ emailVerificationToken u' = None
                    /\ emailVerificationExpire u' = None)
        /\ forall (salt' : string) (now' : Millis),
             succeeded (fst (verifyEmail cleartext salt' now' w')) = false).
Proof.
  split.
  - (* success iff a live digest is stored *)
    intros cleartext salt now w.
    destruct (find (verification_filter (sha256 cleartext) now) (users w))
      as [u|] eqn:F.
    + rewrite (verifyEmail_found cleartext salt now w u F). simpl.
      split; [intros _|reflexivity].
      apply find_some in F. destruct F as [I P].
      apply verification_filter_spec in P. exists u. tauto.
    + rewrite (verifyEmail_not_found cleartext salt now w F). simpl.
      split; [discriminate|]. intros (u & I & T & E).
      pose proof (find_none _ _ F u I) as P.
      assert (Q : verification_filter (sha256 cleartext) now u = true)
        by (apply verification_filter_spec; tauto).
      congruence.
  - (* effect and single use *)
    intros cleartext salt now w u F U. cbv zeta.
    rewrite (verifyEmail_found cleartext salt now w u F). cbn [snd].
    split.
    + eexists. split.
      * cbn [users]. unfold on_id. apply in_map_iff. exists u.
        apply find_some in F. split; [|apply F].
        rewrite Nat.eqb_refl. reflexivity.
      * cbn. repeat split.
    + intros salt' now'. rewrite verifyEmail_not_found; [reflexivity|].
      cbn [users]. apply find_none_on_id.
      * intros d _ _. reflexivity.
      * intros d I X. unfold verification_filter.
        destruct (opt_string_eqb (emailVerificationToken d)
                    (Some (sha256 cleartext))) eqn:O; [|reflexivity].
        apply opt_string_eqb_some in O. rewrite (U d I O) in X.
        now rewrite Nat.eqb_refl in X.
Qed.

(** [resetPassword] behind a validation that passed: the token is consumed
    once. *)
Lemma resetPassword_consumes
    (cleartext body_password salt digest : string) (now t_save : Millis)
    (w : World) (u : User) :
  find (reset_filter (sha256 cleartext) now) (users w) = Some u ->
  (forall d, In d (users w) ->
     resetPasswordToken d = Some (sha256 cleartext) -> _id d = _id u) ->
  password_ok validators body_password = true ->
  crypt body_password salt = Some digest ->
  let w' := snd (resetPassword true cleartext body_password salt
                   now t_save w) in
  (exists u', In u' (users w') /\ _id u' = _id u
              /\ password u' = digest
              /\ refreshTokens u' = []
              /\ resetPasswordToken u' = None
              /\ resetPasswordExpire u' = None)
  /\ forall (errors_isEmpty' : bool) (body_password' salt' : string)
            (now' t_save' : Millis),
       succeeded (fst (resetPassword errors_isEmpty' cleartext
                         body_password' salt' now' t_save' w')) = false.
Proof.
  intros F U P H. cbv zeta.
  rewrite (resetPassword_found cleartext body_password salt digest
             now t_save w u F P H). cbn [snd].
  split.
  - eexists. split.
    + cbn [users]. unfold on_id. apply in_map_iff. exists u.
      apply find_some in F. split; [|apply F].
      rewrite Nat.eqb_refl. reflexivity.
    + cbn. repeat split.
  - intros [|] body_password' salt' now' t_save'; [|reflexivity].
    rewrite resetPassword_not_found; [reflexivity|].
    cbn [users]. apply find_none_on_id.
    + intros d _ _. reflexivity.
    + intros d I X. unfold reset_filter.
      destruct (opt_string_eqb (resetPasswordToken d)
                  (Some (sha256 cleartext))) eqn:O; [|reflexivity].
      apply opt_string_eqb_some in O. rewrite (U d I O) in X.
      now rewrite Nat.eqb_refl in X.
Qed.

(** C5, on the code.  A reset token is never consumed.  The handler would
    consume it: on a store that holds the digest of the cleartext with an
    expiry later than now, [resetPassword] behind a validation that passed
    answers 200.  But its one route,
    [router.put('/reset-password/:resettoken', validateToken, ..)], binds
    [resettoken] while [validateToken] validates the parameter [token]: the
    validation never passes, the request is answered 400 "Validation error"
    whatever the token and the new password, and the store keeps the digest
    and its expiry. *)
Theorem reset_token_is_never_consumed
    (cleartext body_password salt digest : string) (now t_save : Millis)
    (w : World) (u : User) :
  find (reset_filter (sha256 cleartext) now) (users w) = Some u ->
  password_ok validators body_password = true ->
  crypt body_password salt = Some digest ->
  succeeded (fst (resetPassword true cleartext body_password salt
                    now t_save w)) = true
  /\ forall body_valid : bool,
       let run := reset_password_route cleartext body_valid body_password
                    salt now t_save w in
       fst run = Normal (next_error "Validation error" 400)
       /\ snd run = w
       /\ In u (users (snd run))
       /\ resetPasswordToken u = Some (sha256 cleartext)
       /\ exists e, resetPasswordExpire u = Some e /\ e > now.
Proof.
  intros F P H. split.
  - now rewrite (resetPassword_found cleartext body_password salt digest
                   now t_save w u F P H).
  - intros body_valid. cbv zeta. unfold reset_password_route. cbv zeta.
    assert (V : validateToken [("resettoken", cleartext)] = false)
      by reflexivity.
    rewrite V. cbn [andb]. unfold resetPassword. cbn [negb fst snd ret].
    split; [reflexivity|]. split; [reflexivity|].
    apply find_some in F. destruct F as [I Q].
    apply reset_filter_spec in Q. tauto.
Qed.

(** ** Mail delivery that fails *)

Lemma create_normal (newId : nat) (un em pw salt : string) (t : Millis)
    (w w1 : World) (doc : User) :
  create newId un em pw salt t w = (Normal doc, w1) ->
  w1 = {| users := users w ++ [doc]; calls := calls w |}
  /\ _id doc = newId
  /\ username doc = trim un
  /\ email doc = toLowerCase (trim em)
  /\ emailVerificationToken doc = None
  /\ emailVerificationExpire doc = None
  /\ loginAttempts doc = 0
  /\ lockUntil doc = None
  /\ emailVerified (status doc) = false.
Proof.
  unfold create. cbv zeta.
  destruct (negb _); [discriminate|].
  destruct (Bcrypt.hash crypt pw salt) as [digest|e]; [|discriminate].
  unfold bind, findOne, modify_users, ret.
  destruct (find _ (users w)); [discriminate|].
  intros H. injection H as <- <-. cbn. repeat split.
Qed.

Lemma find_ext_none {A} (p q : A -> bool) (l : list A) :
  (forall x, p x = q x) -> find p l = None -> find q l = None.
Proof.
  intros E. induction l as [|x l IH]; simpl; [reflexivity|].
  rewrite <- (E x). destruct (p x); [discriminate | exact IH].
Qed.

(** An insert that went through: the lookup of [register] had missed. *)
Lemma create_precheck (newId : nat) (un em pw salt : string) (t : Millis)
    (w w1 : World) (doc : User) :
  create newId un em pw salt t w = (Normal doc, w1) ->
  find (fun u => ((email u =? toLowerCase (trim em))%string
                  || (username u =? trim un)%string)%bool) (users w) = None.
Proof.
  unfold create. cbv zeta.
  destruct (negb _); [discriminate|].
  destruct (Bcrypt.hash crypt pw salt) as [digest|e]; [|discriminate].
  unfold bind, findOne, modify_users, ret.
  destruct (find _ (users w)) eqn:F; [discriminate|].
  intros _. revert F. apply find_ext_none. intros x. apply orb_comm.
Qed.

Lemma on_id_fresh (i : nat) (f : User -> User) (db : Db) :
  (forall d, In d db -> _id d <> i) -> on_id i f db = db.
Proof.
  intros H. unfold on_id. induction db as [|d db IH]; simpl; [reflexivity|].
  destruct (Nat.eqb (_id d) i) eqn:E.
  - apply Nat.eqb_eq in E. exfalso. apply (H d); simpl; auto.
  - f_equal. apply IH. intros x Hx. apply H. simpl. auto.
Qed.

Lemma on_id_app (i : nat) (f : User -> User) (a b : Db) :
  on_id i f (a ++ b) = on_id i f a ++ on_id i f b.
Proof. unfold on_id. apply map_app. Qed.





(** ** Steps of a computation *)

Lemma step_ret {A} (P : World -> Prop) (a : A) : step P (ret a) P.
Proof. intros w H. exact H. Qed.

Lemma step_throw {A} (P : World -> Prop) (e : Exn) : step P (@throw A e) P.
Proof. intros w H. exact H. Qed.

Lemma step_bind {A B} (P Q R : World -> Prop) (m : M A) (k : A -> M B) :
  step P m Q -> (forall a, step Q (k a) R) -> (forall w, Q w -> R w) ->
  step P (bind m k) R.
Proof.
  intros Hm Hk HQR w H. unfold bind. specialize (Hm w H).
  destruct (m w) as [[a|e] w']; cbn [snd] in *.
  - apply Hk. exact Hm.
  - apply HQR. exact Hm.
Qed.

Lemma step_try_catch {A} (P : World -> Prop) (m : M A) (h : Exn -> M A) :
  step P m P -> (forall e, step P (h e) P) -> step P (try_catch m h) P.
Proof.
  intros Hm Hh w H. unfold try_catch. specialize (Hm w H).
  destruct (m w) as [[a|e] w']; cbn [snd] in *.
  - exact Hm.
  - apply Hh. exact Hm.
Qed.

Lemma step_findOne (P : World -> Prop) (f : User -> bool) : step P (findOne f) P.
Proof. intros w H. exact H. Qed.

Lemma account_in (w : World) (identifier : string) (u : User) :
  account w identifier = Some u -> In u (users w).
Proof. intros A. unfold account in A. now apply find_some in A. Qed.

Lemma protect_reads_only (req : Credentials) (now : Millis) (w : World) :
  snd (protect req now w) = w.
Proof.
  unfold protect, bind, findById, findOne, ret.
  repeat (match goal with
          | |- context [match ?x with _ => _ end] => destruct x
          | |- context [if ?x then _ else _] => destruct x
          end; cbn [fst snd]);
    reflexivity.
Qed.

Lemma step_protect (P : World -> Prop) (req : Credentials) (now : Millis) :
  step P (protect req now) P.
Proof. intros w H. now rewrite protect_reads_only. Qed.

(** ** A lock and the right password *)

(** C1, on the code.  From an account with no failed attempt,
    [MAX_LOGIN_ATTEMPTS] failed logins in a row do store the lock: no
    shorter run changes [lockUntil], and the last failure sets it to its
    instant plus [LOCKOUT_TIME] minutes.  But the lock does not stop a
    login: the lookup does not load [lockUntil], and a login with the right
    password at an instant before [lockUntil] is answered 200, and clears
    the counter and the lock. *)
Theorem lock_does_not_stop_the_right_password
    (identifier : string) (w : World) (u : User)
    (tries : list Attempt) (last : Attempt)
    (pw : Js.value) (random salt : string)
    (now later t_session t_save : Millis) :
  account w identifier = Some u ->
  loginAttempts u = 0 ->
  lockUntil u = None ->
  Z.of_nat (List.length tries) + 1 = MAX_LOGIN_ATTEMPTS env ->
  (forall a, In a (tries ++ [last]) -> verifies u (entered a) = false) ->
  verifies u pw = true ->
  now < at_update last + LOCKOUT_TIME env * 60 * 1000 ->
  let locked := attempts w identifier (tries ++ [last]) in
  let run := login true identifier pw random salt now later t_session t_save
               locked in
  (forall k, (k <= List.length tries)%nat ->
     exists uk, account (attempts w identifier (firstn k tries)) identifier = Some uk
                /\ lockUntil uk = None
                /\ loginAttempts uk = Z.of_nat k)
  /\ (exists u',
        account locked identifier = Some u'
        /\ loginAttempts u' = MAX_LOGIN_ATTEMPTS env
        /\ lockUntil u' = Some (at_update last + LOCKOUT_TIME env * 60 * 1000)
        /\ isLocked u' now = true)
  /\ (exists saved access,
        fst run
        = Normal (json 200 "Login successful" (session saved access random)))
  /\ exists u'',
       account (snd run) identifier = Some u''
       /\ loginAttempts u'' = 0
       /\ lockUntil u'' = None.
Proof.
  intros A C L M V R Lt. cbv zeta. split.
  - intros k Hk.
    destruct (failures_below_max identifier (firstn k tries) w u A)
      as (uk & Ak & Lk & Ck & _).
    + rewrite C, length_firstn. lia.
    + intros a Ha. apply V. apply in_or_app. left.
      rewrite <- (firstn_skipn k tries). apply in_or_app. now left.
    + exists uk. repeat split; auto; [congruence|].
      rewrite Ck, C, length_firstn. lia.
  - destruct (failures_reach_max identifier w u tries last A C M V)
      as (u' & A' & C' & L' & P').
    assert (V' : verifies u' pw = true)
      by (now rewrite (verifies_same_password u u' pw P')).
    split.
    { exists u'. split; [exact A'|]. split; [exact C'|].
      split; [exact L'|]. unfold isLocked. rewrite L'. unfold lock_from.
      apply Z.gtb_lt. lia. }
    split.
    { destruct (login_run identifier pw random salt now later t_session t_save
                  _ u' A' V') as (saved & ->).
      do 2 eexists. reflexivity. }
    exists (after_login u' random t_session t_save u').
    split; [now apply login_account|].
    unfold after_login.
    replace (loginAttempts u' >? 0) with true
      by (symmetry; apply Z.gtb_lt; lia).
    cbn. split; reflexivity.
Qed.

(** C10, on the code.  An attempt made while the account is locked is not
    rejected as such: the password is compared.  With a wrong password the
    attempt is answered INVALID_PASSWORD, the counter goes up by one and,
    the counter reaching the maximum, the lock is set anew, to the instant
    after the comparison plus [LOCKOUT_TIME] minutes.  With the right
    password the attempt succeeds and, far from being extended, the lock is
    cleared together with the counter. *)
Theorem attempt_during_lockout (identifier : string) (pw : Js.value)
    (now later : Millis) (w : World) (u : User) (l : Millis) :
  account w identifier = Some u ->
  lockUntil u = Some l ->
  now < l ->
  MAX_LOGIN_ATTEMPTS env <= loginAttempts u + 1 ->
  0 < loginAttempts u ->
  let run := getAuthenticatedUser identifier pw now later w in
  isLocked u now = true
  /\ (verifies u pw = false ->
      fst run = Normal {| user := None; reason := Some INVALID_PASSWORD |}
      /\ exists u', account (snd run) identifier = Some u'
                    /\ loginAttempts u' = loginAttempts u + 1
                    /\ lockUntil u'
                       = Some (later + LOCKOUT_TIME env * 60 * 1000))
  /\ (verifies u pw = true ->
      fst run = Normal {| user := Some (select_login u); reason := None |}
      /\ exists u', account (snd run) identifier = Some u'
                    /\ loginAttempts u' = 0
                    /\ lockUntil u' = None).
Proof.
  intros A L Lt M C. cbv zeta.
  split; [unfold isLocked; rewrite L; apply Z.gtb_lt; lia|].
  split; intros V.
  - rewrite (auth_invalid identifier pw now later w u A V). cbn [fst snd].
    split; [reflexivity|].
    eexists. split; [apply account_updated; exact A|].
    unfold attempt_update.
    replace (loginAttempts u + 1 >=? MAX_LOGIN_ATTEMPTS env) with true
      by (symmetry; rewrite Z.geb_leb; apply Z.leb_le; lia).
    cbn. split; reflexivity.
  - rewrite (auth_success identifier pw now later w u A V). cbn [fst snd].
    split; [reflexivity|].
    replace (loginAttempts u >? 0) with true
      by (symmetry; apply Z.gtb_lt; lia).
    eexists. split; [apply account_updated; exact A|].
    cbn. split; reflexivity.
Qed.

(** ** What a redemption checks *)

(** A redemption succeeds exactly when some account stores a record with the
    supplied value and stores a record, the same or another, that has not
    expired. *)
Lemma refresh_succeeds_iff (supplied newRandom salt : string)
    (now t_rotate : Millis) (w : World) :
  supplied <> "" ->
  succeeded (fst (refreshToken (Some supplied) newRandom salt now t_rotate w)) = true
  <-> exists u, In u (users w)
                /\ holds_refresh supplied u = true
                /\ exists r, In r (refreshTokens u) /\ expiresAt r > now.
Proof.
  intros N.
  assert (S : forall u, refresh_filter supplied now u = true
                        <-> holds_refresh supplied u = true
                            /\ exists r, In r (refreshTokens u) /\ expiresAt r > now).
  { intros u. unfold refresh_filter, holds_refresh.
    rewrite andb_true_iff, (existsb_exists (fun r => expiresAt r >? now)).
    split; intros [H (r & I & G)]; (split; [exact H|]); exists r; (split; [exact I|]).
    - apply Z.gtb_lt in G. lia.
    - apply Z.gtb_lt. lia. }
  destruct (find (refresh_filter supplied now) (users w)) as [u|] eqn:F.
  - rewrite (refreshToken_found supplied newRandom salt now t_rotate w u N F).
    simpl. split; [intros _|reflexivity].
    apply find_some in F. destruct F as [I P]. exists u.
    split; [exact I|]. now apply S.
  - rewrite (refreshToken_not_found supplied newRandom salt now t_rotate w F).
    simpl. split; [discriminate|]. intros (u & I & H).
    apply S in H. now rewrite (find_none _ _ F u I) in H.
Qed.

(** * Further properties of the auth code *)

(** ** The lockout policy after a lock has run out *)

(** X1. After a lock has run out the count does not start again.  On a
    document that carries its [lockUntil], [incLoginAttempts] clears a lock
    that has passed and sets the counter to 1.  The lookup of a login does
    not load [lockUntil]: a failed login after the expiry adds one to the
    counter it finds and, the counter being at the maximum already, sets a
    new lock at once, [LOCKOUT_TIME] minutes from the instant after the
    comparison.  Until a login succeeds, every single failure locks the
    account again. *)
Theorem expired_lock_does_not_restart_the_count (identifier : string)
    (pw : Js.value) (now later : Millis) (w : World) (u : User) (l : Millis) :
  account w identifier = Some u ->
  lockUntil u = Some l ->
  l < now -> now <= later ->
  MAX_LOGIN_ATTEMPTS env <= loginAttempts u ->
  verifies u pw = false ->
  let run := getAuthenticatedUser identifier pw now later w in
  Loaded.incLoginAttempts env (whole u) later
  = Loaded.updateOne (whole u) [unset_lockUntil; set_loginAttempts_to 1]
  /\ fst run = Normal {| user := None; reason := Some INVALID_PASSWORD |}
  /\ exists u',
       account (snd run) identifier = Some u'
       /\ loginAttempts u' = loginAttempts u + 1
       /\ lockUntil u' = Some (later + LOCKOUT_TIME env * 60 * 1000).
Proof.
  intros A L Lt Le M V. cbv zeta. split.
  - unfold Loaded.incLoginAttempts. cbn [Loaded.lockUntil whole]. rewrite L.
    replace (l <? later) with true by (symmetry; apply Z.ltb_lt; lia).
    reflexivity.
  - rewrite (auth_invalid identifier pw now later w u A V). cbn [fst snd].
    split; [reflexivity|].
    eexists. split; [apply account_updated; exact A|].
    unfold attempt_update.
    replace (loginAttempts u + 1 >=? MAX_LOGIN_ATTEMPTS env) with true
      by (symmetry; rewrite Z.geb_leb; apply Z.leb_le; lia).
    cbn. split; reflexivity.
Qed.

(** ** Sessions opened by a login *)

(** What a successful login leaves of the account in the store. *)
Lemma login_success_account (identifier : string) (pw : Js.value)
    (random salt : string) (now later t_session t_save : Millis)
    (w : World) (u : User) :
  account w identifier = Some u ->
  verifies u pw = true ->
  let run := login true identifier pw random salt now later t_session t_save w in
  (exists saved access,
     fst run = Normal (json 200 "Login successful"
                         (session saved access random)))
  /\ exists u',
       account (snd run) identifier = Some u'
       /\ _id u' = _id u
       /\ password u' = password u
       /\ isActive (status u') = isActive (status u)
       /\ refreshTokens u' = [issued_record random t_session].
Proof.
  intros A V. cbv zeta. split.
  - destruct (login_run identifier pw random salt now later t_session t_save
                w u A V) as (saved & ->).
    do 2 eexists. reflexivity.
  - exists (after_login u random t_session t_save u).
    split; [now apply login_account|].
    destruct (after_login_keeps u random t_session t_save u)
      as (I & _ & _ & P & S).
    repeat split; assumption.
Qed.

Lemma login_success_users (identifier : string) (pw : Js.value)
    (random salt : string) (now later t_session t_save : Millis)
    (w : World) (u : User) :
  account w identifier = Some u ->
  verifies u pw = true ->
  users (snd (login true identifier pw random salt now later
                t_session t_save w))
  = on_id (_id u) (after_login u random t_session t_save) (users w).
Proof.
  intros A V.
  destruct (login_run identifier pw random salt now later t_session t_save
              w u A V) as (saved & ->).
  reflexivity.
Qed.

(** X2. A login ends every earlier session of the account.  The array of
    refresh tokens is not among the paths the lookup loads;
    [cleanExpiredTokens] finds none and starts an empty one, and [save]
    writes the array of the one new record over the stored one.
    Afterwards the account holds the record of this login and no other,
    and the refresh token of an earlier session, expired or not, is
    refused (no other account holds it). *)
Theorem login_drops_earlier_sessions (identifier : string) (pw : Js.value)
    (random salt : string) (now later t_session t_save : Millis)
    (w : World) (u : User)
    (earlier newRandom salt' : string) (now' t_rotate : Millis) :
  account w identifier = Some u ->
  verifies u pw = true ->
  holds_refresh earlier u = true ->
  earlier <> random ->
  (forall d, In d (users w) -> holds_refresh earlier d = true -> _id d = _id u) ->
  let w' := snd (login true identifier pw random salt now later
                   t_session t_save w) in
  (exists u', account w' identifier = Some u'
              /\ refreshTokens u' = [issued_record random t_session])
  /\ succeeded
       (fst (refreshToken (Some earlier) newRandom salt' now' t_rotate w'))
     = false.
Proof.
  intros A V H D U. cbv zeta. split.
  - exists (after_login u random t_session t_save u).
    split; [now apply login_account | reflexivity].
  - rewrite refreshToken_not_found; [reflexivity|].
    rewrite (login_success_users identifier pw random salt now later
               t_session t_save w u A V).
    apply find_none_on_id.
    + intros d _ _. unfold refresh_filter, after_login.
      cbn [refreshTokens set_refreshTokens existsb issued_record token].
      replace (random =? earlier)%string with false; [reflexivity|].
      symmetry. apply String.eqb_neq. congruence.
    + intros d I X. unfold refresh_filter. fold (holds_refresh earlier d).
      destruct (holds_refresh earlier d) eqn:Y; [|reflexivity].
      rewrite (U d I Y) in X. now rewrite Nat.eqb_refl in X.
Qed.

(** X3. The refresh token a login returns can be redeemed: until seven days
    after the login, a redemption of it succeeds. *)
Theorem login_token_redeemable (identifier : string) (pw : Js.value)
    (random salt : string) (now later t_session t_save : Millis)
    (w : World) (u : User)
    (newRandom salt' : string) (now' t_rotate : Millis) :
  account w identifier = Some u ->
  isLocked u now = false ->
  verifies u pw = true ->
  random <> "" ->
  now' < t_session + 7 * 24 * 60 * 60 * 1000 ->
  succeeded
    (fst (refreshToken (Some random) newRandom salt' now' t_rotate
            (snd (login true identifier pw random salt now later
                    t_session t_save w)))) = true.
Proof.
  intros A L V N T.
  destruct (login_success_account identifier pw random salt now later
              t_session t_save w u A V) as (_ & u' & A' & _ & _ & _ & R).
  apply refresh_succeeds_iff; [exact N|].
  exists u'. split; [exact (account_in _ _ _ A')|].
  assert (I : In (issued_record random t_session) (refreshTokens u')).
  { rewrite R. now left. }
  split.
  - unfold holds_refresh. apply existsb_exists.
    exists (issued_record random t_session). split; [exact I|].
    apply String.eqb_refl.
  - exists (issued_record random t_session). split; [exact I|]. cbn. lia.
Qed.

Lemma stored_on_id (w : World) (u : User) (G : User -> User) :
  (forall d, _id (G d) = _id d) ->
  stored w (_id u) = Some u ->
  find (fun d => Nat.eqb (_id d) (_id u)) (on_id (_id u) G (users w)) = Some (G u).
Proof.
  intros HG S. apply (find_on_id_hit (fun d => Nat.eqb (_id d) (_id u)) u G).
  - intros x. now rewrite HG.
  - exact S.
Qed.

Lemma protect_answer (req : Credentials) (now : Millis) (w : World) :
  fst (protect req now w)
  = Normal
      match presented req with
      | None | Some Jwt.Empty =>
          next_error "Access denied. No token provided" 401
      | Some (Jwt.Garbage _) => invalid_token_response
      | Some (Jwt.Signed key c) =>
          if negb (key =? JWT_SECRET env)%string then invalid_token_response
          else if now / 1000 >=? Jwt.exp c then token_expired_response
          else match stored w (Jwt.id c) with
               | None => unknown_subject_response
               | Some this =>
                   if negb (isActive (status this))
                   then next_error "User account is deacrivated" 401
                   else next_with this
               end
      end.
Proof.
  unfold protect, presented.
  destruct (bearer req) as [t|]; [|destruct (cookie_accessToken req) as [t|]];
    try reflexivity;
    (destruct t as [|raw|key c]; try reflexivity);
  unfold Jwt.verify;
  (destruct (negb (key =? JWT_SECRET env)%string); [reflexivity|]);
  (destruct (now / 1000 >=? Jwt.exp c); [reflexivity|]);
  cbn [Jwt.no_options Jwt.audience Jwt.issuer Jwt.claim_matches negb];
  unfold bind, findById, findOne, stored, ret;
  (destruct (find (fun u => Nat.eqb (_id u) (Jwt.id c)) (users w)) as [u|];
    [|reflexivity]);
  destruct (negb (isActive (status u))); reflexivity.
Qed.

(** X4. The access token of a login.  Its payload carries the id of the
    account and neither its email, its username nor its role: the document
    [login] signs for was loaded without them.  It is signed under
    [JWT_SECRET] at the instant of the login, with the configured issuer
    and audience, and [protect] accepts it until its expiry as the account
    that logged in, which it reads from the store by the id. *)
Theorem login_access_token (identifier : string) (pw : Js.value)
    (random salt : string) (now later t_session t_save : Millis)
    (w : World) (u : User) :
  account w identifier = Some u ->
  stored w (_id u) = Some u ->
  verifies u pw = true ->
  isActive (status u) = true ->
  let run := login true identifier pw random salt now later t_session t_save w in
  let access :=
    Jwt.Signed (JWT_SECRET env)
      {| Jwt.id := _id u; Jwt.email := None; Jwt.username := None;
         Jwt.role := None;
         Jwt.iat := t_session / 1000;
         Jwt.exp := t_session / 1000 + JWT_EXPIRE env;
         Jwt.iss := Some (JWT_ISSUER env);
         Jwt.aud := Some (JWT_AUDIENCE env) |} in
  (exists saved,
     fst run = Normal (json 200 "Login successful" (session saved access random)))
  /\ forall (req : Credentials) (now' : Millis),
       presented req = Some access ->
       now' / 1000 < t_session / 1000 + JWT_EXPIRE env ->
       exists this,
         fst (protect req now' (snd run)) = Normal (next_with this)
         /\ stored (snd run) (_id u) = Some this
         /\ _id this = _id u.
Proof.
  intros A S V Act. cbv zeta. split.
  - destruct (login_run identifier pw random salt now later t_session t_save
                w u A V) as (saved & ->).
    exists saved. reflexivity.
  - intros req now' P Lt.
    assert (S' : stored (snd (login true identifier pw random salt now later
                                t_session t_save w)) (_id u)
                 = Some (after_login u random t_session t_save u)).
    { unfold stored.
      rewrite (login_success_users identifier pw random salt now later
                 t_session t_save w u A V).
      apply stored_on_id; [|exact S].
      intros d. apply after_login_keeps. }
    destruct (after_login_keeps u random t_session t_save u)
      as (I & _ & _ & _ & Ac).
    exists (after_login u random t_session t_save u).
    split; [|split; [exact S' | exact I]].
    rewrite protect_answer, P. cbn [Jwt.exp Jwt.id].
    rewrite String.eqb_refl. cbn [negb].
    replace (now' / 1000 >=? t_session / 1000 + JWT_EXPIRE env) with false
      by (symmetry; rewrite Z.geb_leb; apply Z.leb_gt; lia).
    rewrite S', Ac, Act. reflexivity.
Qed.

(** ** From registration to the first login *)

(** The comparison accepts a password whose hash under the digest's own salt
    is the digest. *)
Lemma verifies_digest (u : User) (s : string) :
  String.length (password u) = 60%nat ->
  crypt s (substring 0 29 (password u)) = Some (password u) ->
  verifies u (Js.Str s) = true.
Proof.
  intros Len H. unfold verifies, Bcrypt.compare, Bcrypt.hash.
  rewrite Len. cbn [Nat.eqb negb Nat.sub]. rewrite H.
  apply String.eqb_refl.
Qed.

Lemma register_delivered_run
    (body_username body_email body_password : string) (newId : nat)
    (salt verificationRandom refreshRandom : string)
    (t_create t_issue t_after : Millis) (w w1 : World) (doc : User) :
  create newId body_username body_email body_password salt t_create w
  = (Normal doc, w1) ->
  (forall d, In d (users w) -> _id d <> newId) ->
  let stored_doc :=
    set_refreshTokens [issued_record refreshRandom t_after]
      (set_emailVerificationExpire
         (Some (t_issue + EMAIL_VERIFICATION_EXPIRE env * 60 * 60 * 1000))
         (set_emailVerificationToken (Some (sha256 verificationRandom)) doc)) in
  register true body_username body_email body_password newId salt
    verificationRandom refreshRandom true t_create t_issue t_after w
  = (Normal (json 201
               "User registered successfully. Please check your email to verify your account."
               (session (whole stored_doc)
                  (getSignedJwtToken doc t_after) refreshRandom)),
     {| users := users w ++ [stored_doc];
        calls := calls w ++ [sendEmail_to (email doc) "Account Verification"] |}).
Proof.
  intros Hc Fresh. cbv zeta. unfold register. cbn [negb].
  unfold bind at 1. unfold findOne at 1.
  rewrite (create_precheck _ _ _ _ _ _ _ _ _ Hc).
  unfold bind at 1. rewrite Hc.
  destruct (create_normal _ _ _ _ _ _ _ _ _ Hc)
    as (-> & Hid & _ & _ & Ht & He & _).
  cbn [fst snd getEmailVerificationToken].
  unfold bind at 1. rewrite save_plain by reflexivity.
  cbn [isModified existsb Path_eqb orb fst snd].
  unfold try_catch, sendEmail, bind at 1, call. cbn [users calls].
  unfold bind at 1, ret at 1. unfold bind at 1.
  rewrite save_plain by reflexivity.
  cbn [isModified existsb Path_eqb orb fst snd users calls ret
       generateRefreshToken].
  cbn [_id email set_emailVerificationExpire set_emailVerificationToken
       set_refreshTokens refreshTokens].
  destruct doc as [i un em pwd r evt eve rpt rpe la lu rts st].
  cbn in Hid, Ht, He |- *. subst i evt eve.
  assert (R : rts = []).
  { unfold create in Hc. cbv zeta in Hc.
    destruct (negb _) in Hc; [discriminate|].
    destruct (Bcrypt.hash crypt body_password salt) in Hc; [|discriminate].
    unfold bind, findOne, modify_users, ret in Hc.
    destruct (find _ (users w)) in Hc; [discriminate|].
    now injection Hc. }
  subst rts. unfold issued_record. cbn [app].
  f_equal. f_equal.
  rewrite !on_id_app.
  rewrite !(on_id_fresh newId _ (users w)) by exact Fresh.
  f_equal. unfold on_id. cbn [map _id]. rewrite Nat.eqb_refl.
  cbn. rewrite Nat.eqb_refl. reflexivity.
Qed.

Lemma find_app_none {A} (p : A -> bool) (l : list A) (x : A) :
  find p l = None -> p x = true -> find p (l ++ [x]) = Some x.
Proof.
  intros N P. induction l as [|y l IH]; simpl in *.
  - now rewrite P.
  - destruct (p y); [discriminate|]. now apply IH.
Qed.

(** X5. A registration that went through lets its user log in: a login under
    the stored username (the submitted one, trimmed) with the submitted
    password succeeds, and the stored password is not the submitted one but
    its digest.  No account resolved that username before; the digest has the
    shape of a bcrypt digest: 60 characters, beginning with its salt. *)
Theorem registered_user_can_log_in
    (body_username body_email body_password : string) (newId : nat)
    (salt verificationRandom refreshRandom : string)
    (t_create t_issue t_after : Millis) (w w1 : World) (doc : User)
    (random' salt' : string) (now later t_session t_save : Millis) :
  create newId body_username body_email body_password salt t_create w
  = (Normal doc, w1) ->
  (forall d, In d (users w) -> _id d <> newId) ->
  account w (trim body_username) = None ->
  String.length (password doc) = 60%nat ->
  crypt body_password (substring 0 29 (password doc)) = Some (password doc) ->
  let w' := snd (register true body_username body_email body_password newId salt
                   verificationRandom refreshRandom true
                   t_create t_issue t_after w) in
  crypt body_password salt = Some (password doc)
  /\ succeeded
       (fst (login true (trim body_username) (Js.Str body_password)
               random' salt' now later t_session t_save w')) = true.
Proof.
  intros Hc Fresh Free Len Con. cbv zeta.
  rewrite (register_delivered_run _ _ _ _ _ _ _ _ _ _ _ _ _ Hc Fresh).
  cbn [snd].
  destruct (create_normal _ _ _ _ _ _ _ _ _ Hc)
    as (_ & _ & Hu & _ & _ & _ & _ & Hl & _).
  split.
  { unfold create in Hc. cbv zeta in Hc.
    destruct (negb _) in Hc; [discriminate|].
    unfold Bcrypt.hash in Hc.
    destruct (crypt body_password salt) as [digest|]; [|discriminate].
    unfold bind, findOne, modify_users, ret in Hc.
    destruct (find _ (users w)) in Hc; [discriminate|].
    injection Hc as <- _. reflexivity. }
  match goal with
  | |- context [{| users := users w ++ [?d]; calls := ?c |}] =>
      set (stored_doc := d);
      set (w' := {| users := users w ++ [stored_doc]; calls := c |})
  end.
  assert (A : account w' (trim body_username) = Some stored_doc).
  { unfold account, w'. cbn [users]. apply find_app_none; [exact Free|].
    unfold by_identifier, stored_doc.
    cbn [username email set_refreshTokens set_emailVerificationExpire
         set_emailVerificationToken].
    rewrite Hu, trim_trim. now rewrite String.eqb_refl. }
  assert (V : verifies stored_doc (Js.Str body_password) = true).
  { apply verifies_digest; unfold stored_doc; cbn; assumption. }
  destruct (login_success_account (trim body_username) (Js.Str body_password)
              random' salt' now later t_session t_save w' stored_doc A V)
    as ((saved & access & E) & _).
  now rewrite E.
Qed.

(** ** Issue and consumption of verification and reset tokens *)

Lemma verifyEmail_succeeds_iff (cleartext salt : string) (now : Millis) (w : World) :
  succeeded (fst (verifyEmail cleartext salt now w)) = true
  <-> exists u, In u (users w) /\ verification_filter (sha256 cleartext) now u = true.
Proof.
  destruct (find (verification_filter (sha256 cleartext) now) (users w))
    as [u|] eqn:F.
  - rewrite (verifyEmail_found cleartext salt now w u F). simpl.
    split; [intros _|reflexivity]. apply find_some in F. now exists u.
  - rewrite (verifyEmail_not_found cleartext salt now w F). simpl.
    split; [discriminate|]. intros (u & I & P).
    now rewrite (find_none _ _ F u I) in P.
Qed.

(** [resendVerification], whatever becomes of the mail. *)
Lemma resendVerification_any (req_user : User) (random salt : string)
    (delivered : bool) (now : Millis) (w : World) :
  emailVerified (status req_user) = false ->
  resendVerification req_user random salt delivered now w
  = (Normal (if delivered then json 200 "Verification email sent" no_data
             else next_error "Email could not be sent" 500),
     {| users :=
          on_id (_id req_user)
            (fun d =>
               set_emailVerificationExpire
                 (Some (now + EMAIL_VERIFICATION_EXPIRE env * 60 * 60 * 1000))
                 (set_emailVerificationToken (Some (sha256 random)) d))
            (users w);
        calls := calls w ++ [sendEmail_to (email req_user) "Email Verification"] |}).
Proof.
  intros E. unfold resendVerification. rewrite E. cbv zeta.
  unfold bind at 1. rewrite save_plain by reflexivity.
  cbn [isModified existsb Path_eqb orb fst snd getEmailVerificationToken].
  unfold try_catch, sendEmail, bind, call, ret, throw. cbn [users calls].
  cbn [_id email set_emailVerificationExpire set_emailVerificationToken
       fold_left write_path emailVerificationToken emailVerificationExpire].
  destruct delivered; reflexivity.
Qed.

(** X6. A verification token issued by [resendVerification] is consumable by
    its cleartext for [EMAIL_VERIFICATION_EXPIRE] hours and not from that
    instant on, and it replaces the token the account held: and this whether
    or not the mail was delivered, for a failed delivery answers 500 and
    leaves the new digest and expiry in the store.  No other account holds
    the digest of the cleartext. *)
Theorem resent_verification_token_lifetime (req_user : User)
    (random salt : string) (delivered : bool) (now : Millis) (w : World)
    (salt' : string) (now' : Millis) :
  In req_user (users w) ->
  emailVerified (status req_user) = false ->
  (forall d, In d (users w) -> _id d <> _id req_user ->
             emailVerificationToken d <> Some (sha256 random)) ->
  let run := resendVerification req_user random salt delivered now w in
  let expiry := now + EMAIL_VERIFICATION_EXPIRE env * 60 * 60 * 1000 in
  (delivered = false -> fst run = Normal (next_error "Email could not be sent" 500))
  /\ (forall d, In d (users (snd run)) -> _id d = _id req_user ->
        emailVerificationToken d = Some (sha256 random)
        /\ emailVerificationExpire d = Some expiry)
  /\ (succeeded (fst (verifyEmail random salt' now' (snd run))) = true
      <-> now' < expiry).
Proof.
  intros I E U. cbv zeta.
  rewrite (resendVerification_any req_user random salt delivered now w E).
  cbn [fst snd users].
  split; [intros ->; reflexivity|]. split.
  - intros d Hd Ed. unfold on_id in Hd. apply in_map_iff in Hd.
    destruct Hd as (d0 & <- & I0).
    destruct (Nat.eqb (_id d0) (_id req_user)) eqn:X.
    + cbn. split; reflexivity.
    + apply Nat.eqb_neq in X. contradiction.
  - rewrite verifyEmail_succeeds_iff. cbn [users]. split.
    + intros (d & Hd & P). unfold on_id in Hd. apply in_map_iff in Hd.
      destruct Hd as (d0 & <- & I0).
      apply verification_filter_spec in P. destruct P as (T & e & He & G).
      destruct (Nat.eqb (_id d0) (_id req_user)) eqn:X.
      * cbn in He. injection He as <-. lia.
      * apply Nat.eqb_neq in X. exfalso. exact (U d0 I0 X T).
    + intros Lt.
      exists (set_emailVerificationExpire
                (Some (now + EMAIL_VERIFICATION_EXPIRE env * 60 * 60 * 1000))
                (set_emailVerificationToken (Some (sha256 random)) req_user)).
      split.
      * unfold on_id. apply in_map_iff. exists req_user.
        now rewrite Nat.eqb_refl.
      * apply verification_filter_spec. cbn. split; [reflexivity|].
        eexists. split; [reflexivity|]. lia.
Qed.

(** ** Closing sessions *)

Lemma logoutAll_run (req_user : User) (salt : string) (now : Millis) (w : World) :
  logoutAll req_user salt now w
  = (Normal (json 200 "Logged out from all devices successfully" no_data),
     {| users := on_id (_id req_user) (fun d => set_refreshTokens [] d) (users w);
        calls := calls w |}).
Proof.
  unfold logoutAll, bind. rewrite save_plain by reflexivity. reflexivity.
Qed.

Lemma logout_run (req_user : User) (supplied salt : string) (now : Millis)
    (w : World) :
  supplied <> "" ->
  logout req_user (Some supplied) salt now w
  = (Normal (json 200 "Logged out successfully" no_data),
     {| users :=
          on_id (_id req_user)
            (fun d =>
               set_refreshTokens
                 (filter (fun r => negb (token r =? supplied)%string)
                    (refreshTokens req_user)) d)
            (users w);
        calls := calls w |}).
Proof.
  intros N. unfold logout. destruct supplied as [|c rest]; [congruence|].
  unfold bind. rewrite save_plain by reflexivity. reflexivity.
Qed.

(** X8. After [logoutAll] no refresh token of the account is left: a
    redemption, of whatever value and at whatever instant, can only succeed on
    a record held by another account. *)
Theorem logoutAll_closes_every_session (req_user : User) (salt : string)
    (now : Millis) (w : World)
    (supplied newRandom salt' : string) (now' t_rotate : Millis) :
  let w' := snd (logoutAll req_user salt now w) in
  (forall d, In d (users w') -> _id d = _id req_user -> refreshTokens d = [])
  /\ (succeeded (fst (refreshToken (Some supplied) newRandom salt' now' t_rotate w'))
      = true ->
      exists d, In d (users w) /\ _id d <> _id req_user
                /\ holds_refresh supplied d = true).
Proof.
  cbv zeta. rewrite logoutAll_run. cbn [snd users].
  assert (K : forall d, In d (on_id (_id req_user)
                                (fun d => set_refreshTokens [] d) (users w)) ->
                        (_id d = _id req_user /\ refreshTokens d = [])
                        \/ (_id d <> _id req_user /\ In d (users w))).
  { intros d Hd. unfold on_id in Hd. apply in_map_iff in Hd.
    destruct Hd as (d0 & <- & I0).
    destruct (Nat.eqb (_id d0) (_id req_user)) eqn:X.
    - left. apply Nat.eqb_eq in X. now split.
    - right. apply Nat.eqb_neq in X. now split. }
  split.
  - intros d Hd E. destruct (K d Hd) as [[_ R]|[X _]]; [exact R | contradiction].
  - intros S. destruct supplied as [|c rest]; [discriminate S|].
    apply refresh_succeeds_iff in S; [|discriminate].
    destruct S as (d & Hd & H & _). cbn [users] in Hd.
    destruct (K d Hd) as [[_ R]|[X I0]].
    + unfold holds_refresh in H. rewrite R in H. discriminate.
    + exists d. repeat split; assumption.
Qed.

(** X9. [logout] with a refresh token closes that session and no other: the
    records of the account with that value are gone, so a redemption of it
    can only succeed on another account's record, while every other live
    token of the account can still be redeemed.  [req.user] is the stored
    document, as [protect] loaded it. *)
Theorem logout_closes_one_session (req_user : User) (supplied salt : string)
    (now : Millis) (w : World) :
  supplied <> "" ->
  In req_user (users w) ->
  let w' := snd (logout req_user (Some supplied) salt now w) in
  (forall d, In d (users w') -> _id d = _id req_user ->
             holds_refresh supplied d = false)
  /\ (forall (newRandom salt' : string) (now' t_rotate : Millis),
        succeeded (fst (refreshToken (Some supplied) newRandom salt'
                          now' t_rotate w')) = true ->
        exists d, In d (users w) /\ _id d <> _id req_user
                  /\ holds_refresh supplied d = true)
  /\ (forall (other newRandom salt' : string) (now' t_rotate : Millis)
             (r : RefreshTokenRecord),
        other <> "" -> other <> supplied ->
        In r (refreshTokens req_user) -> token r = other -> expiresAt r > now' ->
        succeeded (fst (refreshToken (Some other) newRandom salt'
                          now' t_rotate w')) = true).
Proof.
  intros N I. cbv zeta. rewrite (logout_run req_user supplied salt now w N).
  cbn [snd users].
  set (kept := filter (fun r => negb (token r =? supplied)%string)
                 (refreshTokens req_user)).
  assert (K : forall d, In d (on_id (_id req_user)
                                (fun d => set_refreshTokens kept d) (users w)) ->
                        (_id d = _id req_user /\ refreshTokens d = kept)
                        \/ (_id d <> _id req_user /\ In d (users w))).
  { intros d Hd. unfold on_id in Hd. apply in_map_iff in Hd.
    destruct Hd as (d0 & <- & I0).
    destruct (Nat.eqb (_id d0) (_id req_user)) eqn:X.
    - left. apply Nat.eqb_eq in X. now split.
    - right. apply Nat.eqb_neq in X. now split. }
  assert (G : existsb (fun r => (token r =? supplied)%string) kept = false)
    by apply existsb_filter_out.
  split; [|split].
  - intros d Hd E. destruct (K d Hd) as [[_ R]|[X _]]; [|contradiction].
    unfold holds_refresh. now rewrite R.
  - intros newRandom salt' now' t_rotate S.
    apply refresh_succeeds_iff in S; [|exact N].
    destruct S as (d & Hd & H & _). cbn [users] in Hd.
    destruct (K d Hd) as [[_ R]|[X I0]].
    + unfold holds_refresh in H. rewrite R, G in H. discriminate.
    + exists d. repeat split; assumption.
  - intros other newRandom salt' now' t_rotate r No D Ir Tr Er.
    apply refresh_succeeds_iff; [exact No|]. cbn [users].
    exists (set_refreshTokens kept req_user).
    assert (Ik : In r kept).
    { unfold kept. apply filter_In. split; [exact Ir|].
      rewrite Tr. apply negb_true_iff. now apply String.eqb_neq. }
    split; [|split].
    + unfold on_id. apply in_map_iff. exists req_user.
      now rewrite Nat.eqb_refl.
    + unfold holds_refresh. cbn. apply existsb_exists. exists r.
      split; [exact Ik|]. rewrite Tr. apply String.eqb_refl.
    + exists r. cbn. split; [exact Ik | exact Er].
Qed.

(** ** Changing the password while logged in *)

Lemma refresh_succeeded_find (supplied newRandom salt : string)
    (now t_rotate : Millis) (w : World) :
  supplied <> "" ->
  succeeded (fst (refreshToken (Some supplied) newRandom salt now t_rotate w))
  = match find (refresh_filter supplied now) (users w) with
    | Some _ => true
    | None => false
    end.
Proof.
  intros N. destruct (find (refresh_filter supplied now) (users w)) as [u|] eqn:F.
  - now rewrite (refreshToken_found supplied newRandom salt now t_rotate w u N F).
  - rewrite (refreshToken_not_found supplied newRandom salt now t_rotate w F).
    reflexivity.
Qed.

Lemma updatePassword_refused (req_user this : User) (currentPassword : Js.value)
    (newPassword salt : string) (now : Millis) (w : World) :
  stored w (_id req_user) = Some this ->
  verifies this currentPassword = false ->
  updatePassword true req_user currentPassword newPassword salt now w
  = (Normal (next_error "Current password is incorrect" 401),
     compared w this currentPassword).
Proof.
  intros S V. unfold updatePassword. cbn [negb].
  unfold bind at 1. unfold findById, findOne. unfold stored in S. rewrite S.
  unfold bind.
  destruct (matchPassword_run this currentPassword w) as (v & -> & T & _).
  rewrite T, V. reflexivity.
Qed.

Lemma updatePassword_accepted (req_user this : User) (currentPassword : Js.value)
    (newPassword salt digest : string) (now : Millis) (w : World) :
  stored w (_id req_user) = Some this ->
  verifies this currentPassword = true ->
  password_ok validators newPassword = true ->
  crypt newPassword salt = Some digest ->
  updatePassword true req_user currentPassword newPassword salt now w
  = (Normal (json 200 "Password updated successfully"
               (token_only (getSignedJwtToken (set_password digest this) now))),
     {| users := on_id (_id this) (fun d => set_password digest d) (users w);
        calls := calls w ++ [bcrypt_compare currentPassword (Js.Str (password this))] |}).
Proof.
  intros S V P H. unfold updatePassword. cbn [negb].
  unfold bind at 1. unfold findById, findOne. unfold stored in S. rewrite S.
  unfold bind at 1.
  destruct (matchPassword_run this currentPassword w) as (v & -> & T & _).
  rewrite T, V. cbn [negb].
  unfold bind, save. cbn [isModified existsb Path_eqb orb andb].
  cbn [password set_password]. rewrite P. cbn [negb].
  unfold bind, Bcrypt.hash. rewrite H.
  unfold ret, modify_users, compared. cbn. reflexivity.
Qed.

(** X10. [updatePassword] with a wrong current password answers 401 and
    leaves every stored document as it was.  With the right one and a new
    password the schema accepts, it stores the digest of the new password and
    nothing else changes, so, unlike a password reset, it closes no session:
    every refresh token is redeemable afterwards exactly when it was before.
    The new password then verifies, the digest having the shape of a bcrypt
    digest. *)
Theorem updatePassword_keeps_sessions (req_user this : User)
    (currentPassword : Js.value) (newPassword salt digest : string)
    (now : Millis) (w : World) :
  stored w (_id req_user) = Some this ->
  password_ok validators newPassword = true ->
  crypt newPassword salt = Some digest ->
  String.length digest = 60%nat ->
  crypt newPassword (substring 0 29 digest) = Some digest ->
  let run := updatePassword true req_user currentPassword newPassword salt now w in
  (verifies this currentPassword = false ->
   fst run = Normal (next_error "Current password is incorrect" 401)
   /\ users (snd run) = users w)
  /\ (verifies this currentPassword = true ->
      succeeded (fst run) = true
      /\ (exists u', stored (snd run) (_id req_user) = Some u'
                     /\ password u' = digest
                     /\ refreshTokens u' = refreshTokens this
                     /\ verifies u' (Js.Str newPassword) = true)
      /\ forall (supplied newRandom salt' : string) (now' t_rotate : Millis),
           succeeded (fst (refreshToken (Some supplied) newRandom salt'
                             now' t_rotate (snd run)))
           = succeeded (fst (refreshToken (Some supplied) newRandom salt'
                               now' t_rotate w))).
Proof.
  intros S P H Len Con. cbv zeta. split.
  - intros V. now rewrite (updatePassword_refused req_user this _ _ _ _ w S V).
  - intros V.
    rewrite (updatePassword_accepted req_user this _ _ _ digest _ w S V P H).
    cbn [fst snd users succeeded].
    assert (Eid : _id this = _id req_user).
    { unfold stored in S. apply find_some in S. destruct S as [_ S].
      now apply Nat.eqb_eq in S. }
    split; [reflexivity|]. split.
    + exists (set_password digest this). split.
      * unfold stored. cbn [users]. rewrite <- Eid.
        apply (find_on_id_hit (fun d => Nat.eqb (_id d) (_id this)) this
                 (fun d => set_password digest d)); [intros x; reflexivity|].
        unfold stored in S. now rewrite Eid.
      * split; [reflexivity|]. split; [reflexivity|].
        apply verifies_digest; cbn; assumption.
    + intros supplied newRandom salt' now' t_rotate.
      destruct supplied as [|c rest]; [reflexivity|].
      rewrite !refresh_succeeded_find by discriminate. cbn [users].
      rewrite (find_on_id (refresh_filter (String c rest) now') (_id this)
                 (fun d => set_password digest d) (users w))
        by (intros x; reflexivity).
      destruct (find (refresh_filter (String c rest) now') (users w));
        reflexivity.
Qed.

(** ** The rate limiter *)

Lemma limit_in_window (windowMs max : Z) (userId : string) (times : list Millis) :
  forall (attempts : Attempts) (c : Z) (R : Millis),
    attempts userId = Some {| count := c; resetTime := R |} ->
    (forall t, In t times -> t <= R) ->
    (forall j, (j < List.length times)%nat ->
       nth j (snd (limit_all windowMs max attempts
                     (map (fun t => (userId, t)) times))) too_many
       = if c + Z.of_nat j <? max then passed else too_many)
    /\ fst (limit_all windowMs max attempts (map (fun t => (userId, t)) times))
         userId
       = Some {| count := Z.max c (Z.min (c + Z.of_nat (List.length times)) max);
                 resetTime := R |}.
Proof.
  induction times as [|t times IH]; intros attempts c R E W.
  - cbn. split; [intros j Hj; lia|]. rewrite E. f_equal. f_equal. lia.
  - cbn [map limit_all fst snd]. unfold rateLimitByUser. rewrite E.
    cbn [resetTime count].
    replace (t >? R) with false
      by (symmetry; rewrite Z.gtb_ltb; apply Z.ltb_ge; apply W; now left).
    destruct (c >=? max) eqn:G; rewrite Z.geb_leb in G.
    + apply Z.leb_le in G. cbn [fst snd].
      destruct (IH attempts c R E (fun t' H => W t' (or_intror H))) as [V F].
      split.
      * intros [|j] Hj; cbn [nth].
        -- replace (c + Z.of_nat 0 <? max) with false; [reflexivity|].
           symmetry. apply Z.ltb_ge. lia.
        -- rewrite V by (cbn [List.length] in Hj; lia).
           replace (c + Z.of_nat j <? max) with false
             by (symmetry; apply Z.ltb_ge; lia).
           replace (c + Z.of_nat (S j) <? max) with false
             by (symmetry; apply Z.ltb_ge; lia).
           reflexivity.
      * rewrite F. f_equal. f_equal. cbn [List.length]. lia.
    + apply Z.leb_gt in G. cbn [fst snd].
      destruct (IH (Map_set attempts userId {| count := c + 1; resetTime := R |})
                  (c + 1) R) as [V F].
      { unfold Map_set. now rewrite String.eqb_refl. }
      { intros t' H. apply W. now right. }
      split.
      * intros [|j] Hj; cbn [nth].
        -- replace (c + Z.of_nat 0 <? max) with true; [reflexivity|].
           symmetry. apply Z.ltb_lt. lia.
        -- rewrite V by (cbn [List.length] in Hj; lia).
           replace (c + 1 + Z.of_nat j) with (c + Z.of_nat (S j)) by lia.
           reflexivity.
      * rewrite F. f_equal. f_equal. cbn [List.length]. lia.
Qed.

(** X11. A caller the limiter has not seen gets through with its first
    request, whatever [max] is, and then with its requests up to the
    [max]-th: of the requests it makes until [windowMs] after the first, the
    one at position [j] (from 0) passes exactly when [j = 0] or [j < max],
    and the others are answered 429. *)
Theorem rate_limit_window (windowMs max : Z) (attempts : Attempts)
    (userId : string) (t0 : Millis) (times : list Millis) :
  attempts userId = None ->
  (forall t, In t times -> t <= t0 + windowMs) ->
  forall j, (j <= List.length times)%nat ->
    nth j (snd (limit_all windowMs max attempts
                  (map (fun t => (userId, t)) (t0 :: times)))) too_many
    = if (Nat.eqb j 0 || (Z.of_nat j <? max))%bool then passed else too_many.
Proof.
  intros E W j Hj. cbn [map limit_all fst snd].
  unfold rateLimitByUser. rewrite E. cbn [fst snd].
  destruct j as [|j]; [reflexivity|]. cbn [nth Nat.eqb orb].
  destruct (limit_in_window windowMs max userId times
              (Map_set attempts userId
                 {| count := 1; resetTime := t0 + windowMs |})
              1 (t0 + windowMs)) as [V _].
  - unfold Map_set. now rewrite String.eqb_refl.
  - exact W.
  - rewrite V by lia.
    replace (1 + Z.of_nat j) with (Z.of_nat (S j)) by lia. reflexivity.
Qed.

Lemma limit_one_other (windowMs max : Z) (attempts : Attempts)
    (userId other : string) (now : Millis) :
  (other =? userId)%string = false ->
  fst (rateLimitByUser windowMs max attempts other now) userId = attempts userId.
Proof.
  intros N. unfold rateLimitByUser.
  assert (S : forall e, Map_set attempts other e userId = attempts userId).
  { intros e. unfold Map_set. rewrite String.eqb_sym. now rewrite N. }
  destruct (attempts other) as [ua|]; cbn [fst]; [|apply S].
  destruct (now >? resetTime ua); cbn [fst]; [apply S|].
  destruct (count ua >=? max); cbn [fst]; [reflexivity | apply S].
Qed.

Lemma limit_one_same (windowMs max : Z) (a a' : Attempts)
    (userId : string) (now : Millis) :
  a userId = a' userId ->
  snd (rateLimitByUser windowMs max a userId now)
  = snd (rateLimitByUser windowMs max a' userId now)
  /\ fst (rateLimitByUser windowMs max a userId now) userId
     = fst (rateLimitByUser windowMs max a' userId now) userId.
Proof.
  intros E. unfold rateLimitByUser. rewrite <- E.
  assert (S : forall m e, Map_set m userId e userId = Some e).
  { intros m e. unfold Map_set. now rewrite String.eqb_refl. }
  destruct (a userId) as [ua|] eqn:Ea; cbn [fst snd]; [|now rewrite !S].
  destruct (now >? resetTime ua); cbn [fst snd]; [now rewrite !S|].
  destruct (count ua >=? max); cbn [fst snd];
    [split; [reflexivity | now rewrite Ea] | now rewrite !S].
Qed.

(** X12. Callers do not use up each other's allowance: in any traffic
    through one limiter, the verdicts a caller gets are those it would get if
    its requests were the only ones. *)
Theorem rate_limit_per_caller (windowMs max : Z) (userId : string)
    (requests : list (string * Millis)) (attempts : Attempts) :
  of_caller userId requests (snd (limit_all windowMs max attempts requests))
  = snd (limit_all windowMs max attempts
           (filter (fun r => (fst r =? userId)%string) requests)).
Proof.
  enough (H : forall a a', a userId = a' userId ->
            of_caller userId requests (snd (limit_all windowMs max a requests))
            = snd (limit_all windowMs max a'
                     (filter (fun r => (fst r =? userId)%string) requests)))
    by (apply H; reflexivity).
  induction requests as [|[k t] rest IH]; intros a a' E; [reflexivity|].
  cbn [limit_all snd fst of_caller filter].
  destruct (k =? userId)%string eqn:K.
  - apply String.eqb_eq in K. subst k.
    cbn [limit_all snd fst].
    destruct (limit_one_same windowMs max a a' userId t E) as [V F].
    rewrite V. f_equal. apply IH. exact F.
  - apply IH. rewrite (limit_one_other windowMs max a userId k t K). exact E.
Qed.

(** ** The login route behind the limiter *)

Lemma login_route_all_app (ip : string) (l1 l2 : list LoginCall) :
  forall (attempts : Attempts) (w : World),
    login_route_all attempts ip w (l1 ++ l2)
    = (fst (fst (login_route_all
                   (fst (fst (login_route_all attempts ip w l1))) ip
                   (snd (fst (login_route_all attempts ip w l1))) l2)),
       snd (fst (login_route_all
                   (fst (fst (login_route_all attempts ip w l1))) ip
                   (snd (fst (login_route_all attempts ip w l1))) l2)),
       snd (login_route_all attempts ip w l1)
       ++ snd (login_route_all
                 (fst (fst (login_route_all attempts ip w l1))) ip
                 (snd (fst (login_route_all attempts ip w l1))) l2)).
Proof.
  induction l1 as [|c l1 IH]; intros attempts w.
  - cbn. now destruct (login_route_all attempts ip w l2) as [[a' w'] r'].
  - cbn [app login_route_all fst snd]. rewrite IH. reflexivity.
Qed.

Lemma login_route_limiter (ip : string) (cs : list LoginCall) :
  forall (attempts : Attempts) (w : World),
    fst (fst (login_route_all attempts ip w cs))
    = fst (limit_all (15 * 60 * 1000) 5 attempts
             (map (fun c => (ip, at_limiter c)) cs)).
Proof.
  induction cs as [|c cs IH]; intros attempts w; [reflexivity|].
  cbn [login_route_all map limit_all fst snd]. rewrite IH. f_equal.
  unfold login_route.
  destruct (snd (rateLimitByUser (15 * 60 * 1000) 5 attempts ip (at_limiter c)));
    reflexivity.
Qed.

Lemma login_route_refused (ip : string) (cs : list LoginCall) :
  forall (attempts : Attempts) (w : World) (c : Z) (R : Millis),
    attempts ip = Some {| count := c; resetTime := R |} ->
    5 <= c ->
    (forall x, In x cs -> at_limiter x <= R) ->
    login_route_all attempts ip w cs
    = (attempts, w, repeat (Normal too_many_requests) (List.length cs)).
Proof.
  induction cs as [|x cs IH]; intros attempts w c R E G W; [reflexivity|].
  cbn [login_route_all List.length repeat].
  assert (L : login_route attempts ip x w
              = (attempts, (Normal too_many_requests, w))).
  { unfold login_route, rateLimitByUser. rewrite E. cbn [resetTime count].
    replace (at_limiter x >? R) with false
      by (symmetry; rewrite Z.gtb_ltb; apply Z.ltb_ge; apply W; now left).
    replace (c >=? 5) with true
      by (symmetry; rewrite Z.geb_leb; apply Z.leb_le; lia).
    reflexivity. }
  rewrite L. cbn [fst snd].
  rewrite (IH attempts w c R E G (fun y H => W y (or_intror H))).
  reflexivity.
Qed.

(** X13. From one address, at most five requests in fifteen minutes reach
    [login]: of the login requests an address makes until 900000 ms after its
    first, those after the fifth are all answered 429 by the limiter and
    change nothing in the store: no lookup, no password comparison, no
    failed-attempt count. *)
Theorem login_route_limited (attempts : Attempts) (ip : string) (w : World)
    (first : LoginCall) (next4 more : list LoginCall) :
  attempts ip = None ->
  List.length next4 = 4%nat ->
  (forall c, In c (next4 ++ more) ->
             at_limiter c <= at_limiter first + 15 * 60 * 1000) ->
  login_route_all attempts ip w ((first :: next4) ++ more)
  = (fst (fst (login_route_all attempts ip w (first :: next4))),
     snd (fst (login_route_all attempts ip w (first :: next4))),
     snd (login_route_all attempts ip w (first :: next4))
     ++ repeat (Normal too_many_requests) (List.length more)).
Proof.
  intros E Len W. rewrite login_route_all_app.
  set (s := login_route_all attempts ip w (first :: next4)).
  assert (A : fst (fst s) ip
              = Some {| count := 5; resetTime := at_limiter first + 15 * 60 * 1000 |}).
  { unfold s. rewrite login_route_limiter.
    cbn [map limit_all fst snd]. unfold rateLimitByUser at 1. rewrite E.
    cbn [fst].
    destruct (limit_in_window (15 * 60 * 1000) 5 ip (map at_limiter next4)
                (Map_set attempts ip
                   {| count := 1;
                      resetTime := at_limiter first + 15 * 60 * 1000 |})
                1 (at_limiter first + 15 * 60 * 1000)) as [_ F].
    - unfold Map_set. now rewrite String.eqb_refl.
    - intros t Ht. apply in_map_iff in Ht. destruct Ht as (c & <- & Ic).
      apply W. apply in_or_app. now left.
    - rewrite map_map in F. rewrite F. rewrite length_map, Len.
      reflexivity. }
  rewrite (login_route_refused ip more (fst (fst s)) (snd (fst s)) 5
             (at_limiter first + 15 * 60 * 1000) A).
  - reflexivity.
  - lia.
  - intros x Hx. apply W. apply in_or_app. now right.
Qed.

(** ** The reset-password route *)

(** X14. Through its route the password reset never reaches the token:
    [validateToken] validates the route parameter [token], the route binds
    [resettoken], so the validator sees an absent value and reports its
    error, and [resetPassword] answers 400 "Validation error" for every
    token, every new password and every verdict on the body, leaving the
    store as it is. *)
Theorem reset_password_route_always_400 (resettoken : string) (body_valid : bool)
    (body_password salt : string) (now t_save : Millis) (w : World) :
  reset_password_route resettoken body_valid body_password salt now t_save w
  = (Normal (next_error "Validation error" 400), w).
Proof.
  unfold reset_password_route. cbv zeta.
  assert (V : validateToken [("resettoken", resettoken)] = false) by reflexivity.
  rewrite V. reflexivity.
Qed.

(** ** The soft delete *)

Lemma deleteUser_run (param_id : nat) (w : World) (u : User) :
  stored w param_id = Some u ->
  deleteUser param_id w
  = (Normal (json 200 "" no_data),
     {| users := on_id (_id u)
                   (fun d => set_status (set_isActive false (status d)) d)
                   (users w);
        calls := calls w |}).
Proof.
  intros S. unfold deleteUser, bind, findById, findOne.
  unfold stored in S. now rewrite S.
Qed.

(** X15. [deleteUser] deactivates and deletes nothing: the document stays,
    with [status.isActive] false.  From then on [protect] refuses every valid
    access token of the account with 401, but [login] does not look at the
    flag: with the right password it still succeeds and hands out a new
    token pair, which [protect] then refuses. *)
Theorem deactivated_account_can_log_in (identifier : string) (w : World)
    (u : User) (pw : Js.value) (random salt : string)
    (now later t_session t_save : Millis) (req : Credentials) (now' : Millis) :
  account w identifier = Some u ->
  stored w (_id u) = Some u ->
  isLocked u now = false ->
  verifies u pw = true ->
  presented req = Some (getSignedJwtToken u t_session) ->
  now' / 1000 < t_session / 1000 + JWT_EXPIRE env ->
  let w1 := snd (deleteUser (_id u) w) in
  let run := login true identifier pw random salt now later t_session t_save w1 in
  List.length (users w1) = List.length (users w)
  /\ (exists u1, account w1 identifier = Some u1
                 /\ isActive (status u1) = false)
  /\ succeeded (fst run) = true
  /\ fst (protect req now' w1)
     = Normal (next_error "User account is deacrivated" 401)
  /\ fst (protect req now' (snd run))
     = Normal (next_error "User account is deacrivated" 401).
Proof.
  intros A S L V P Lt. cbv zeta.
  rewrite (deleteUser_run (_id u) w u S). cbn [snd].
  set (off := fun d => set_status (set_isActive false (status d)) d).
  set (w1 := {| users := on_id (_id u) off (users w); calls := calls w |}).
  assert (A1 : account w1 identifier = Some (off u)).
  { unfold account, w1. cbn [users].
    apply (find_on_id_hit (by_identifier identifier) u off);
      [intros x; reflexivity | exact A]. }
  assert (S1 : stored w1 (_id (off u)) = Some (off u)).
  { unfold stored, w1. cbn [users].
    apply (find_on_id_hit (fun d => Nat.eqb (_id d) (_id u)) u off);
      [intros x; reflexivity | exact S]. }
  assert (T : forall w',
            stored w' (_id u) <> None ->
            (forall d, stored w' (_id u) = Some d -> isActive (status d) = false) ->
            fst (protect req now' w')
            = Normal (next_error "User account is deacrivated" 401)).
  { intros w' Hs Ha. rewrite protect_answer, P. unfold getSignedJwtToken, Jwt.sign. cbn [Jwt.exp Jwt.id].
    rewrite String.eqb_refl. cbn [negb].
    replace (now' / 1000 >=? t_session / 1000 + JWT_EXPIRE env) with false
      by (symmetry; rewrite Z.geb_leb; apply Z.leb_gt; lia).
    destruct (stored w' (_id u)) as [d|]; [|congruence].
    now rewrite (Ha d eq_refl). }
  split; [unfold w1, on_id; cbn [users]; apply length_map|].
  split; [exists (off u); split; [exact A1 | reflexivity]|].
  assert (V1 : verifies (off u) pw = true) by exact V.
  split.
  { destruct (login_success_account identifier pw random salt now later
                t_session t_save w1 (off u) A1 V1)
      as ((saved & access & E) & _).
    now rewrite E. }
  split.
  - apply T.
    + change (_id u) with (_id (off u)). now rewrite S1.
    + intros d Hd. change (_id u) with (_id (off u)) in Hd.
      rewrite S1 in Hd. now injection Hd as <-.
  - pose proof (login_success_users identifier pw random salt now later
                  t_session t_save w1 (off u) A1 V1) as E.
    set (G := after_login (off u) random t_session t_save) in E.
    assert (HG : forall d, _id (G d) = _id d
                           /\ isActive (status (G d)) = isActive (status d)).
    { intros d. unfold G.
      destruct (after_login_keeps (off u) random t_session t_save d)
        as (I & _ & _ & _ & Ac).
      now split. }
    assert (S2 : stored (snd (login true identifier pw random salt now later
                                t_session t_save w1)) (_id u)
                 = Some (G (off u))).
    { unfold stored. rewrite E.
      apply (stored_on_id w1 (off u) G (fun d => proj1 (HG d)) S1). }
    apply T.
    + now rewrite S2.
    + intros d Hd. rewrite S2 in Hd. injection Hd as <-.
      destruct (HG (off u)) as (_ & Ha). now rewrite Ha.
Qed.

(** ** The age virtual *)

(** X16. [profile.age] is absent without a date of birth; otherwise it is
    the number of completed years, except on the days of the birth month
    before the birthday, where it is one more: the getter compares the day of
    today with itself, so only the month decides. *)
Theorem age_ignores_the_day (birthDate today : CalendarDate) :
  age None today = None
  /\ age (Some birthDate) today
     = Some (years_completed birthDate today
             + (if ((month today =? month birthDate)
                    && (date today <? date birthDate))%bool
                then 1 else 0)).
Proof.
  split; [reflexivity|]. unfold age, years_completed. cbv zeta.
  rewrite Z.ltb_irrefl, andb_false_r, orb_false_r.
  destruct (month today - month birthDate <? 0) eqn:M;
    [apply Z.ltb_lt in M | apply Z.ltb_ge in M].
  - replace (month today <? month birthDate) with true
      by (symmetry; apply Z.ltb_lt; lia).
    replace (month today =? month birthDate) with false
      by (symmetry; apply Z.eqb_neq; lia).
    cbn [orb andb]. f_equal. lia.
  - replace (month today <? month birthDate) with false
      by (symmetry; apply Z.ltb_ge; lia).
    cbn [orb].
    destruct ((month today =? month birthDate)
              && (date today <? date birthDate))%bool; f_equal; lia.
Qed.

(** ** Invariants every handler keeps *)

Lemma step_from {A} (P Q R : World -> Prop) (m : M A) :
  (forall w, P w -> Q w) -> step Q m R -> step P m R.
Proof. intros I S w H. apply S. now apply I. Qed.

Section Kept.

(** A property of the store that [save], on a document loaded whole or
    under a projection, [updateOne] and [create] keep is kept by every
    handler of the auth routes. *)
Variable P : World -> Prop.
Hypothesis P_users : forall w w', users w' = users w -> P w -> P w'.
Hypothesis P_save :
  forall this modified v salt now, step P (save this modified v salt now) P.
Hypothesis P_loaded_save :
  forall this modified v salt now,
    step P (Loaded.save crypt validators this modified v salt now) P.
Hypothesis P_update :
  forall this update, step P (Loaded.updateOne this update) P.
Hypothesis P_create :
  forall newId un em pw salt now,
    step (fun w => P w /\ forall d, In d (users w) -> _id d <> newId)
      (create newId un em pw salt now) P.

Lemma kept_matchPassword (this : User) (pw : Js.value) :
  step P (matchPassword this pw) P.
Proof.
  intros w H. destruct (matchPassword_run this pw w) as (v & -> & _).
  now apply (P_users w (compared w this pw)).
Qed.

Lemma kept_sendEmail (to subject : string) (delivered : bool) :
  step P (sendEmail to subject delivered) P.
Proof.
  intros w H. unfold sendEmail, bind, call.
  destruct delivered; cbn; now apply (P_users w).
Qed.

Lemma kept_loaded_matchPassword (this : Loaded.document) (pw : Js.value) :
  step P (Loaded.matchPassword crypt this pw) P.
Proof.
  intros w H. unfold Loaded.matchPassword, try_catch, bind, call.
  destruct (Bcrypt.compare crypt pw (Loaded.password_value this));
    cbn; now apply (P_users w).
Qed.

Lemma kept_incLoginAttempts (this : Loaded.document) (now : Millis) :
  step P (Loaded.incLoginAttempts env this now) P.
Proof.
  unfold Loaded.incLoginAttempts. cbv zeta.
  destruct (match Loaded.lockUntil this with Some l => l <? now | None => false end);
    [apply P_update|].
  destruct (match Loaded.loginAttempts this with
            | Some n => n + 1 >=? MAX_LOGIN_ATTEMPTS env
            | None => false
            end); apply P_update.
Qed.

Lemma kept_generateRefreshToken (this : Loaded.document) (random : string)
    (now : Millis) :
  step P (Loaded.generateRefreshToken this random now) P.
Proof.
  unfold Loaded.generateRefreshToken.
  destruct (Loaded.refreshTokens this); [apply step_ret | apply step_throw].
Qed.

Ltac keep_through :=
  repeat match goal with
    | |- step _ (ret _) _ => apply step_ret
    | |- step _ (throw _) _ => apply step_throw
    | |- step _ (findOne _) _ => apply step_findOne
    | |- step _ (findById _) _ => apply step_findOne
    | |- step _ (protect _ _) _ => apply step_protect
    | |- step _ (save _ _ _ _ _) _ => apply P_save
    | |- step _ (Loaded.save _ _ _ _ _ _ _) _ => apply P_loaded_save
    | |- step _ (Loaded.updateOne _ _) _ => apply P_update
    | |- step _ (Loaded.incLoginAttempts _ _ _) _ => apply kept_incLoginAttempts
    | |- step _ (Loaded.matchPassword _ _ _) _ => apply kept_loaded_matchPassword
    | |- step _ (Loaded.generateRefreshToken _ _ _) _ =>
        apply kept_generateRefreshToken
    | |- step _ (sendEmail _ _ _) _ => apply kept_sendEmail
    | |- step _ (matchPassword _ _) _ => apply kept_matchPassword
    | |- step _ (try_catch _ _) _ => apply step_try_catch
    | |- step _ (bind _ _) _ =>
        apply (step_bind P P P); [ | | intros ? ?; assumption ]
    | |- step _ (if ?b then _ else _) _ => destruct b
    | |- step _ (match ?x with _ => _ end) _ => destruct x
    | |- forall _, _ => intros ?
    end.

Lemma kept_by_handle (r : Request) :
  step (fun w => P w /\ mints_fresh_id r w) (handle r) P.
Proof.
  destruct r; cbn [handle mints_fresh_id].
  - (* register *)
    intros w [H F]. unfold register.
    destruct errors_isEmpty; cbn [negb]; [|exact H].
    unfold bind at 1. unfold findOne at 1.
    destruct (find _ (users w)) as [existing|]; [exact H|].
    apply (step_bind
             (fun w => P w /\ forall d, In d (users w) -> _id d <> newId) P P);
      [ apply P_create
      | intros created; cbv zeta; keep_through
      | intros ? ?; assumption
      | split; assumption ].
  - (* login *)
    apply (step_from _ P); [intros w [H _]; exact H|].
    unfold login, getAuthenticatedUser. cbv zeta. keep_through.
  - apply (step_from _ P); [intros w [H _]; exact H|].
    unfold forgotPassword. cbv zeta. keep_through.
  - apply (step_from _ P); [intros w [H _]; exact H|].
    unfold resetPassword. cbv zeta. keep_through.
  - apply (step_from _ P); [intros w [H _]; exact H|].
    unfold verifyEmail. cbv zeta. keep_through.
  - apply (step_from _ P); [intros w [H _]; exact H|].
    unfold refreshToken. cbv zeta. keep_through.
  - apply (step_from _ P); [intros w [H _]; exact H|].
    unfold authenticated, logout. keep_through.
  - apply (step_from _ P); [intros w [H _]; exact H|].
    unfold authenticated, logoutAll. keep_through.
  - apply (step_from _ P); [intros w [H _]; exact H|].
    unfold authenticated, updatePassword. keep_through.
  - apply (step_from _ P); [intros w [H _]; exact H|].
    unfold authenticated, resendVerification. cbv zeta. keep_through.
Qed.

Hypothesis P_empty : P {| users := []; calls := [] |}.

Lemma kept_in_reachable (t : Millis) (w : World) : reachable t w -> P w.
Proof.
  induction 1 as [t|t w r R IH B O F]; [exact P_empty|].
  apply (kept_by_handle r). split; assumption.
Qed.

End Kept.

Lemma loaded_write_path_keeps (this : Loaded.document) (d : User) (p : Path) :
  _id (Loaded.write_path this d p) = _id d
  /\ username (Loaded.write_path this d p) = username d
  /\ email (Loaded.write_path this d p) = email d.
Proof.
  destruct p; cbn [Loaded.write_path]; try (repeat split; fail);
    match goal with
    | |- context [match ?x with _ => _ end] => destruct x
    end; repeat split.
Qed.

Lemma loaded_written_keeps (this : Loaded.document) (paths : list Path)
    (d : User) :
  _id (fold_left (Loaded.write_path this) paths d) = _id d
  /\ username (fold_left (Loaded.write_path this) paths d) = username d
  /\ email (fold_left (Loaded.write_path this) paths d) = email d.
Proof.
  revert d. induction paths as [|p paths IH]; intros d; simpl.
  - repeat split.
  - destruct (IH (Loaded.write_path this d p)) as (A & B & C).
    destruct (loaded_write_path_keeps this d p) as (A' & B' & C').
    repeat split; congruence.
Qed.

(** [save] of a loaded document leaves the store alone or writes paths of
    one document in memory into the stored one. *)
Lemma loaded_save_writes (this : Loaded.document) (modified : list Path)
    (v : bool) (salt : string) (now : Millis) (w : World) :
  snd (Loaded.save crypt validators this modified v salt now w) = w
  \/ exists x paths,
       snd (Loaded.save crypt validators this modified v salt now w)
       = {| users := on_id (Loaded._id this)
                       (fun d => fold_left (Loaded.write_path x) paths d)
                       (users w);
            calls := calls w |}.
Proof.
  unfold Loaded.save.
  destruct (v && isModified password_path modified && negb _)%bool;
    [now left|].
  unfold bind.
  destruct (isModified password_path modified).
  - destruct (Loaded.password this) as [p|]; [|now left].
    destruct (Bcrypt.hash crypt p salt) as [digest|e]; [|now left].
    right. cbn. eexists. eexists. reflexivity.
  - right. cbn. eexists. eexists. reflexivity.
Qed.

Lemma map_on_id_field {B} (f : User -> B) (i : nat) (g : User -> User) (db : Db) :
  (forall d, f (g d) = f d) -> map f (on_id i g db) = map f db.
Proof.
  intros H. unfold on_id. rewrite map_map. apply map_ext. intros d.
  destruct (Nat.eqb (_id d) i); [apply H | reflexivity].
Qed.

Lemma unique_on_id (i : nat) (g : User -> User) (w : World) (log : list Call) :
  (forall d, _id (g d) = _id d /\ username (g d) = username d
             /\ email (g d) = email d) ->
  unique_accounts w ->
  unique_accounts {| users := on_id i g (users w); calls := log |}.
Proof.
  intros G (A & B & C). unfold unique_accounts. cbn [users].
  rewrite !map_on_id_field by (intros d; apply G). now repeat split.
Qed.

Lemma nodup_snoc {B} (l : list B) (x : B) :
  NoDup l -> ~ In x l -> NoDup (l ++ [x]).
Proof.
  intros N I. apply NoDup_app; [exact N | constructor; [intros []|constructor] |].
  intros a Ha [<-|[]]. exact (I Ha).
Qed.

(** X17. Handles, emails and ids stay unique: in every world reachable from
    the empty store by requests to the auth routes, no two accounts share an
    [_id], a username or an email.  An insert is refused by the unique
    indexes on [username] and [email] (the duplicate-key error of [create])
    and a new document gets a fresh [_id]; no write of a handler after the
    insert touches the three fields. *)
Theorem accounts_stay_unique (t : Millis) (w : World) :
  reachable t w -> unique_accounts w.
Proof.
  apply (kept_in_reachable unique_accounts).
  - intros w0 w' E. unfold unique_accounts. now rewrite E.
  - (* save *)
    intros this modified v salt now w0 H. unfold save.
    destruct (v && isModified password_path modified
              && negb (password_ok validators (password this)))%bool;
      [exact H|].
    unfold bind.
    assert (K : forall x paths,
              unique_accounts
                {| users := on_id (_id this)
                              (fun d => fold_left (write_path x) paths d)
                              (users w0);
                   calls := calls w0 |}).
    { intros x paths. apply unique_on_id; [|exact H]. intros d.
      destruct (written_keeps x paths d) as (A & B & C & _). now repeat split. }
    destruct (isModified password_path modified).
    + destruct (Bcrypt.hash crypt (password this) salt) as [digest|e];
        cbn; [apply K | exact H].
    + cbn. apply K.
  - (* save, on a document loaded under a projection *)
    intros this modified v salt now w0 H.
    destruct (loaded_save_writes this modified v salt now w0)
      as [-> | (x & paths & ->)]; [exact H|].
    apply unique_on_id; [|exact H]. intros d.
    destruct (loaded_written_keeps x paths d) as (A & B & C). now repeat split.
  - (* updateOne *)
    intros this update w0 H. unfold Loaded.updateOne, modify_users. cbn [snd].
    apply unique_on_id; [|exact H]. intros d.
    destruct (update_keeps update d) as (A & B & C & _). now repeat split.
  - (* create *)
    intros newId un em pw salt now w0 [(A & B & C) Fresh].
    unfold create. cbv zeta.
    destruct (negb _); [now repeat split|].
    destruct (Bcrypt.hash crypt pw salt) as [digest|e]; [|now repeat split].
    unfold bind, findOne, modify_users, ret.
    destruct (find _ (users w0)) eqn:F; [now repeat split|].
    cbn [snd]. unfold unique_accounts. cbn [users].
    rewrite !map_app. cbn [map _id username email].
    assert (N : forall d, In d (users w0) ->
                          username d <> trim un
                          /\ email d <> toLowerCase (trim em)).
    { intros d Id. pose proof (find_none _ _ F d Id) as X. cbn beta in X.
      apply orb_false_elim in X. destruct X as [X Y].
      apply String.eqb_neq in X. apply String.eqb_neq in Y. now split. }
    repeat split; apply nodup_snoc; try assumption.
    + intros I. apply in_map_iff in I. destruct I as (d & E & Id).
      exact (Fresh d Id E).
    + intros I. apply in_map_iff in I. destruct I as (d & E & Id).
      exact (proj1 (N d Id) E).
    + intros I. apply in_map_iff in I. destruct I as (d & E & Id).
      exact (proj2 (N d Id) E).
  - repeat split; constructor.
Qed.

Lemma written_password (x : User) (paths : list Path) (d : User) :
  password (fold_left (write_path x) paths d)
  = if isModified password_path paths then password x else password d.
Proof.
  revert d. induction paths as [|p paths IH]; intros d; [reflexivity|].
  cbn [fold_left isModified existsb]. rewrite IH.
  unfold isModified. destruct p; cbn [Path_eqb orb write_path];
    try reflexivity.
  now destruct (existsb (Path_eqb password_path) paths).
Qed.

Lemma loaded_written_password (x : Loaded.document) (paths : list Path)
    (d : User) :
  password (fold_left (Loaded.write_path x) paths d)
  = if isModified password_path paths
    then match Loaded.password x with Some v => v | None => password d end
    else password d.
Proof.
  revert d. induction paths as [|p paths IH]; intros d; [reflexivity|].
  cbn [fold_left isModified existsb]. rewrite IH.
  unfold isModified.
  destruct p; cbn [Path_eqb orb Loaded.write_path];
    destruct (existsb (Path_eqb password_path) paths);
    destruct (Loaded.password x);
    try reflexivity;
    try (destruct (Loaded.refreshTokens x); reflexivity);
    try (destruct (Loaded.lastSeen x); reflexivity).
Qed.

(** X18. The plain password is never stored: in every world reachable from
    the empty store by requests to the auth routes, every stored password is
    a digest the hasher has produced. *)
Theorem passwords_stay_hashed (t : Millis) (w : World) :
  reachable t w -> passwords_hashed w.
Proof.
  apply (kept_in_reachable passwords_hashed).
  - intros w0 w' E. unfold passwords_hashed. now rewrite E.
  - (* save *)
    intros this modified v salt now w0 H. unfold save.
    destruct (v && isModified password_path modified
              && negb (password_ok validators (password this)))%bool;
      [exact H|].
    unfold bind.
    destruct (isModified password_path modified) eqn:Mp.
    + unfold Bcrypt.hash.
      destruct (crypt (password this) salt) as [digest|] eqn:Hd;
        cbn; [|exact H].
      intros u I. unfold on_id in I. apply in_map_iff in I.
      destruct I as (d & <- & Id).
      destruct (Nat.eqb (_id d) (_id this)); [|now apply H].
      rewrite written_password.
      destruct (isModified lastLogin_path modified); cbn [fst snd].
      * cbn [isModified existsb Path_eqb orb].
        change (existsb (Path_eqb password_path) modified)
          with (isModified password_path modified).
        rewrite Mp. cbn. now exists (password this), salt.
      * rewrite Mp. cbn. now exists (password this), salt.
    + cbn. intros u I. unfold on_id in I. apply in_map_iff in I.
      destruct I as (d & <- & Id).
      destruct (Nat.eqb (_id d) (_id this)); [|now apply H].
      rewrite written_password.
      destruct (isModified lastLogin_path modified); cbn [fst snd].
      * cbn [isModified existsb Path_eqb orb].
        change (existsb (Path_eqb password_path) modified)
          with (isModified password_path modified).
        rewrite Mp. now apply H.
      * rewrite Mp. now apply H.
  - (* save, on a document loaded under a projection *)
    intros this modified v salt now w0 H. unfold Loaded.save.
    destruct (v && isModified password_path modified && negb _)%bool;
      [exact H|].
    unfold bind.
    assert (K : forall x paths,
              (isModified password_path paths = true ->
               exists s salt', crypt s salt' = Loaded.password x) ->
              passwords_hashed
                {| users := on_id (Loaded._id this)
                              (fun d => fold_left (Loaded.write_path x) paths d)
                              (users w0);
                   calls := calls w0 |}).
    { intros x paths Hx u I. cbn [users] in I. unfold on_id in I.
      apply in_map_iff in I. destruct I as (d & <- & Id).
      destruct (Nat.eqb (_id d) (Loaded._id this)); [|now apply H].
      rewrite loaded_written_password.
      destruct (isModified password_path paths); [|now apply H].
      destruct (Loaded.password x) as [p|] eqn:Px; [|now apply H].
      destruct (Hx eq_refl) as (s & salt' & E). now exists s, salt'. }
    destruct (isModified password_path modified) eqn:Mp.
    + destruct (Loaded.password this) as [p|]; [|exact H].
      unfold Bcrypt.hash.
      destruct (crypt p salt) as [digest|] eqn:Hd; [|exact H].
      cbn [snd fst ret modify_users]. apply K. intros _.
      destruct (isModified lastLogin_path modified); cbn; now exists p, salt.
    + cbn [snd fst ret modify_users]. apply K.
      destruct (isModified lastLogin_path modified); cbn [fst snd].
      * cbn [isModified existsb Path_eqb orb].
        change (existsb (Path_eqb password_path) modified)
          with (isModified password_path modified).
        rewrite Mp. discriminate.
      * rewrite Mp. discriminate.
  - (* updateOne *)
    intros this update w0 H. unfold Loaded.updateOne, modify_users. cbn [snd].
    intros u I. cbn [users] in I. unfold on_id in I. apply in_map_iff in I.
    destruct I as (d & <- & Id).
    destruct (Nat.eqb (_id d) (Loaded._id this)); [|now apply H].
    destruct (update_keeps update d) as (_ & _ & _ & -> & _). now apply H.
  - (* create *)
    intros newId un em pw salt now w0 [H _].
    unfold create. cbv zeta.
    destruct (negb _); [exact H|].
    unfold Bcrypt.hash.
    destruct (crypt pw salt) as [digest|] eqn:Hd; [|exact H].
    unfold bind, findOne, modify_users, ret.
    destruct (find _ (users w0)); [exact H|].
    cbn [snd]. intros u I. cbn [users] in I. apply in_app_or in I.
    destruct I as [I|[<-|[]]]; [now apply H|].
    cbn. now exists pw, salt.
  - intros u [].
Qed.

(** ** The comment routes *)

Lemma filter_filter {B} (p q : B -> bool) (l : list B) :
  filter p (filter q l) = filter (fun x => (q x && p x)%bool) l.
Proof.
  induction l as [|a l IH]; [reflexivity|]. cbn.
  destruct (q a); cbn; [destruct (p a)|]; now rewrite IH.
Qed.

Lemma filter_nothing {B} (p : B -> bool) (l : list B) :
  (forall x, In x l -> p x = false) -> filter p l = [].
Proof.
  induction l as [|a l IH]; intros H; [reflexivity|]. cbn.
  rewrite (H a (or_introl eq_refl)). apply IH. intros x I. apply H. now right.
Qed.

Lemma filter_split_length {B} (p r : B -> bool) (l : list B) :
  List.length (filter p l)
  = (List.length (filter (fun x => (p x && r x)%bool) l)
     + List.length (filter (fun x => (p x && negb (r x))%bool) l))%nat.
Proof.
  induction l as [|a l IH]; [reflexivity|]. cbn.
  destruct (p a), (r a); cbn; lia.
Qed.

Lemma filter_one (p : Comment -> bool) (x : Comment) (cs : list Comment) :
  NoDup (map comment_id cs) -> In x cs ->
  List.length
    (filter (fun c => (p c && Nat.eqb (comment_id c) (comment_id x))%bool) cs)
  = if p x then 1%nat else 0%nat.
Proof.
  induction cs as [|a l IH]; intros N I; [destruct I|].
  cbn [map] in N. inversion N as [|? ? Na Nl]; subst. cbn [filter].
  destruct I as [->|I].
  - rewrite Nat.eqb_refl, andb_true_r.
    rewrite (filter_nothing _ l).
    + now destruct (p x).
    + intros c Ic. destruct (Nat.eqb_spec (comment_id c) (comment_id x)) as [E|];
        [|apply andb_false_r].
      exfalso. apply Na. rewrite <- E. now apply in_map.
  - destruct (Nat.eqb_spec (comment_id a) (comment_id x)) as [E|].
    + exfalso. apply Na. rewrite E. now apply in_map.
    + rewrite andb_false_r. now apply IH.
Qed.

Lemma replies_to_map (g : Comment -> Comment) (i : nat) (cs : list Comment) :
  (forall d, parentComment (g d) = parentComment d) ->
  List.length (replies_to i (map g cs)) = List.length (replies_to i cs).
Proof.
  intros G. unfold replies_to. induction cs as [|a l IH]; [reflexivity|].
  cbn. rewrite G. destruct (opt_nat_eqb _ _); cbn; now rewrite IH.
Qed.

Lemma opt_nat_eqb_spec (a b : option nat) :
  opt_nat_eqb a b = true <-> a = b.
Proof.
  destruct a, b; cbn; split; try congruence; try tauto.
  - intros E. apply Nat.eqb_eq in E. now subst.
  - intros [= ->]. apply Nat.eqb_refl.
Qed.

Lemma find_comment (i : nat) (f : Forum) (c : Comment) :
  Comment_findById i f = Some c -> In c (comments f) /\ comment_id c = i.
Proof.
  intros F. apply find_some in F. destruct F as [I E].
  apply Nat.eqb_eq in E. now split.
Qed.

(** A map that keeps the skeleton of every comment keeps the invariant, when
    the likes it writes are exact. *)
Lemma comments_ok_map (g : Comment -> Comment) (cs : list Comment) :
  (forall d, comment_id (g d) = comment_id d
             /\ parentComment (g d) = parentComment d
             /\ post (g d) = post d
             /\ replyCount (g d) = replyCount d) ->
  (forall d, In d cs -> likes_exact (g d)) ->
  comments_ok cs -> comments_ok (map g cs).
Proof.
  intros G L (N & _ & R & P). repeat split.
  - rewrite map_map. erewrite map_ext; [exact N|]. intros d. apply G.
  - apply in_map_iff in H. destruct H as (d & <- & I). now apply L.
  - apply in_map_iff in H. destruct H as (d & <- & I). now apply L.
  - intros c I. apply in_map_iff in I. destruct I as (d & <- & I).
    unfold replies_exact.
    destruct (G d) as (-> & _ & _ & ->).
    rewrite replies_to_map by (intros x; apply G). now apply R.
  - intros c p Ic Ip E.
    apply in_map_iff in Ic. destruct Ic as (c0 & <- & Ic).
    apply in_map_iff in Ip. destruct Ip as (p0 & <- & Ip).
    destruct (G c0) as (_ & Ec & -> & _).
    destruct (G p0) as (Ep & _ & -> & _).
    apply P; congruence.
Qed.
Lemma same_id_same_comment (cs : list Comment) (a b : Comment) :
  NoDup (map comment_id cs) -> In a cs -> In b cs ->
  comment_id a = comment_id b -> a = b.
Proof.
  induction cs as [|x l IH]; intros N Ia Ib E; [destruct Ia|].
  cbn [map] in N. inversion N as [|? ? Nx Nl]; subst.
  destruct Ia as [->|Ia], Ib as [->|Ib]; try reflexivity.
  - exfalso. apply Nx. rewrite E. now apply in_map.
  - exfalso. apply Nx. rewrite <- E. now apply in_map.
  - now apply IH.
Qed.

Lemma filter_map_length {B} (r r' : B -> bool) (g : B -> B) (l : list B) :
  (forall d, r (g d) = r' d) ->
  List.length (filter r (map g l)) = List.length (filter r' l).
Proof.
  intros H. induction l as [|a l IH]; [reflexivity|]. cbn. rewrite H.
  destruct (r' a); cbn; now rewrite IH.
Qed.

Lemma nodup_map_filter {B} (k : B -> nat) (q : B -> bool) (l : list B) :
  NoDup (map k l) -> NoDup (map k (filter q l)).
Proof.
  induction l as [|a l IH]; intros N; [constructor|].
  cbn [map] in N. inversion N as [|? ? Na Nl]; subst. cbn [filter].
  destruct (q a); [|now apply IH]. cbn [map]. constructor; [|now apply IH].
  intros I. apply Na. apply in_map_iff in I. destruct I as (x & E & I).
  apply filter_In in I. rewrite <- E. apply in_map. tauto.
Qed.

Lemma inc_replyCount_keeps (i : nat) (n : Z) (d : Comment) :
  let g := fun c => if Nat.eqb (comment_id c) i
                    then set_replyCount (replyCount c + n) c else c in
  comment_id (g d) = comment_id d
  /\ parentComment (g d) = parentComment d
  /\ post (g d) = post d
  /\ likes (g d) = likes d
  /\ likeCount (g d) = likeCount d
  /\ content (g d) = content d
  /\ author (g d) = author d
  /\ replyCount (g d)
     = replyCount d + (if Nat.eqb (comment_id d) i then n else 0).
Proof.
  cbv beta zeta. destruct (Nat.eqb (comment_id d) i); cbn; repeat split; lia.
Qed.

(** *** [likeComment] *)

Lemma likers_filter (u : nat) (ls : list Like) :
  map like_user (filter (fun like => negb (Nat.eqb (like_user like) u)) ls)
  = filter (fun v => negb (Nat.eqb v u)) (map like_user ls).
Proof.
  induction ls as [|a l IH]; [reflexivity|]. cbn.
  destruct (Nat.eqb (like_user a) u); cbn; now rewrite IH.
Qed.

Lemma nodup_without (u : nat) (l : list nat) :
  NoDup l -> In u l ->
  S (List.length (filter (fun v => negb (Nat.eqb v u)) l)) = List.length l.
Proof.
  induction l as [|a l IH]; intros N I; [destruct I|].
  inversion N as [|? ? Na Nl]; subst. cbn [filter].
  destruct I as [->|I].
  - rewrite Nat.eqb_refl. cbn [negb List.length]. f_equal.
    f_equal. rewrite forallb_filter_id; [reflexivity|].
    apply forallb_forall. intros v Iv.
    destruct (Nat.eqb_spec v u) as [->|]; [contradiction | reflexivity].
  - destruct (Nat.eqb_spec a u) as [->|]; [contradiction|].
    cbn [negb List.length]. f_equal. now apply IH.
Qed.

(** The comment [likeComment] saves, from the one it found. *)
Lemma toggled_exact (found : Comment) (userId : nat) (now : Millis) :
  likes_exact found ->
  likes_exact
    match find (fun like => Nat.eqb (like_user like) userId) (likes found) with
    | Some _ =>
        set_likeCount (Z.max 0 (likeCount found - 1))
          (set_likes
             (filter (fun like => negb (Nat.eqb (like_user like) userId))
                (likes found)) found)
    | None =>
        set_likeCount (likeCount found + 1)
          (set_likes
             (likes found
              ++ [{| like_user := userId; like_createdAt := now |}])
             found)
    end.
Proof.
  intros [C N]. destruct (find _ (likes found)) as [l|] eqn:F;
    unfold likes_exact; cbn [likes likeCount set_likeCount set_likes].
  - apply find_some in F. destruct F as [I E]. apply Nat.eqb_eq in E.
    assert (Iu : In userId (map like_user (likes found))).
    { rewrite <- E. now apply in_map. }
    pose proof (nodup_without userId _ N Iu) as K.
    rewrite <- likers_filter in K. rewrite !length_map in K.
    split; [lia|]. rewrite likers_filter. now apply NoDup_filter.
  - split.
    + rewrite length_app. cbn [List.length]. lia.
    + rewrite map_app. apply nodup_snoc; [exact N|]. cbn [map like_user].
      intros I. apply in_map_iff in I. destruct I as (l & E & I).
      pose proof (find_none _ _ F l I) as X. cbn beta in X.
      rewrite E, Nat.eqb_refl in X. discriminate.
Qed.

Lemma likeComment_ok (commentId userId : nat) (now : Millis) (f : Forum) :
  comments_ok (comments f) ->
  comments_ok (comments (snd (likeComment commentId userId now f))).
Proof.
  intros H. unfold likeComment.
  destruct (Comment_findById commentId f) as [found|] eqn:F; [|exact H].
  apply find_comment in F. destruct F as [I _].
  unfold Comment_save, writes_content.
  cbn [existsb orb andb comment_pre_save snd comments set_comments].
  apply comments_ok_map; [| |exact H].
  - intros d. destruct (Nat.eqb (comment_id d) _); [|now repeat split].
    cbn [fold_left write_comment_path].
    now destruct (find _ (likes found)).
  - intros d Id. destruct H as (_ & L & _).
    destruct (Nat.eqb (comment_id d) _); [|now apply L].
    cbn [fold_left write_comment_path].
    pose proof (toggled_exact found userId now (L found I)) as [T1 T2].
    split; cbn [likes likeCount set_likeCount set_likes]; assumption.
Qed.
(** *** [updateComment] *)

Lemma updateComment_ok (errors_isEmpty : bool) (commentId : nat)
    (content0 : string) (req_user_id : nat) (now : Millis) (f : Forum) :
  comments_ok (comments f) ->
  comments_ok
    (comments
       (snd (updateComment errors_isEmpty commentId content0 req_user_id now f))).
Proof.
  intros H. unfold updateComment.
  destruct (negb errors_isEmpty); [exact H|].
  destruct (Comment_findById commentId f) as [found|] eqn:F; [|exact H].
  destruct (negb (Nat.eqb (author found) req_user_id)); [exact H|].
  unfold Comment_save, writes_content.
  cbn [existsb orb andb content set_editedAt set_isEdited set_content].
  destruct (negb (content_ok (trim content0))); [exact H|].
  cbn [comment_pre_save snd comments set_comments].
  apply comments_ok_map; [| |exact H].
  - intros d. destruct (Nat.eqb (comment_id d) _); now repeat split.
  - intros d Id. destruct H as (_ & L & _).
    destruct (Nat.eqb (comment_id d) _); [|now apply L].
    exact (L d Id).
Qed.

(** *** [createComment] *)

Lemma comments_ok_add (cs : list Comment) (this : Comment) :
  comments_ok cs ->
  likes this = [] -> likeCount this = 0 -> replyCount this = 0 ->
  (forall c, In c cs ->
     comment_id c <> comment_id this
     /\ parentComment c <> Some (comment_id this)) ->
  (forall p, parentComment this = Some p ->
     exists parent, In parent cs /\ comment_id parent = p
                    /\ post parent = post this) ->
  comments_ok
    (match parentComment this with
     | Some p => inc_replyCount p 1 cs
     | None => cs
     end ++ [this]).
Proof.
  intros (N & L & R & P) El Ec Er Fresh Parent.
  set (g := fun c => match parentComment this with
                     | Some p => if Nat.eqb (comment_id c) p
                                 then set_replyCount (replyCount c + 1) c
                                 else c
                     | None => c
                     end).
  assert (Eg : match parentComment this with
               | Some p => inc_replyCount p 1 cs
               | None => cs
               end = map g cs).
  { unfold g, inc_replyCount. destruct (parentComment this);
      [reflexivity | now rewrite map_id]. }
  rewrite Eg. clear Eg.
  assert (G : forall d,
             comment_id (g d) = comment_id d
             /\ parentComment (g d) = parentComment d
             /\ post (g d) = post d
             /\ likes (g d) = likes d
             /\ likeCount (g d) = likeCount d
             /\ replyCount (g d)
                = replyCount d
                  + (if opt_nat_eqb (parentComment this) (Some (comment_id d))
                     then 1 else 0)).
  { intros d. unfold g. destruct (parentComment this) as [p|];
      [|cbn; repeat split; lia].
    cbn [opt_nat_eqb]. rewrite (Nat.eqb_sym p).
    destruct (Nat.eqb (comment_id d) p); cbn; repeat split; lia. }
  assert (Self : parentComment this <> Some (comment_id this)).
  { intros E. destruct (Parent _ E) as (parent & I & Ei & _).
    exact (proj1 (Fresh parent I) Ei). }
  repeat split.
  - rewrite map_app, map_map. cbn [map].
    erewrite map_ext by (intros d; apply G).
    apply nodup_snoc; [exact N|].
    intros I. apply in_map_iff in I. destruct I as (c & E & I).
    exact (proj1 (Fresh c I) E).
  - apply in_app_or in H. destruct H as [I|[<-|[]]]; [|rewrite El, Ec; reflexivity].
    apply in_map_iff in I. destruct I as (d & <- & I).
    destruct (G d) as (_ & _ & _ & -> & -> & _). now apply L.
  - apply in_app_or in H. destruct H as [I|[<-|[]]];
      [|rewrite El; constructor].
    apply in_map_iff in I. destruct I as (d & <- & I).
    destruct (G d) as (_ & _ & _ & -> & _). now apply L.
  - intros c I. unfold replies_exact, replies_to.
    rewrite filter_app, length_app.
    fold (replies_to (comment_id c) (map g cs)).
    rewrite replies_to_map by (intros x; apply G).
    cbn [filter].
    apply in_app_or in I. destruct I as [I|[<-|[]]].
    + apply in_map_iff in I. destruct I as (d & <- & I).
      destruct (G d) as (-> & _ & _ & _ & _ & ->).
      rewrite (R d I).
      destruct (opt_nat_eqb (parentComment this) (Some (comment_id d)));
        cbn [List.length]; lia.
    + rewrite Er.
      destruct (opt_nat_eqb (parentComment this) (Some (comment_id this)))
        eqn:E; [apply opt_nat_eqb_spec in E; contradiction|].
      unfold replies_to. rewrite filter_nothing; [reflexivity|].
      intros x Ix.
      destruct (opt_nat_eqb (parentComment x) (Some (comment_id this)))
        eqn:Ex; [|reflexivity].
      apply opt_nat_eqb_spec in Ex. now destruct (Fresh x Ix).
  - intros c p Ic Ip E.
    apply in_app_or in Ic. apply in_app_or in Ip.
    destruct Ic as [Ic|[<-|[]]], Ip as [Ip|[<-|[]]].
    + apply in_map_iff in Ic. destruct Ic as (c0 & <- & Ic).
      apply in_map_iff in Ip. destruct Ip as (p0 & <- & Ip).
      destruct (G c0) as (_ & Ec0 & -> & _).
      destruct (G p0) as (Ep0 & _ & -> & _).
      apply P; congruence.
    + apply in_map_iff in Ic. destruct Ic as (c0 & <- & Ic).
      destruct (G c0) as (_ & Ec0 & _). rewrite Ec0 in E.
      now destruct (Fresh c0 Ic).
    + apply in_map_iff in Ip. destruct Ip as (p0 & <- & Ip).
      destruct (G p0) as (Ep0 & _ & -> & _). rewrite Ep0 in E.
      destruct (Parent _ E) as (parent & I & Ei & Epost).
      rewrite <- Epost. f_equal.
      now apply (same_id_same_comment cs).
    + contradiction.
Qed.

Lemma createComment_ok (errors_isEmpty : bool) (content0 : string)
    (parentComment0 : option nat) (postId req_user_id newId : nat)
    (f : Forum) :
  comments_ok (comments f) ->
  (forall c, In c (comments f) ->
     comment_id c <> newId /\ parentComment c <> Some newId) ->
  comments_ok
    (comments
       (snd (createComment errors_isEmpty content0 parentComment0 postId
               req_user_id newId f))).
Proof.
  intros H Fresh. unfold createComment.
  destruct (negb errors_isEmpty); [exact H|].
  destruct (negb (Post_exists postId f)); [exact H|].
  destruct (match parentComment0 with Some _ => _ | None => _ end) eqn:Pm;
    [exact H|].
  unfold Comment_create. cbv zeta. cbn [content].
  destruct (negb (content_ok (trim content0))); [exact H|].
  cbn [snd comments inc_commentCount set_comments].
  set (this := {| comment_id := newId; content := trim content0 |}).
  assert (E : comments (comment_pre_save true this f)
              = match parentComment this with
                | Some p => inc_replyCount p 1 (comments f)
                | None => comments f
                end).
  { unfold comment_pre_save. now destruct (parentComment this). }
  rewrite E. apply comments_ok_add; try reflexivity; try assumption.
  cbn [parentComment this post]. intros p ->.
  destruct (Comment_findById p f) as [parent|] eqn:F; [|discriminate].
  apply find_comment in F. destruct F as [I Ei].
  exists parent. repeat split; try assumption.
  apply negb_false_iff in Pm. now apply Nat.eqb_eq in Pm.
Qed.
(** *** [deleteComment] *)

Lemma removed_comments (this : Comment) (f : Forum) :
  comments (remove this f)
  = filter (fun c => (negb (opt_nat_eqb (parentComment c)
                                        (Some (comment_id this)))
                      && negb (Nat.eqb (comment_id c) (comment_id this)))%bool)
      (match parentComment this with
       | Some p => inc_replyCount p (-1) (comments f)
       | None => comments f
       end).
Proof.
  unfold remove, comment_pre_remove. cbv zeta.
  cbn [comments set_comments]. rewrite filter_filter.
  now destruct (parentComment this).
Qed.

Lemma comments_ok_remove (cs : list Comment) (this : Comment) :
  comments_ok cs -> In this cs ->
  comments_ok
    (filter (fun c => (negb (opt_nat_eqb (parentComment c)
                                         (Some (comment_id this)))
                       && negb (Nat.eqb (comment_id c) (comment_id this)))%bool)
       (match parentComment this with
        | Some p => inc_replyCount p (-1) cs
        | None => cs
        end)).
Proof.
  intros (N & L & R & P) I.
  set (g := fun c => match parentComment this with
                     | Some p => if Nat.eqb (comment_id c) p
                                 then set_replyCount (replyCount c + -1) c
                                 else c
                     | None => c
                     end).
  assert (Eg : match parentComment this with
               | Some p => inc_replyCount p (-1) cs
               | None => cs
               end = map g cs).
  { unfold g, inc_replyCount. destruct (parentComment this);
      [reflexivity | now rewrite map_id]. }
  rewrite Eg. clear Eg.
  assert (G : forall d,
             comment_id (g d) = comment_id d
             /\ parentComment (g d) = parentComment d
             /\ post (g d) = post d
             /\ likes (g d) = likes d
             /\ likeCount (g d) = likeCount d
             /\ replyCount (g d)
                = replyCount d
                  - (if opt_nat_eqb (parentComment this) (Some (comment_id d))
                     then 1 else 0)).
  { intros d. unfold g. destruct (parentComment this) as [p|];
      [|cbn; repeat split; lia].
    cbn [opt_nat_eqb]. rewrite (Nat.eqb_sym p).
    destruct (Nat.eqb (comment_id d) p); cbn; repeat split; lia. }
  set (keep := fun c => (negb (opt_nat_eqb (parentComment c)
                                           (Some (comment_id this)))
                         && negb (Nat.eqb (comment_id c) (comment_id this)))%bool).
  assert (K : forall c, In c (filter keep (map g cs)) ->
              exists d, In d cs /\ c = g d
                        /\ parentComment d <> Some (comment_id this)
                        /\ comment_id d <> comment_id this).
  { intros c Ic. apply filter_In in Ic. destruct Ic as [Ic Kc].
    apply in_map_iff in Ic. destruct Ic as (d & <- & Id).
    exists d. unfold keep in Kc. destruct (G d) as (Ei & Ep & _).
    rewrite Ei, Ep in Kc. apply andb_true_iff in Kc. destruct Kc as [K1 K2].
    apply negb_true_iff in K1, K2. apply Nat.eqb_neq in K2.
    repeat split; try assumption.
    intros E. apply opt_nat_eqb_spec in E. congruence. }
  repeat split.
  - apply nodup_map_filter. rewrite map_map.
    erewrite map_ext by (intros d; apply G). exact N.
  - destruct (K c H) as (d & Id & -> & _).
    destruct (G d) as (_ & _ & _ & -> & -> & _). now apply L.
  - destruct (K c H) as (d & Id & -> & _).
    destruct (G d) as (_ & _ & _ & -> & _). now apply L.
  - intros c Ic. destruct (K c Ic) as (d & Id & -> & Np & Ni).
    unfold replies_exact, replies_to.
    destruct (G d) as (-> & _ & _ & _ & _ & ->).
    rewrite filter_filter.
    rewrite (filter_map_length _
               (fun x => (opt_nat_eqb (parentComment x) (Some (comment_id d))
                          && negb (Nat.eqb (comment_id x) (comment_id this)))%bool)).
    + rewrite (R d Id). unfold replies_to.
      rewrite (filter_split_length
                 (fun x => opt_nat_eqb (parentComment x) (Some (comment_id d)))
                 (fun x => Nat.eqb (comment_id x) (comment_id this)) cs).
      rewrite (filter_one
                 (fun x => opt_nat_eqb (parentComment x) (Some (comment_id d)))
                 this cs N I).
      destruct (opt_nat_eqb (parentComment this) (Some (comment_id d))); lia.
    + intros x. unfold keep. destruct (G x) as (-> & -> & _).
      destruct (opt_nat_eqb (parentComment x) (Some (comment_id d))) eqn:E;
        [|now rewrite andb_false_r].
      apply opt_nat_eqb_spec in E. rewrite E. cbn [opt_nat_eqb].
      apply Nat.eqb_neq in Ni. rewrite Ni. cbn.
      now rewrite andb_true_r.
  - intros c p Ic Ip E.
    destruct (K c Ic) as (c0 & Ic0 & -> & _).
    destruct (K p Ip) as (p0 & Ip0 & -> & _).
    destruct (G c0) as (_ & Ec0 & -> & _).
    destruct (G p0) as (Ep0 & _ & -> & _).
    apply P; congruence.
Qed.

Lemma deleteComment_ok (commentId req_user_id : nat) (f : Forum) :
  comments_ok (comments f) ->
  comments_ok (comments (snd (deleteComment commentId req_user_id f))).
Proof.
  intros H. unfold deleteComment.
  destruct (Comment_findById commentId f) as [comment|] eqn:F; [|exact H].
  destruct (negb (Nat.eqb (author comment) req_user_id)); [exact H|].
  cbn [snd]. rewrite removed_comments. apply comments_ok_remove; [exact H|].
  now apply find_comment in F.
Qed.

Lemma serve_ok (r : CommentRequest) (f : Forum) :
  comments_ok (comments f) -> new_ObjectId r f ->
  comments_ok (comments (snd (serve r f))).
Proof.
  intros H Fresh. destruct r; cbn [serve].
  - now apply createComment_ok.
  - now apply updateComment_ok.
  - now apply deleteComment_ok.
  - now apply likeComment_ok.
Qed.

Lemma reachable_comments_ok (f : Forum) :
  forum_reachable f -> comments_ok (comments f).
Proof.
  induction 1 as [ps|f r _ IH Fresh].
  - unfold comments_ok. cbn [comments map].
    split; [constructor|]. split; [intros ? []|]. split; [intros ? []|].
    intros ? ? [].
  - now apply serve_ok.
Qed.
(** X19. The like counter stays exact: in every forum the comment routes
    lead to, each comment's [likeCount] is the number of its [likes], and no
    user is among them twice. *)
Theorem like_counts_stay_exact (f : Forum) (c : Comment) :
  forum_reachable f -> In c (comments f) ->
  likeCount c = Z.of_nat (List.length (likes c))
  /\ NoDup (map like_user (likes c)).
Proof.
  intros H I. apply reachable_comments_ok in H.
  destruct H as (_ & L & _). exact (L c I).
Qed.

(** X20. The reply counter stays exact: in every forum the comment routes
    lead to, each comment's [replyCount] is the number of stored comments
    that name it as their parent, and no two comments share an [_id]. *)
Theorem reply_counts_stay_exact (f : Forum) (c : Comment) :
  forum_reachable f -> In c (comments f) ->
  replyCount c
  = Z.of_nat (List.length (replies_to (comment_id c) (comments f)))
  /\ NoDup (map comment_id (comments f)).
Proof.
  intros H I. apply reachable_comments_ok in H.
  destruct H as (N & _ & R & _). split; [exact (R c I) | exact N].
Qed.

(** X21. A reply is on the post of its parent: in every forum the comment
    routes lead to, a stored comment whose parent is stored has the parent's
    [post]. *)
Theorem replies_stay_on_their_post (f : Forum) (c p : Comment) :
  forum_reachable f -> In c (comments f) ->
  parentComment c = Some (comment_id p) ->
  Comment_findById (comment_id p) f = Some p ->
  post c = post p.
Proof.
  intros H I E F. apply reachable_comments_ok in H.
  destruct H as (_ & _ & _ & P). apply find_comment in F.
  now apply P.
Qed.
Lemma likeComment_liked (commentId userId : nat) (now : Millis) (f : Forum)
    (found : Comment) (l : Like) :
  Comment_findById commentId f = Some found ->
  find (fun like => Nat.eqb (like_user like) userId) (likes found) = Some l ->
  let saved :=
    set_likeCount (Z.max 0 (likeCount found - 1))
      (set_likes (filter (fun like => negb (Nat.eqb (like_user like) userId))
                    (likes found)) found) in
  likeComment commentId userId now f
  = (res_ok 200 (like_state saved false (likeCount saved))
       "Comment unliked successfully",
     set_comments
       (map (fun d => if Nat.eqb (comment_id d) commentId
                      then set_likeCount (likeCount saved)
                             (set_likes (likes saved) d)
                      else d) (comments f)) f).
Proof.
  intros F E. unfold likeComment. rewrite F. cbv zeta. rewrite E.
  apply find_comment in F. destruct F as [_ <-]. reflexivity.
Qed.

Lemma likeComment_not_liked (commentId userId : nat) (now : Millis)
    (f : Forum) (found : Comment) :
  Comment_findById commentId f = Some found ->
  find (fun like => Nat.eqb (like_user like) userId) (likes found) = None ->
  let saved :=
    set_likeCount (likeCount found + 1)
      (set_likes (likes found
                  ++ [{| like_user := userId; like_createdAt := now |}])
         found) in
  likeComment commentId userId now f
  = (res_ok 200 (like_state saved true (likeCount saved))
       "Comment liked successfully",
     set_comments
       (map (fun d => if Nat.eqb (comment_id d) commentId
                      then set_likeCount (likeCount saved)
                             (set_likes (likes saved) d)
                      else d) (comments f)) f).
Proof.
  intros F E. unfold likeComment. rewrite F. cbv zeta. rewrite E.
  apply find_comment in F. destruct F as [_ <-]. reflexivity.
Qed.

Lemma find_saved_comment (i : nat) (g : Comment -> Comment) (f : Forum)
    (c : Comment) :
  (forall d, comment_id (g d) = comment_id d) ->
  Comment_findById i f = Some c ->
  Comment_findById i
    (set_comments
       (map (fun d => if Nat.eqb (comment_id d) i then g d else d)
          (comments f)) f)
  = Some (g c).
Proof.
  intros G F. unfold Comment_findById in *. cbn [comments set_comments].
  rewrite find_map_stable.
  - rewrite F. cbn. apply find_some in F. destruct F as [_ E]. now rewrite E.
  - intros d. destruct (Nat.eqb (comment_id d) i) eqn:E; [|exact E].
    now rewrite G.
Qed.

Lemma filter_all {B} (p : B -> bool) (l : list B) :
  (forall x, In x l -> p x = true) -> filter p l = l.
Proof.
  intros H. apply forallb_filter_id. now apply forallb_forall.
Qed.

(** X22. Liking a comment twice leaves it as liked as before: after two
    [likeComment] requests of one user the comment has the [likeCount] and
    the likers it had, and a user who had not liked it finds the stored
    comments exactly as they were. *)
Theorem like_twice_restores (commentId userId : nat) (now1 now2 : Millis)
    (f : Forum) (c : Comment) :
  forum_reachable f -> Comment_findById commentId f = Some c ->
  let first := likeComment commentId userId now1 f in
  let second := likeComment commentId userId now2 (snd first) in
  statusCode (fst first) = 200 /\ statusCode (fst second) = 200
  /\ (exists c2,
        Comment_findById commentId (snd second) = Some c2
        /\ likeCount c2 = likeCount c
        /\ forall u, In u (map like_user (likes c2))
                     <-> In u (map like_user (likes c)))
  /\ (find (fun like => Nat.eqb (like_user like) userId) (likes c) = None ->
      comments (snd second) = comments f).
Proof.
  intros H F. cbv zeta.
  apply reachable_comments_ok in H. destruct H as (N & L & _).
  pose proof (find_comment _ _ _ F) as [I Ei].
  destruct (L c I) as [Ec Nc].
  destruct (find (fun like => Nat.eqb (like_user like) userId) (likes c))
    as [l|] eqn:E.
  - (* liked before: unlike, then like *)
    pose (g := fun d : Comment =>
                 set_likeCount (Z.max 0 (likeCount c - 1))
                   (set_likes
                      (filter (fun like => negb (Nat.eqb (like_user like) userId))
                         (likes c)) d)).
    pose (f1 := set_comments
                  (map (fun d => if Nat.eqb (comment_id d) commentId
                                 then g d else d) (comments f)) f).
    assert (R1 : statusCode (fst (likeComment commentId userId now1 f)) = 200
                 /\ snd (likeComment commentId userId now1 f) = f1).
    { rewrite (likeComment_liked _ _ now1 _ _ _ F E). now split. }
    destruct R1 as [S1 R1]. rewrite R1.
    assert (F1 : Comment_findById commentId f1 = Some (g c))
      by (apply find_saved_comment; [intros d; reflexivity | exact F]).
    assert (E1 : find (fun like => Nat.eqb (like_user like) userId)
                   (likes (g c)) = None).
    { unfold g. cbn [likes set_likeCount set_likes].
      destruct (find _ (filter _ (likes c))) as [x|] eqn:X; [|reflexivity].
      apply find_some in X. destruct X as [X1 X2].
      apply filter_In in X1. destruct X1 as [_ X1].
      rewrite X2 in X1. discriminate. }
    rewrite (likeComment_not_liked _ _ now2 _ _ F1 E1). cbv zeta.
    cbn [snd fst statusCode].
    refine (conj S1 (conj eq_refl (conj _ _))); [|discriminate].
    eexists. split.
    + apply find_saved_comment; [intros d; reflexivity | exact F1].
    + unfold g. cbn [likes likeCount set_likeCount set_likes].
      apply find_some in E. destruct E as [Il El]. apply Nat.eqb_eq in El.
      assert (Iu : In userId (map like_user (likes c))).
      { rewrite <- El. now apply in_map. }
      pose proof (nodup_without userId _ Nc Iu) as K.
      rewrite <- likers_filter in K. rewrite !length_map in K.
      split; [lia|]. intros u. rewrite map_app, in_app_iff, likers_filter.
      rewrite filter_In. cbn [map like_user In].
      destruct (Nat.eqb_spec u userId) as [->|Ne]; cbn; [tauto|].
      intuition congruence.
  - (* not liked before: like, then unlike *)
    pose (g := fun d : Comment =>
                 set_likeCount (likeCount c + 1)
                   (set_likes
                      (likes c
                       ++ [{| like_user := userId; like_createdAt := now1 |}])
                      d)).
    pose (f1 := set_comments
                  (map (fun d => if Nat.eqb (comment_id d) commentId
                                 then g d else d) (comments f)) f).
    assert (R1 : statusCode (fst (likeComment commentId userId now1 f)) = 200
                 /\ snd (likeComment commentId userId now1 f) = f1).
    { rewrite (likeComment_not_liked _ _ now1 _ _ F E). now split. }
    destruct R1 as [S1 R1]. rewrite R1.
    assert (F1 : Comment_findById commentId f1 = Some (g c))
      by (apply find_saved_comment; [intros d; reflexivity | exact F]).
    assert (E1 : find (fun like => Nat.eqb (like_user like) userId)
                   (likes (g c))
                 = Some {| like_user := userId; like_createdAt := now1 |}).
    { unfold g. cbn [likes set_likeCount set_likes].
      clear - E. induction (likes c) as [|a ls IH]; cbn in *.
      - now rewrite Nat.eqb_refl.
      - destruct (Nat.eqb (like_user a) userId); [discriminate | now apply IH]. }
    rewrite (likeComment_liked _ _ now2 _ _ _ F1 E1). cbv zeta.
    cbn [snd fst statusCode].
    assert (Back : filter (fun like => negb (Nat.eqb (like_user like) userId))
                     (likes (g c)) = likes c).
    { unfold g. cbn [likes set_likeCount set_likes].
      rewrite filter_app. cbn [filter like_user].
      rewrite Nat.eqb_refl. cbn [negb]. rewrite app_nil_r.
      apply filter_all. intros x Ix.
      pose proof (find_none _ _ E x Ix) as X. cbn beta in X. now rewrite X. }
    assert (Cnt : Z.max 0 (likeCount (g c) - 1) = likeCount c).
    { unfold g. cbn [likes likeCount set_likeCount set_likes]. lia. }
    cbn [likes likeCount set_likeCount set_likes]. rewrite Back, Cnt.
    assert (Same : map (fun d => if Nat.eqb (comment_id d) commentId
                                 then set_likeCount (likeCount c)
                                        (set_likes (likes c) d)
                                 else d) (comments f1)
                   = comments f).
    { unfold f1. cbn [comments set_comments]. rewrite map_map.
      rewrite <- (map_id (comments f)) at 2. apply map_ext_in.
      intros d Id. destruct (Nat.eqb_spec (comment_id d) commentId) as [Ed|Nd].
      - unfold g. cbn [comment_id set_likeCount set_likes].
        rewrite (proj2 (Nat.eqb_eq _ _) Ed).
        assert (d = c) as ->
          by (apply (same_id_same_comment (comments f)); congruence).
        now destruct c.
      - apply Nat.eqb_neq in Nd. now rewrite Nd. }
    rewrite Same.
    refine (conj S1 (conj eq_refl (conj _ (fun _ => eq_refl)))).
    exists c. split; [exact F|]. split; [reflexivity | tauto].
Qed.
(** X23. [deleteComment] cascades one level only: the author's delete removes
    the comment and its direct replies, whoever wrote them, and tells the
    post once; a reply to one of those replies stays stored, naming a parent
    that is gone. *)
Theorem deleteComment_cascades_one_level (commentId req_user_id : nat)
    (f : Forum) (c : Comment) :
  forum_reachable f ->
  Comment_findById commentId f = Some c -> author c = req_user_id ->
  let after := snd (deleteComment commentId req_user_id f) in
  statusCode (fst (deleteComment commentId req_user_id f)) = 200
  /\ map (fun d => (comment_id d, parentComment d)) (comments after)
     = map (fun d => (comment_id d, parentComment d))
         (filter (fun d => (negb (opt_nat_eqb (parentComment d) (Some commentId))
                            && negb (Nat.eqb (comment_id d) commentId))%bool)
            (comments f))
  /\ post_calls after = post_calls f ++ [(post c, -1)]
  /\ forall reply deep,
       In reply (comments f) -> parentComment reply = Some commentId ->
       In deep (comments f) ->
       parentComment deep = Some (comment_id reply) ->
       comment_id reply <> commentId -> comment_id deep <> commentId ->
       Comment_findById (comment_id reply) after = None
       /\ exists deep',
            In deep' (comments after)
            /\ comment_id deep' = comment_id deep
            /\ parentComment deep' = Some (comment_id reply).
Proof.
  intros H F A. cbv zeta.
  apply reachable_comments_ok in H. destruct H as (N & _ & _ & _).
  pose proof (find_comment _ _ _ F) as [I Ei].
  unfold deleteComment. rewrite F, A, Nat.eqb_refl. cbn [negb fst snd statusCode].
  assert (Ids : map (fun d => (comment_id d, parentComment d))
                  (comments (remove c f))
                = map (fun d => (comment_id d, parentComment d))
                    (filter (fun d => (negb (opt_nat_eqb (parentComment d)
                                                         (Some commentId))
                                       && negb (Nat.eqb (comment_id d) commentId))%bool)
                       (comments f))).
  { rewrite removed_comments, Ei.
    destruct (parentComment c) as [p|]; [|reflexivity].
    unfold inc_replyCount. generalize (comments f) as cs.
    induction cs as [|a l IH]; [reflexivity|]. cbn [map filter].
    destruct (inc_replyCount_keeps p (-1) a) as (E1 & E2 & _).
    cbv zeta in E1, E2. rewrite E1, E2.
    destruct (negb _ && negb _)%bool; cbn [map]; rewrite IH; [|reflexivity].
    now rewrite E1, E2. }
  refine (conj eq_refl (conj Ids (conj _ _))).
  - unfold remove, comment_pre_remove. cbv zeta.
    now destruct (parentComment c).
  - intros reply deep Ir Pr Id Pd Nr Nd.
    split.
    + unfold Comment_findById.
      destruct (find _ (comments (remove c f))) as [x|] eqn:X; [|reflexivity].
      exfalso. apply find_some in X. destruct X as [Ix Ex].
      apply Nat.eqb_eq in Ex.
      assert (K : In (comment_id x, parentComment x)
                    (map (fun d => (comment_id d, parentComment d))
                       (comments (remove c f))))
        by (apply (in_map (fun d => (comment_id d, parentComment d))); exact Ix).
      rewrite Ids in K. apply in_map_iff in K. destruct K as (d & Ed & Kd).
      apply filter_In in Kd. destruct Kd as [Kd Kq].
      injection Ed as Ed1 Ed2.
      assert (d = reply) as ->
        by (apply (same_id_same_comment (comments f)); congruence).
      rewrite Pr in Kq. cbn [opt_nat_eqb] in Kq.
      rewrite Nat.eqb_refl in Kq. discriminate.
    + assert (K : In (comment_id deep, parentComment deep)
                    (map (fun d => (comment_id d, parentComment d))
                       (comments (remove c f)))).
      { rewrite Ids. apply (in_map (fun d => (comment_id d, parentComment d))).
        apply filter_In. split; [exact Id|].
        rewrite Pd. cbn [opt_nat_eqb].
        apply Nat.eqb_neq in Nr, Nd. now rewrite Nr, Nd. }
      apply in_map_iff in K. destruct K as (deep' & E & I').
      injection E as E1 E2. exists deep'. repeat split; congruence.
Qed.
(** X24. Only its author rewrites a comment: whatever request another user
    sends to the comment routes, a comment that is still stored afterwards
    has the [content], the [author] and the [isEdited] mark it had. *)
Theorem content_changes_only_by_author (r : CommentRequest) (f : Forum)
    (c c' : Comment) :
  forum_reachable f -> new_ObjectId r f ->
  In c (comments f) -> author c <> requester r ->
  In c' (comments (snd (serve r f))) -> comment_id c' = comment_id c ->
  content c' = content c /\ author c' = author c /\ isEdited c' = isEdited c
  /\ editedAt c' = editedAt c.
Proof using Type.
  clear crypt sha256.
  intros H Fresh I A I' E.
  apply reachable_comments_ok in H. destruct H as (N & _ & _ & _).
  assert (Map : forall g : Comment -> Comment,
             (forall d, comment_id (g d) = comment_id d) ->
             (content (g c) = content c /\ author (g c) = author c
              /\ isEdited (g c) = isEdited c /\ editedAt (g c) = editedAt c) ->
             In c' (map g (comments f)) ->
             content c' = content c /\ author c' = author c
             /\ isEdited c' = isEdited c /\ editedAt c' = editedAt c).
  { intros g G K Ig. apply in_map_iff in Ig. destruct Ig as (d & <- & Id).
    rewrite G in E.
    assert (d = c) as -> by now apply (same_id_same_comment (comments f)).
    exact K. }
  destruct r as [e content0 p postId u newId | e i content0 u now | i u
                | i u now]; cbn [serve requester] in *.
  - (* createComment *)
    unfold createComment in I'.
    destruct (negb e);
      [apply (Map (fun d => d)); try tauto; now rewrite map_id|].
    destruct (negb (Post_exists postId f));
      [apply (Map (fun d => d)); try tauto; now rewrite map_id|].
    destruct (match p with Some _ => _ | None => _ end);
      [apply (Map (fun d => d)); try tauto; now rewrite map_id|].
    unfold Comment_create in I'. cbv zeta in I'. cbn [content] in I'.
    destruct (negb (content_ok (trim content0)));
      [apply (Map (fun d => d)); try tauto; now rewrite map_id|].
    cbn [snd comments inc_commentCount set_comments] in I'.
    apply in_app_or in I'. destruct I' as [I'|[<-|[]]].
    + unfold comment_pre_save in I'. cbn [parentComment] in I'.
      destruct p as [p|];
        [|apply (Map (fun d => d)); try tauto; now rewrite map_id].
      cbn [comments set_comments] in I'. unfold inc_replyCount in I'.
      apply (Map _ (fun d => proj1 (inc_replyCount_keeps p 1 d))); [|exact I'].
      destruct (Nat.eqb (comment_id c) p); now repeat split.
    + cbn [comment_id] in E. destruct (Fresh c I) as [X _].
      exfalso. apply X. now symmetry.
  - (* updateComment *)
    unfold updateComment in I'.
    destruct (negb e);
      [apply (Map (fun d => d)); try tauto; now rewrite map_id|].
    destruct (Comment_findById i f) as [found|] eqn:F;
      [|apply (Map (fun d => d)); try tauto; now rewrite map_id].
    destruct (Nat.eqb_spec (author found) u) as [Ea|];
      [|apply (Map (fun d => d)); try tauto; now rewrite map_id].
    cbn [negb] in I'. unfold Comment_save, writes_content in I'.
    cbn [existsb orb andb content set_editedAt set_isEdited set_content] in I'.
    destruct (negb (content_ok (trim content0)));
      [apply (Map (fun d => d)); try tauto; now rewrite map_id|].
    cbn [comment_pre_save snd comments set_comments comment_id
           set_editedAt set_isEdited set_content] in I'.
    apply find_comment in F. destruct F as [If Ei].
    refine (Map _ _ _ I').
    + intros d. now destruct (Nat.eqb (comment_id d) (comment_id found)).
    + destruct (Nat.eqb_spec (comment_id c) (comment_id found)) as [Ec|];
        [|now repeat split].
      exfalso. apply A. rewrite <- Ea. f_equal.
      now apply (same_id_same_comment (comments f)).
  - (* deleteComment *)
    unfold deleteComment in I'.
    destruct (Comment_findById i f) as [found|] eqn:F;
      [|apply (Map (fun d => d)); try tauto; now rewrite map_id].
    destruct (negb (Nat.eqb (author found) u));
      [apply (Map (fun d => d)); try tauto; now rewrite map_id|].
    cbn [snd] in I'. rewrite removed_comments in I'.
    apply filter_In in I'. destruct I' as [I' _].
    destruct (parentComment found) as [p|];
      [|apply (Map (fun d => d)); try tauto; now rewrite map_id].
    unfold inc_replyCount in I'.
    apply (Map _ (fun d => proj1 (inc_replyCount_keeps p (-1) d))); [|exact I'].
    destruct (Nat.eqb (comment_id c) p); now repeat split.
  - (* likeComment *)
    unfold likeComment in I'.
    destruct (Comment_findById i f) as [found|] eqn:F;
      [|apply (Map (fun d => d)); try tauto; now rewrite map_id].
    unfold Comment_save, writes_content in I'.
    cbn [existsb orb andb comment_pre_save snd comments set_comments] in I'.
    refine (Map _ _ _ I').
    + intros d. destruct (Nat.eqb (comment_id d) _); [|reflexivity].
      cbn [fold_left write_comment_path]. reflexivity.
    + destruct (Nat.eqb (comment_id c) _); now repeat split.
Qed.

(** X25. The schema decides what is stored.  Content is rejected when,
    trimmed of white space (U+00A0 included), it is empty or longer than
    1000 code units.  Rejected content is stored nowhere, and the two
    handlers answer it differently: [createComment] answers 400,
    [updateComment] answers 500, and both leave the forum as it was (the
    parent of a rejected reply keeps its [replyCount]).  Any other content
    is stored, trimmed: a comment on an existing post is answered 201. *)
Theorem rejected_content_is_not_stored (content0 : string) (f : Forum) :
  (content_ok (trim content0) = false ->
   (forall parentComment0 postId req_user_id newId,
       let answer :=
         createComment true content0 parentComment0 postId req_user_id newId f in
       snd answer = f
       /\ (statusCode (fst answer) = 400 \/ statusCode (fst answer) = 404))
   /\ (forall commentId req_user_id now c,
         Comment_findById commentId f = Some c -> author c = req_user_id ->
         let answer :=
           updateComment true commentId content0 req_user_id now f in
         snd answer = f /\ statusCode (fst answer) = 500))
  /\ (content_ok (trim content0) = true ->
      forall postId req_user_id newId,
        Post_exists postId f = true ->
        let answer := createComment true content0 None postId req_user_id newId f in
        statusCode (fst answer) = 201
        /\ exists c, In c (comments (snd answer))
                     /\ comment_id c = newId
                     /\ content c = trim content0).
Proof.
  split.
  - intros Bad. split.
    + intros p postId u newId. cbv zeta. unfold createComment. cbn [negb].
      destruct (negb (Post_exists postId f)); [now split; [|right]|].
      destruct (match p with Some _ => _ | None => _ end);
        [now split; [|right]|].
      unfold Comment_create. cbv zeta. cbn [content]. rewrite Bad.
      cbn. now split; [|left].
    + intros i u now c F A. cbv zeta. unfold updateComment. cbn [negb].
      rewrite F, A, Nat.eqb_refl. cbn [negb].
      unfold Comment_save, writes_content.
      cbn [existsb orb andb content set_editedAt set_isEdited set_content].
      rewrite Bad. now split.
  - intros Good postId u newId E. cbv zeta. unfold createComment.
    cbn [negb]. rewrite E. cbn [negb].
    unfold Comment_create. cbv zeta. cbn [content]. rewrite Good.
    cbn [negb statusCode fst snd comment_pre_save inc_commentCount comments
         set_comments].
    split; [reflexivity|].
    eexists. split; [apply in_or_app; right; left; reflexivity|].
    split; reflexivity.
Qed.

(** ** [sanitizeMiddleware] *)

(** Induction on a JSON value, through its items and fields. *)
Lemma Json_induction (P : Json -> Prop) :
  P JNull -> (forall b, P (JBool b)) -> (forall n, P (JNum n)) ->
  (forall s, P (JStr s)) ->
  (forall items, Forall P items -> P (JArr items)) ->
  (forall fields, Forall (fun kv => P (snd kv)) fields -> P (JObj fields)) ->
  forall v, P v.
Proof.
  intros Hn Hb Hz Hs Ha Ho.
  fix IH 1. intros [| b | n | s | items | fields].
  - exact Hn.
  - apply Hb.
  - apply Hz.
  - apply Hs.
  - apply Ha. induction items as [|x l IHl]; constructor; [apply IH | exact IHl].
  - apply Ho. induction fields as [|[k x] l IHl]; constructor;
      [apply IH | exact IHl].
Qed.

Lemma sanitize_no_operator_key (v : Json) :
  no_operator_key (sanitize v) = true.
Proof.
  induction v as [| | | | items IH | fields IH] using Json_induction;
    try reflexivity.
  - cbn [sanitize no_operator_key]. apply forallb_forall. intros x I.
    apply in_map_iff in I. destruct I as (y & <- & I).
    rewrite Forall_forall in IH. now apply IH.
  - cbn [sanitize no_operator_key].
    induction fields as [|[k x] l IHl]; [reflexivity|].
    inversion IH as [|? ? Hx Hl]; subst.
    destruct (operator_key k) eqn:K; [now apply IHl|].
    cbn [forallb fst snd]. rewrite K. cbn [negb andb].
    cbn [snd] in Hx. rewrite Hx. now apply IHl.
Qed.

Lemma xssSanitize_keeps_keys (v : Json) :
  no_operator_key v = true -> no_operator_key (xssSanitize v) = true.
Proof.
  induction v as [| | | | items IH | fields IH] using Json_induction;
    try reflexivity; cbn [xssSanitize]; intros H.
  - cbn [no_operator_key] in *. rewrite forallb_forall in *. intros x I.
    apply in_map_iff in I. destruct I as (y & <- & I).
    rewrite Forall_forall in IH. apply IH; [exact I | now apply H].
  - destruct (constructor_is_Object fields); [|exact H].
    cbn [no_operator_key] in *.
    rewrite forallb_forall in *. intros x I.
    apply in_map_iff in I. destruct I as ([k y] & <- & I).
    rewrite Forall_forall in IH. specialize (H _ I). cbn [fst snd] in *.
    apply andb_true_iff in H. destruct H as [H1 H2].
    rewrite H1. cbn [andb]. exact (IH _ I H2).
Qed.

Lemma constructor_is_Object_map (g : Json -> Json)
    (fields : list (string * Json)) :
  constructor_is_Object (map (fun kv => (fst kv, g (snd kv))) fields)
  = constructor_is_Object fields.
Proof.
  unfold constructor_is_Object. f_equal.
  induction fields as [|[k x] l IH]; [reflexivity|].
  cbn [map existsb fst]. now rewrite IH.
Qed.

Lemma sanitize_keeps_constructor_free (v : Json) :
  no_constructor_key v = true -> no_constructor_key (sanitize v) = true.
Proof.
  induction v as [| | | | items IH | fields IH] using Json_induction;
    try reflexivity; cbn [sanitize no_constructor_key]; intros H.
  - rewrite forallb_forall in *. intros x I.
    apply in_map_iff in I. destruct I as (y & <- & I).
    rewrite Forall_forall in IH. apply IH; [exact I | now apply H].
  - apply andb_true_iff in H. destruct H as [C F].
    unfold constructor_is_Object in *. apply negb_true_iff in C.
    induction fields as [|[k x] l IHl]; [reflexivity|].
    inversion IH as [|? ? Hx Hl]; subst.
    cbn [existsb forallb fst snd] in C, F.
    apply orb_false_elim in C. destruct C as [Ck Cl].
    apply andb_true_iff in F. destruct F as [Fx Fl].
    specialize (IHl Hl Cl Fl). apply andb_true_iff in IHl.
    destruct IHl as [I1 I2].
    destruct (operator_key k); [now rewrite I1, I2|].
    cbn [existsb forallb fst snd]. rewrite Ck. cbn [orb snd] in *.
    now rewrite I1, (Hx Fx), I2.
Qed.

(** *** The five replacements *)

Lemma free_of_app (c : ascii) (s1 s2 : string) :
  free_of c (s1 ++ s2) = (free_of c s1 && free_of c s2)%bool.
Proof.
  unfold free_of. now rewrite list_ascii_of_string_app, forallb_app.
Qed.

Lemma replace_keeps_free (d c : ascii) (by_ s : string) :
  free_of d by_ = true -> free_of d s = true ->
  free_of d (replace c by_ s) = true.
Proof.
  intros B. induction s as [|a s IH]; intros F; [reflexivity|].
  unfold free_of in F. cbn in F. apply andb_true_iff in F. destruct F as [F1 F2].
  cbn [replace]. destruct (Ascii.eqb a c).
  - rewrite free_of_app, B. now apply IH.
  - unfold free_of. cbn. rewrite F1. now apply IH.
Qed.

Lemma replace_free (c : ascii) (by_ s : string) :
  free_of c by_ = true -> free_of c (replace c by_ s) = true.
Proof.
  intros B. induction s as [|a s IH]; [reflexivity|].
  cbn [replace]. destruct (Ascii.eqb a c) eqn:E.
  - now rewrite free_of_app, B.
  - unfold free_of. cbn. rewrite E. exact IH.
Qed.

Lemma replace_nothing (c : ascii) (by_ s : string) :
  free_of c s = true -> replace c by_ s = s.
Proof.
  induction s as [|a s IH]; intros F; [reflexivity|].
  unfold free_of in F. cbn in F. apply andb_true_iff in F. destruct F as [F1 F2].
  cbn [replace]. apply negb_true_iff in F1. rewrite F1. f_equal. now apply IH.
Qed.

Lemma no_markup_free (s : string) :
  no_markup s = true
  <-> free_of "<" s = true /\ free_of ">" s = true /\ free_of quot s = true
      /\ free_of apos s = true /\ free_of "/" s = true.
Proof using Type.
  clear crypt sha256.
  unfold no_markup, free_of, markup.
  induction (list_ascii_of_string s) as [|a l IH]; [cbn; tauto|].
  cbn [forallb existsb]. rewrite !andb_true_iff, IH.
  rewrite !orb_false_r, !negb_orb, !andb_true_iff. tauto.
Qed.

Lemma escape_no_markup (s : string) : no_markup (escape s) = true.
Proof.
  apply no_markup_free. unfold escape.
  repeat split;
    repeat (first [ apply replace_free; reflexivity
                  | apply replace_keeps_free; [reflexivity|] ]).
Qed.

Lemma escape_nothing (s : string) : no_markup s = true -> escape s = s.
Proof.
  intros H. apply no_markup_free in H. destruct H as (A & B & C & D & E).
  unfold escape.
  rewrite (replace_nothing "<") by exact A.
  rewrite (replace_nothing ">") by exact B.
  rewrite (replace_nothing quot) by exact C.
  rewrite (replace_nothing apos) by exact D.
  now apply replace_nothing.
Qed.

Lemma xssSanitize_no_markup (v : Json) :
  no_constructor_key v = true -> no_markup_value (xssSanitize v) = true.
Proof.
  induction v as [| | | | items IH | fields IH] using Json_induction;
    try reflexivity; cbn [xssSanitize no_constructor_key]; intros H.
  - apply escape_no_markup.
  - cbn [no_markup_value]. apply forallb_forall. intros x I.
    apply in_map_iff in I. destruct I as (y & <- & I).
    rewrite Forall_forall in IH. rewrite forallb_forall in H.
    apply IH; [exact I | now apply H].
  - apply andb_true_iff in H. destruct H as [C F]. rewrite C.
    cbn [no_markup_value]. apply forallb_forall. intros x I.
    apply in_map_iff in I. destruct I as (y & <- & I).
    rewrite Forall_forall in IH. rewrite forallb_forall in F.
    cbn [snd]. apply (IH _ I). exact (F _ I).
Qed.

(** A second pass of [xssSanitize] finds nothing to escape. *)
Lemma xssSanitize_twice (v : Json) :
  xssSanitize (xssSanitize v) = xssSanitize v.
Proof.
  induction v as [| | | | items IH | fields IH] using Json_induction;
    try reflexivity; cbn [xssSanitize].
  - f_equal. apply escape_nothing, escape_no_markup.
  - f_equal. rewrite map_map. apply map_ext_in. intros x I.
    rewrite Forall_forall in IH. now apply IH.
  - destruct (constructor_is_Object fields) eqn:C.
    + cbn [xssSanitize]. rewrite constructor_is_Object_map, C.
      f_equal. rewrite map_map. apply map_ext_in. intros [k x] I.
      cbn [fst snd]. f_equal. rewrite Forall_forall in IH. exact (IH _ I).
    + cbn [xssSanitize]. now rewrite C.
Qed.

Lemma sanitize_nothing (v : Json) :
  no_operator_key v = true -> sanitize v = v.
Proof.
  induction v as [| | | | items IH | fields IH] using Json_induction;
    try reflexivity; cbn [sanitize no_operator_key]; intros H.
  - f_equal. rewrite <- (map_id items) at 2. apply map_ext_in. intros x I.
    rewrite Forall_forall in IH. rewrite forallb_forall in H.
    apply IH; [exact I | now apply H].
  - f_equal. induction fields as [|[k x] l IHl]; [reflexivity|].
    inversion IH as [|? ? Hx Hl]; subst.
    cbn [forallb fst snd] in H. rewrite !andb_true_iff in H.
    destruct H as [[K X] R]. apply negb_true_iff in K. rewrite K.
    f_equal; [f_equal; now apply Hx | now apply IHl].
Qed.

(** X26. What [sanitizeMiddleware] hands on.  In the body a handler gets, no
    key at any depth starts with [$] or holds a dot.  When no object of the
    body has a property [constructor] of its own, no string value holds one
    of the characters less-than, greater-than, double quote, apostrophe or
    slash.  An object with such a property is handed on unescaped, with
    everything below it: the escaping is switched off by a key of the
    sender's choice. *)
Theorem sanitized_body_is_clean (body : Json) :
  no_operator_key (sanitizeMiddleware body) = true
  /\ (no_constructor_key body = true ->
      no_markup_value (sanitizeMiddleware body) = true)
  /\ (forall fields : list (string * Json),
        no_operator_key (JObj fields) = true ->
        constructor_is_Object fields = false ->
        sanitizeMiddleware (JObj fields) = JObj fields).
Proof.
  unfold sanitizeMiddleware. split; [|split].
  - apply xssSanitize_keeps_keys, sanitize_no_operator_key.
  - intros H. apply xssSanitize_no_markup.
    now apply sanitize_keeps_constructor_free.
  - intros fields K C. rewrite (sanitize_nothing (JObj fields) K).
    cbn [xssSanitize]. now rewrite C.
Qed.

(** X27. The ampersand is not escaped, so sanitizing is idempotent and not
    injective: a sanitized body passes [sanitizeMiddleware] unchanged, and a
    string and its escaped form are handed on as the same string. *)
Theorem sanitizing_twice_changes_nothing (body : Json) (s : string) :
  sanitizeMiddleware (sanitizeMiddleware body) = sanitizeMiddleware body
  /\ sanitizeMiddleware (JStr (escape s)) = sanitizeMiddleware (JStr s).
Proof.
  split.
  - unfold sanitizeMiddleware.
    rewrite (sanitize_nothing (xssSanitize (sanitize body)))
      by apply xssSanitize_keeps_keys, sanitize_no_operator_key.
    apply xssSanitize_twice.
  - unfold sanitizeMiddleware. cbn [sanitize xssSanitize]. f_equal.
    apply escape_nothing, escape_no_markup.
Qed.

(** ** [updateUser] *)

Lemma set_paths_keeps (body : UserBody) (d : User) :
  _id (set_paths body d) = _id d
  /\ username (set_paths body d) = username d
  /\ email (set_paths body d) = email d
  /\ password (set_paths body d)
     = match body_password body with Some p => p | None => password d end
  /\ lockUntil (set_paths body d)
     = match body_lockUntil body with Some l => l | None => lockUntil d end.
Proof.
  unfold set_paths.
  destruct (body_password body), (body_loginAttempts body),
    (body_lockUntil body); now repeat split.
Qed.

Lemma updateUser_run (body : UserBody) (w : World) :
  match body_password body with
  | Some p => password_ok validators p = true
  | None => True
  end ->
  forall identifier u,
    account w identifier = Some u ->
    account (snd (updateUser (_id u) body w)) identifier
    = Some (set_paths body u).
Proof.
  intros V identifier u A. unfold updateUser.
  replace (match body_password body with
           | Some p => negb (password_ok validators p)
           | None => false
           end) with false
    by (destruct (body_password body); [now rewrite V | reflexivity]).
  unfold bind, modify_users, findById, findOne.
  set (w1 := {| users := on_id (_id u) (set_paths body) (users w);
                calls := calls w |}).
  assert (A1 : account w1 identifier = Some (set_paths body u)).
  { unfold account, w1. cbn [users].
    apply (find_on_id_hit (by_identifier identifier) u (set_paths body));
      [|exact A].
    intros x. unfold by_identifier.
    destruct (set_paths_keeps body x) as (_ & -> & -> & _). reflexivity. }
  cbn [fst snd]. fold w1.
  destruct (find _ (users w1)); exact A1.
Qed.

(** X28. [updateUser] writes the lock fields as they are sent: whatever the
    account held, its stored [loginAttempts] and [lockUntil] are those of
    the body afterwards, a lock with a counter of zero or no lock under a
    counter at the maximum included; the password stays. *)
Theorem updateUser_writes_the_lock_fields (identifier : string) (w : World)
    (u : User) (n : Z) (l : option Millis) :
  account w identifier = Some u ->
  let body :=
    {| body_password := None; body_loginAttempts := Some n;
       body_lockUntil := Some l |} in
  let w1 := snd (updateUser (_id u) body w) in
  exists u1,
    account w1 identifier = Some u1
    /\ loginAttempts u1 = n
    /\ lockUntil u1 = l
    /\ password u1 = password u.
Proof.
  intros A. cbv zeta.
  set (body := {| body_password := None |}).
  pose proof (updateUser_run body w I identifier u A) as A1.
  exists (set_paths body u). split; [exact A1|]. now repeat split.
Qed.

(** X29. [updateUser] stores a password as it is sent: the value passes the
    validators of the schema and is written without hashing.  A login then
    takes the stored string for a digest: it accepts a password exactly
    when the string that was sent has the 60 characters of a bcrypt digest
    and is the digest of that password under the salt it begins with.  So
    unless a digest was sent, the account rejects every password from then
    on, the one that was sent included. *)
Theorem updateUser_stores_the_password_unhashed (identifier : string)
    (w : World) (u : User) (p : string) :
  account w identifier = Some u ->
  password_ok validators p = true ->
  let body :=
    {| body_password := Some p; body_loginAttempts := None;
       body_lockUntil := None |} in
  let w1 := snd (updateUser (_id u) body w) in
  (exists u1, account w1 identifier = Some u1 /\ password u1 = p)
  /\ (forall (s : string) (now later : Millis),
        fst (getAuthenticatedUser identifier (Js.Str s) now later w1)
        = Normal {| user := Some (select_login (set_paths body u));
                    reason := None |}
        <-> String.length p = 60%nat
            /\ crypt s (substring 0 29 p) = Some p)
  /\ (String.length p <> 60%nat ->
      forall (pw : Js.value) (now later : Millis),
        fst (getAuthenticatedUser identifier pw now later w1)
        = Normal {| user := None; reason := Some INVALID_PASSWORD |}).
Proof.
  intros A V. cbv zeta.
  set (body := {| body_password := Some p |}).
  pose proof (updateUser_run body w V identifier u A) as A1.
  split; [eexists; split; [exact A1 | reflexivity]|].
  assert (P : password (set_paths body u) = p) by reflexivity.
  split.
  - intros s now later. rewrite auth_answer, A1.
    unfold verifies, Bcrypt.compare, Bcrypt.hash. rewrite P.
    destruct (Nat.eqb (String.length p) 60) eqn:Len; cbn [negb].
    + apply Nat.eqb_eq in Len. rewrite Len. cbn [Nat.sub].
      destruct (crypt s (substring 0 29 p)) as [comp|].
      * destruct (comp =? p)%string eqn:E.
        -- apply String.eqb_eq in E. subst comp. now split.
        -- apply String.eqb_neq in E. split; [discriminate|].
           intros [_ X]. congruence.
      * split; [discriminate|]. intros [_ X]. discriminate.
    + apply Nat.eqb_neq in Len. split; [discriminate|]. now intros [X _].
  - intros Len pw now later.
    rewrite (auth_invalid identifier pw now later _ _ A1); [reflexivity|].
    unfold verifies, Bcrypt.compare. rewrite P.
    apply Nat.eqb_neq in Len. destruct pw; try reflexivity.
    now rewrite Len.
Qed.

End Accounts.

(** * Concrete instances *)

(** C4, on the code. The account holds an expired record for ["old-token"]
    and a live record for ["new-token"]; redeeming ["old-token"] at instant
    500, after its expiry at 100, succeeds and rotates. *)
Theorem refresh_accepts_expired_record :
  (forall r, In r (refreshTokens alice_two_sessions) ->
             token r = "old-token" -> expiresAt r <= 500)
  /\ fst (refreshToken sample_crypt sample_validators default_env
            (Some "old-token") "rotated" sample_salt 500 500
            {| users := [alice_two_sessions]; calls := [] |})
     = Normal (json 200 ""
                 (token_pair (getSignedJwtToken default_env alice_two_sessions 500)
                    "rotated")).
Proof.
  split.
  - intros r [<-|[<-|[]]]; cbn; [lia | discriminate].
  - reflexivity.
Qed.

(** Against C7 as stated: a token signed under the server's secret but naming
    another issuer and another audience passes [protect], although a
    verification told which issuer and audience to expect rejects it. *)
Lemma protect_ignores_issuer_and_audience :
  fst (protect default_env
         {| bearer := Some foreign_token; cookie_accessToken := None |}
         1000 alice_world)
  = Normal (next_with alice)
  /\ Jwt.verify foreign_token (JWT_SECRET default_env)
       {| Jwt.audience := Some (JWT_AUDIENCE default_env);
          Jwt.issuer := Some (JWT_ISSUER default_env) |} 1000
     = inl (Jwt.JsonWebTokenError "jwt audience invalid").
Proof. split; reflexivity. Qed.

(** Against C8 as stated: a password that arrives as a JSON number makes the
    comparison fail, and [matchPassword] returns [undefined], not [false]. *)
Lemma matchPassword_undefined_on_failure :
  fst (matchPassword sample_crypt alice (Js.Num 12345) alice_world)
  = Normal Js.Undefined
  /\ Js.Undefined <> Js.Bool false.
Proof. split; [reflexivity | discriminate]. Qed.

(** Under [.env.example]: five wrong passwords on alice lock her until
    1805300; the right password at instant 6000 logs her in. *)
Lemma lock_does_not_stop_the_right_password_witness :
  account alice_world "alice" = Some alice
  /\ loginAttempts alice = 0
  /\ lockUntil alice = None
  /\ Z.of_nat (List.length four_wrong) + 1 = MAX_LOGIN_ATTEMPTS default_env
  /\ (forall a, In a (four_wrong ++ [wrong_at 5000]) ->
                verifies sample_crypt alice (entered a) = false)
  /\ verifies sample_crypt alice (Js.Str sample_password) = true
  /\ 6000 < at_update (wrong_at 5000) + LOCKOUT_TIME default_env * 60 * 1000
  /\ account (attempts sample_crypt default_env alice_world "alice"
                (four_wrong ++ [wrong_at 5000])) "alice"
     = Some alice_locked
  /\ isLocked alice_locked 6000 = true
  /\ (exists saved access,
        fst (login sample_crypt sample_validators default_env true "alice"
               (Js.Str sample_password) "session" sample_salt
               6000 6300 6300 6400
               (attempts sample_crypt default_env alice_world "alice"
                  (four_wrong ++ [wrong_at 5000])))
        = Normal (json 200 "Login successful" (session saved access "session")))
  /\ exists u'',
       account
         (snd (login sample_crypt sample_validators default_env true "alice"
                 (Js.Str sample_password) "session" sample_salt
                 6000 6300 6300 6400
                 (attempts sample_crypt default_env alice_world "alice"
                    (four_wrong ++ [wrong_at 5000])))) "alice" = Some u''
       /\ loginAttempts u'' = 0
       /\ lockUntil u'' = None.
Proof.
  assert (V : forall a, In a (four_wrong ++ [wrong_at 5000]) ->
                        verifies sample_crypt alice (entered a) = false).
  { intros a [<-|[<-|[<-|[<-|[<-|[]]]]]]; reflexivity. }
  assert (Lt : 6000 < at_update (wrong_at 5000)
                      + LOCKOUT_TIME default_env * 60 * 1000)
    by (vm_compute; reflexivity).
  destruct (lock_does_not_stop_the_right_password sample_crypt
              sample_validators default_env "alice" alice_world alice
              four_wrong (wrong_at 5000) (Js.Str sample_password)
              "session" sample_salt 6000 6300 6300 6400
              eq_refl eq_refl eq_refl eq_refl V eq_refl Lt)
    as (_ & _ & S & K).
  refine (conj eq_refl (conj eq_refl (conj eq_refl (conj eq_refl (conj V
            (conj eq_refl (conj Lt (conj _ (conj eq_refl (conj S K)))))))))).
  vm_compute. reflexivity.
Defined.

(** alice, locked until 1805300, tries a wrong password at instant 7000. *)
Lemma locked_account_is_compared_witness :
  account {| users := [alice_locked]; calls := [] |} "alice" = Some alice_locked
  /\ lockUntil alice_locked = Some 1805300
  /\ 7000 < 1805300
  /\ isLocked alice_locked 7000 = true
  /\ calls (snd (getAuthenticatedUser sample_crypt default_env "alice"
                   (Js.Str "letmein") 7000 7300
                   {| users := [alice_locked]; calls := [] |}))
     = [bcrypt_compare (Js.Str "letmein") (Js.Str (password alice_locked))]
  /\ fst (getAuthenticatedUser sample_crypt default_env "alice"
            (Js.Str "letmein") 7000 7300
            {| users := [alice_locked]; calls := [] |})
     = Normal {| user := None; reason := Some INVALID_PASSWORD |}.
Proof.
  assert (Lt : 7000 < 1805300) by lia.
  destruct (locked_account_is_compared sample_crypt default_env "alice"
              (Js.Str "letmein") 7000 7300
              {| users := [alice_locked]; calls := [] |} alice_locked 1805300
              eq_refl eq_refl Lt)
    as (L & C & R & _).
  exact (conj eq_refl (conj eq_refl (conj Lt (conj L (conj C R))))).
Defined.

(** alice, locked until 1805300 with five failures, at instant 7000: a wrong
    password moves the expiry to 1807300 and is answered INVALID_PASSWORD;
    the right password logs her in and clears the lock. *)
Lemma attempt_during_lockout_witness :
  account {| users := [alice_locked]; calls := [] |} "alice" = Some alice_locked
  /\ lockUntil alice_locked = Some 1805300
  /\ 7000 < 1805300
  /\ MAX_LOGIN_ATTEMPTS default_env <= loginAttempts alice_locked + 1
  /\ 0 < loginAttempts alice_locked
  /\ verifies sample_crypt alice_locked (Js.Str "letmein") = false
  /\ verifies sample_crypt alice_locked (Js.Str sample_password) = true
  /\ (fst (getAuthenticatedUser sample_crypt default_env "alice"
             (Js.Str "letmein") 7000 7300
             {| users := [alice_locked]; calls := [] |})
      = Normal {| user := None; reason := Some INVALID_PASSWORD |}
      /\ exists u',
           account (snd (getAuthenticatedUser sample_crypt default_env "alice"
                           (Js.Str "letmein") 7000 7300
                           {| users := [alice_locked]; calls := [] |})) "alice"
           = Some u'
           /\ loginAttempts u' = loginAttempts alice_locked + 1
           /\ lockUntil u' = Some (7300 + LOCKOUT_TIME default_env * 60 * 1000))
  /\ (fst (getAuthenticatedUser sample_crypt default_env "alice"
             (Js.Str sample_password) 7000 7300
             {| users := [alice_locked]; calls := [] |})
      = Normal {| user := Some (select_login alice_locked); reason := None |}
      /\ exists u',
           account (snd (getAuthenticatedUser sample_crypt default_env "alice"
                           (Js.Str sample_password) 7000 7300
                           {| users := [alice_locked]; calls := [] |})) "alice"
           = Some u'
           /\ loginAttempts u' = 0
           /\ lockUntil u' = None).
Proof.
  assert (Lt : 7000 < 1805300) by lia.
  assert (M : MAX_LOGIN_ATTEMPTS default_env <= loginAttempts alice_locked + 1)
    by (vm_compute; discriminate).
  assert (C : 0 < loginAttempts alice_locked) by (vm_compute; reflexivity).
  refine (conj eq_refl (conj eq_refl (conj Lt (conj M (conj C
            (conj eq_refl (conj eq_refl (conj _ _)))))))).
  - exact (proj1 (proj2
             (attempt_during_lockout sample_crypt default_env "alice"
                (Js.Str "letmein") 7000 7300
                {| users := [alice_locked]; calls := [] |} alice_locked 1805300
                eq_refl eq_refl Lt M C)) eq_refl).
  - exact (proj2 (proj2
             (attempt_during_lockout sample_crypt default_env "alice"
                (Js.Str sample_password) 7000 7300
                {| users := [alice_locked]; calls := [] |} alice_locked 1805300
                eq_refl eq_refl Lt M C)) eq_refl).
Defined.



(** alice logs in with the right password after her lock has run out. *)
Lemma successful_login_resets_witness :
  account {| users := [alice_locked]; calls := [] |} "alice" = Some alice_locked
  /\ isLocked alice_locked 2000000 = false
  /\ verifies sample_crypt alice_locked (Js.Str sample_password) = true
  /\ 0 <= loginAttempts alice_locked
  /\ exists u',
       account
         (snd (login sample_crypt sample_validators default_env true "alice"
                 (Js.Str sample_password) "session" sample_salt
                 2000000 2000300 2000300 2000400
                 {| users := [alice_locked]; calls := [] |})) "alice" = Some u'
       /\ lastLogin (status u') = Some 2000300
       /\ loginAttempts u' = 0
       /\ lockUntil u' = None.
Proof.
  assert (C : 0 <= loginAttempts alice_locked) by (cbn; lia).
  destruct (successful_login_resets sample_crypt sample_validators default_env
              "alice" (Js.Str sample_password) "session" sample_salt
              2000000 2000300 2000300 2000400
              {| users := [alice_locked]; calls := [] |} alice_locked
              eq_refl eq_refl eq_refl C)
    as (_ & u' & A & L & Z0 & K).
  refine (conj eq_refl (conj eq_refl (conj eq_refl (conj C _)))).
  exists u'.
  refine (conj A (conj L (conj Z0 _))).
  apply K. cbn. lia.
Defined.

(** alice's pending reset token, sent to the route and to the handler. *)
Lemma reset_token_is_never_consumed_witness :
  find (reset_filter (sample_sha256 "reset-me") 1000) [alice_pending]
  = Some alice_pending
  /\ password_ok sample_validators "N3w-Passw0rd!" = true
  /\ sample_crypt "N3w-Passw0rd!" sample_salt
     = Some (sample_salt ++ "N3w-Passw0rd!")%string
  /\ succeeded
       (fst (resetPassword sample_crypt sample_sha256 sample_validators
               default_env true "reset-me" "N3w-Passw0rd!" sample_salt
               1000 1000 {| users := [alice_pending]; calls := [] |})) = true
  /\ reset_password_route sample_crypt sample_sha256 sample_validators
       default_env "reset-me" true "N3w-Passw0rd!" sample_salt 1000 1000
       {| users := [alice_pending]; calls := [] |}
     = (Normal (next_error "Validation error" 400),
        {| users := [alice_pending]; calls := [] |})
  /\ find (reset_filter (sample_sha256 "reset-me") 1000)
       (users (snd (reset_password_route sample_crypt sample_sha256
                      sample_validators default_env "reset-me" true
                      "N3w-Passw0rd!" sample_salt 1000 1000
                      {| users := [alice_pending]; calls := [] |})))
     = Some alice_pending.
Proof.
  destruct (reset_token_is_never_consumed sample_crypt sample_sha256
              sample_validators default_env "reset-me" "N3w-Passw0rd!"
              sample_salt (sample_salt ++ "N3w-Passw0rd!")%string 1000 1000
              {| users := [alice_pending]; calls := [] |} alice_pending
              eq_refl eq_refl eq_refl)
    as (H & K).
  destruct (K true) as (A & B & _).
  refine (conj eq_refl (conj eq_refl (conj eq_refl (conj H (conj _ _))))).
  - rewrite (surjective_pairing (reset_password_route _ _ _ _ _ _ _ _ _ _ _)).
    now rewrite A, B.
  - now rewrite B.
Defined.


(** ** Instances of the further properties *)

(** alice, five failures and a lock that ran out at 1805300, tries a wrong
    password at instant 2000000. *)
Lemma expired_lock_does_not_restart_the_count_witness :
  account {| users := [alice_locked]; calls := [] |} "alice" = Some alice_locked
  /\ lockUntil alice_locked = Some 1805300
  /\ 1805300 < 2000000
  /\ MAX_LOGIN_ATTEMPTS default_env <= loginAttempts alice_locked
  /\ verifies sample_crypt alice_locked (Js.Str "letmein") = false
  /\ exists u',
       account
         (snd (getAuthenticatedUser sample_crypt default_env "alice"
                 (Js.Str "letmein") 2000000 2000300
                 {| users := [alice_locked]; calls := [] |})) "alice" = Some u'
       /\ loginAttempts u' = 6
       /\ lockUntil u' = Some 3800300.
Proof.
  assert (L1 : 1805300 < 2000000) by lia.
  assert (L2 : 2000000 <= 2000300) by lia.
  assert (M : MAX_LOGIN_ATTEMPTS default_env <= loginAttempts alice_locked)
    by (vm_compute; discriminate).
  destruct (expired_lock_does_not_restart_the_count sample_crypt default_env
              "alice" (Js.Str "letmein") 2000000 2000300
              {| users := [alice_locked]; calls := [] |} alice_locked 1805300
              eq_refl eq_refl L1 L2 M eq_refl)
    as (_ & _ & K).
  exact (conj eq_refl (conj eq_refl (conj L1 (conj M (conj eq_refl K))))).
Defined.

(** alice logs in while she holds an expired and a live session. *)
Lemma login_drops_earlier_sessions_witness :
  account {| users := [alice_two_sessions]; calls := [] |} "alice"
  = Some alice_two_sessions
  /\ verifies sample_crypt alice_two_sessions (Js.Str sample_password) = true
  /\ holds_refresh "new-token" alice_two_sessions = true
  /\ "new-token" <> "third-token"
  /\ (exists u',
        account
          (snd (login sample_crypt sample_validators default_env true "alice"
                  (Js.Str sample_password) "third-token" sample_salt
                  500 550 600 650
                  {| users := [alice_two_sessions]; calls := [] |})) "alice"
        = Some u'
        /\ refreshTokens u' = [issued_record "third-token" 600])
  /\ succeeded
       (fst (refreshToken sample_crypt sample_validators default_env
               (Some "new-token") "fourth-token" sample_salt 1000 1100
               (snd (login sample_crypt sample_validators default_env true
                       "alice" (Js.Str sample_password) "third-token"
                       sample_salt 500 550 600 650
                       {| users := [alice_two_sessions]; calls := [] |}))))
     = false.
Proof.
  assert (D : "new-token" <> "third-token") by discriminate.
  assert (U : forall d,
             In d (users {| users := [alice_two_sessions]; calls := [] |}) ->
             holds_refresh "new-token" d = true ->
             _id d = _id alice_two_sessions).
  { intros d [<-|[]] _. reflexivity. }
  destruct (login_drops_earlier_sessions sample_crypt sample_validators
              default_env "alice" (Js.Str sample_password) "third-token"
              sample_salt 500 550 600 650
              {| users := [alice_two_sessions]; calls := [] |}
              alice_two_sessions "new-token" "fourth-token" sample_salt
              1000 1100 eq_refl eq_refl eq_refl D U)
    as (A & R).
  exact (conj eq_refl (conj eq_refl (conj eq_refl (conj D (conj A R))))).
Defined.

Lemma login_token_redeemable_witness :
  account alice_world "alice" = Some alice
  /\ isLocked alice 500 = false
  /\ verifies sample_crypt alice (Js.Str sample_password) = true
  /\ "third-token" <> ""
  /\ 1000 < 600 + 7 * 24 * 60 * 60 * 1000
  /\ succeeded
       (fst (refreshToken sample_crypt sample_validators default_env
               (Some "third-token") "fourth-token" sample_salt 1000 1100
               (snd (login sample_crypt sample_validators default_env true
                       "alice" (Js.Str sample_password) "third-token"
                       sample_salt 500 550 600 650 alice_world)))) = true.
Proof.
  assert (N : "third-token" <> "") by discriminate.
  assert (L : 1000 < 600 + 7 * 24 * 60 * 60 * 1000) by lia.
  refine (conj eq_refl (conj eq_refl (conj eq_refl (conj N (conj L _))))).
  exact (login_token_redeemable sample_crypt sample_validators default_env
           "alice" (Js.Str sample_password) "third-token" sample_salt
           500 550 600 650 alice_world alice "fourth-token" sample_salt
           1000 1100 eq_refl eq_refl eq_refl N L).
Defined.

(** alice logs in at instant 600 and presents the token of the answer at
    instant 5000. *)
Lemma login_access_token_witness :
  account alice_world "alice" = Some alice
  /\ stored alice_world (_id alice) = Some alice
  /\ verifies sample_crypt alice (Js.Str sample_password) = true
  /\ isActive (status alice) = true
  /\ 5000 / 1000 < 600 / 1000 + JWT_EXPIRE default_env
  /\ (exists saved,
        fst (login sample_crypt sample_validators default_env true "alice"
               (Js.Str sample_password) "third-token" sample_salt
               500 550 600 650 alice_world)
        = Normal
            (json 200 "Login successful"
               (session saved
                  (Jwt.Signed (JWT_SECRET default_env)
                     {| Jwt.id := 1; Jwt.email := None; Jwt.username := None;
                        Jwt.role := None; Jwt.iat := 0; Jwt.exp := 2592000;
                        Jwt.iss := Some (JWT_ISSUER default_env);
                        Jwt.aud := Some (JWT_AUDIENCE default_env) |})
                  "third-token")))
  /\ exists this,
       fst (protect default_env
              {| bearer :=
                   Some (Jwt.Signed (JWT_SECRET default_env)
                           {| Jwt.id := 1; Jwt.email := None;
                              Jwt.username := None; Jwt.role := None;
                              Jwt.iat := 0; Jwt.exp := 2592000;
                              Jwt.iss := Some (JWT_ISSUER default_env);
                              Jwt.aud := Some (JWT_AUDIENCE default_env) |});
                 cookie_accessToken := None |} 5000
              (snd (login sample_crypt sample_validators default_env true
                      "alice" (Js.Str sample_password) "third-token"
                      sample_salt 500 550 600 650 alice_world)))
       = Normal (next_with this)
       /\ _id this = 1%nat.
Proof.
  assert (L : 5000 / 1000 < 600 / 1000 + JWT_EXPIRE default_env)
    by (vm_compute; reflexivity).
  destruct (login_access_token sample_crypt sample_validators
              default_env "alice" (Js.Str sample_password) "third-token"
              sample_salt 500 550 600 650 alice_world alice
              eq_refl eq_refl eq_refl eq_refl) as [S K].
  destruct (K {| bearer :=
                   Some (Jwt.Signed (JWT_SECRET default_env)
                           {| Jwt.id := 1; Jwt.email := None;
                              Jwt.username := None; Jwt.role := None;
                              Jwt.iat := 0; Jwt.exp := 2592000;
                              Jwt.iss := Some (JWT_ISSUER default_env);
                              Jwt.aud := Some (JWT_AUDIENCE default_env) |});
                 cookie_accessToken := None |} 5000 eq_refl L)
    as (this & P & _ & I).
  refine (conj eq_refl (conj eq_refl (conj eq_refl (conj eq_refl
            (conj L (conj S _)))))).
  exists this. exact (conj P I).
Defined.

Lemma registered_user_can_log_in_witness :
  create sample_crypt sample_validators 1 " alice " "Alice@Example.com"
    sample_password sample_salt 0 empty_world = (Normal alice, alice_world)
  /\ account empty_world (trim " alice ") = None
  /\ succeeded
       (fst (login sample_crypt sample_validators default_env true
               (trim " alice ") (Js.Str sample_password) "second-token"
               sample_salt 1000 1050 1100 1150
               (snd (register sample_crypt sample_sha256 sample_validators
                       default_env true " alice " "Alice@Example.com"
                       sample_password 1 sample_salt "verify-me" "first-token"
                       true 0 0 100 empty_world)))) = true.
Proof.
  assert (F : forall d, In d (users empty_world) -> _id d <> 1%nat)
    by (intros d []).
  destruct (registered_user_can_log_in sample_crypt sample_sha256
              sample_validators default_env " alice " "Alice@Example.com"
              sample_password 1 sample_salt "verify-me" "first-token" 0 0 100
              empty_world alice_world alice
              "second-token" sample_salt 1000 1050 1100 1150
              eq_refl F eq_refl eq_refl eq_refl) as [_ K].
  exact (conj eq_refl (conj eq_refl K)).
Defined.

Lemma resent_verification_token_lifetime_witness :
  In alice (users alice_world)
  /\ emailVerified (status alice) = false
  /\ (succeeded
        (fst (verifyEmail sample_crypt sample_sha256 sample_validators
                "verify-2" sample_salt 2000
                (snd (resendVerification sample_crypt sample_sha256
                        sample_validators default_env alice "verify-2"
                        sample_salt true 1000 alice_world)))) = true
      <-> 2000 < 1000 + EMAIL_VERIFICATION_EXPIRE default_env * 60 * 60 * 1000).
Proof.
  assert (I : In alice (users alice_world)) by (left; reflexivity).
  assert (O : forall d, In d (users alice_world) -> _id d <> _id alice ->
                        emailVerificationToken d
                        <> Some (sample_sha256 "verify-2")).
  { intros d [<-|[]] N. now contradiction N. }
  destruct (resent_verification_token_lifetime sample_crypt sample_sha256
              sample_validators default_env alice "verify-2" sample_salt true
              1000 alice_world sample_salt 2000 I eq_refl O) as (_ & _ & K).
  exact (conj I (conj eq_refl K)).
Defined.

Lemma logout_closes_one_session_witness :
  "old-token" <> ""
  /\ In alice_two_sessions (users {| users := [alice_two_sessions]; calls := [] |})
  /\ forall d,
       In d (users (snd (logout sample_crypt sample_validators
                           alice_two_sessions (Some "old-token") sample_salt
                           500 {| users := [alice_two_sessions]; calls := [] |}))) ->
       _id d = _id alice_two_sessions ->
       holds_refresh "old-token" d = false.
Proof.
  assert (N : "old-token" <> "") by discriminate.
  assert (I : In alice_two_sessions
                (users {| users := [alice_two_sessions]; calls := [] |}))
    by (left; reflexivity).
  destruct (logout_closes_one_session sample_crypt sample_validators
              default_env alice_two_sessions "old-token" sample_salt 500
              {| users := [alice_two_sessions]; calls := [] |} N I)
    as (K & _).
  exact (conj N (conj I K)).
Defined.

Lemma updatePassword_keeps_sessions_witness :
  stored {| users := [alice_one_session]; calls := [] |} (_id alice_one_session)
  = Some alice_one_session
  /\ password_ok sample_validators "Another1!Another1!Another1!1234" = true
  /\ String.length (sample_salt ++ "Another1!Another1!Another1!1234") = 60%nat
  /\ exists u',
       stored
         (snd (updatePassword sample_crypt sample_validators default_env true
                 alice_one_session (Js.Str sample_password)
                 "Another1!Another1!Another1!1234" sample_salt 1000
                 {| users := [alice_one_session]; calls := [] |}))
         (_id alice_one_session) = Some u'
       /\ password u' = (sample_salt ++ "Another1!Another1!Another1!1234")%string
       /\ refreshTokens u' = refreshTokens alice_one_session.
Proof.
  destruct (updatePassword_keeps_sessions sample_crypt sample_validators
              default_env alice_one_session alice_one_session
              (Js.Str sample_password) "Another1!Another1!Another1!1234"
              sample_salt
              (sample_salt ++ "Another1!Another1!Another1!1234")%string
              1000 {| users := [alice_one_session]; calls := [] |}
              eq_refl eq_refl eq_refl eq_refl eq_refl) as [_ K].
  destruct (K eq_refl) as (_ & (u' & S & P & R & _) & _).
  refine (conj eq_refl (conj eq_refl (conj eq_refl _))).
  exists u'. exact (conj S (conj P R)).
Defined.
Lemma rate_limit_window_witness :
  no_attempts "10.0.0.1" = None
  /\ (4 <= List.length [1; 2; 3; 4; 5; 6])%nat
  /\ nth 4 (snd (limit_all (15 * 60 * 1000) 5 no_attempts
                   (map (fun t => ("10.0.0.1", t)) (0 :: [1; 2; 3; 4; 5; 6]))))
       too_many = passed
  /\ nth 5 (snd (limit_all (15 * 60 * 1000) 5 no_attempts
                   (map (fun t => ("10.0.0.1", t)) (0 :: [1; 2; 3; 4; 5; 6]))))
       too_many = too_many.
Proof.
  assert (B : forall t, In t [1; 2; 3; 4; 5; 6] -> t <= 0 + 15 * 60 * 1000).
  { intros t [<-|[<-|[<-|[<-|[<-|[<-|[]]]]]]]; lia. }
  assert (J4 : (4 <= List.length [1; 2; 3; 4; 5; 6])%nat) by (cbn; lia).
  assert (J5 : (5 <= List.length [1; 2; 3; 4; 5; 6])%nat) by (cbn; lia).
  exact (conj eq_refl
           (conj J4
              (conj (rate_limit_window (15 * 60 * 1000) 5 no_attempts
                       "10.0.0.1" 0 [1; 2; 3; 4; 5; 6] eq_refl B 4%nat J4)
                    (rate_limit_window (15 * 60 * 1000) 5 no_attempts
                       "10.0.0.1" 0 [1; 2; 3; 4; 5; 6] eq_refl B 5%nat J5)))).
Defined.

Lemma login_route_limited_witness :
  no_attempts "10.0.0.1" = None
  /\ List.length [wrong_login_at 100; wrong_login_at 200; wrong_login_at 300;
                  wrong_login_at 400] = 4%nat
  /\ snd (login_route_all sample_crypt sample_validators default_env
            no_attempts "10.0.0.1" alice_world
            ((wrong_login_at 0
              :: [wrong_login_at 100; wrong_login_at 200; wrong_login_at 300;
                  wrong_login_at 400])
             ++ [wrong_login_at 500; wrong_login_at 600]))
     = snd (login_route_all sample_crypt sample_validators default_env
              no_attempts "10.0.0.1" alice_world
              (wrong_login_at 0
               :: [wrong_login_at 100; wrong_login_at 200; wrong_login_at 300;
                   wrong_login_at 400]))
       ++ repeat (Normal too_many_requests) 2.
Proof.
  assert (B : forall c,
             In c ([wrong_login_at 100; wrong_login_at 200; wrong_login_at 300;
                    wrong_login_at 400]
                   ++ [wrong_login_at 500; wrong_login_at 600]) ->
             at_limiter c <= at_limiter (wrong_login_at 0) + 15 * 60 * 1000).
  { intros c [<-|[<-|[<-|[<-|[<-|[<-|[]]]]]]]; cbn; lia. }
  refine (conj eq_refl (conj eq_refl _)).
  exact (f_equal snd
           (login_route_limited sample_crypt sample_validators default_env
              no_attempts "10.0.0.1" alice_world (wrong_login_at 0)
              [wrong_login_at 100; wrong_login_at 200; wrong_login_at 300;
               wrong_login_at 400]
              [wrong_login_at 500; wrong_login_at 600] eq_refl eq_refl B)).
Defined.

Lemma deactivated_account_can_log_in_witness :
  account alice_world "alice" = Some alice
  /\ stored alice_world (_id alice) = Some alice
  /\ isLocked alice 500 = false
  /\ verifies sample_crypt alice (Js.Str sample_password) = true
  /\ 5000 / 1000 < 600 / 1000 + JWT_EXPIRE default_env
  /\ succeeded
       (fst (login sample_crypt sample_validators default_env true "alice"
               (Js.Str sample_password) "third-token" sample_salt
               500 550 600 650 (snd (deleteUser (_id alice) alice_world))))
     = true
  /\ fst (protect default_env
            {| bearer := Some (getSignedJwtToken default_env alice 600);
               cookie_accessToken := None |} 5000
            (snd (deleteUser (_id alice) alice_world)))
     = Normal (next_error "User account is deacrivated" 401).
Proof.
  assert (L : 5000 / 1000 < 600 / 1000 + JWT_EXPIRE default_env)
    by (vm_compute; reflexivity).
  destruct (deactivated_account_can_log_in sample_crypt sample_validators
              default_env "alice" alice_world alice (Js.Str sample_password)
              "third-token" sample_salt 500 550 600 650
              {| bearer := Some (getSignedJwtToken default_env alice 600);
                 cookie_accessToken := None |} 5000
              eq_refl eq_refl eq_refl eq_refl eq_refl L)
    as (_ & _ & S & P & _).
  exact (conj eq_refl (conj eq_refl (conj eq_refl (conj eq_refl
           (conj L (conj S P)))))).
Defined.

Lemma sample_history_reachable :
  reachable sample_crypt sample_sha256 sample_validators default_env 5300
    (replay sample_crypt sample_sha256 sample_validators default_env
       empty_world sample_history).
Proof.
  cbn [replay sample_history].
  repeat (lazymatch goal with
          | |- reachable _ _ _ _ _ (snd (handle _ _ _ _ ?r ?w)) =>
              eapply (reachable_step _ _ _ _ _ w r)
          end).
  - apply (reachable_empty _ _ _ _ 0).
  - cbn. lia.
  - cbn. lia.
  - intros d [].
  - cbn. lia.
  - cbn. lia.
  - exact I.
  - cbn. lia.
  - cbn. lia.
  - exact I.
  - cbn. lia.
  - cbn. lia.
  - exact I.
  - cbn. lia.
  - cbn. lia.
  - exact I.
  - cbn. lia.
  - cbn. lia.
  - exact I.
Qed.

Lemma two_accounts_history_reachable :
  reachable sample_crypt sample_sha256 sample_validators default_env 3400
    (replay sample_crypt sample_sha256 sample_validators default_env
       empty_world two_accounts_history).
Proof.
  cbn [replay two_accounts_history].
  repeat (lazymatch goal with
          | |- reachable _ _ _ _ _ (snd (handle _ _ _ _ ?r ?w)) =>
              eapply (reachable_step _ _ _ _ _ w r)
          end).
  - apply (reachable_empty _ _ _ _ 0).
  - cbn. lia.
  - cbn. lia.
  - intros d [].
  - cbn. lia.
  - cbn. lia.
  - intros d H. vm_compute in H. destruct H as [<-|[]]. discriminate.
  - cbn. lia.
  - cbn. lia.
  - intros d H. vm_compute in H. destruct H as [<-|[<-|[]]]; discriminate.
  - cbn. lia.
  - cbn. lia.
  - exact I.
Qed.

(** alice and bob register, a third registration asks for alice's username
    again, alice logs in: the store holds the two accounts. *)
Lemma accounts_stay_unique_witness :
  reachable sample_crypt sample_sha256 sample_validators default_env 3400
    (replay sample_crypt sample_sha256 sample_validators default_env
       empty_world two_accounts_history)
  /\ map username
       (users (replay sample_crypt sample_sha256 sample_validators default_env
                 empty_world two_accounts_history))
     = ["alice"; "bob"]
  /\ unique_accounts
       (replay sample_crypt sample_sha256 sample_validators default_env
          empty_world two_accounts_history).
Proof.
  refine (conj two_accounts_history_reachable (conj _ _)).
  - vm_compute. reflexivity.
  - exact (accounts_stay_unique sample_crypt sample_sha256 sample_validators
             default_env 3400 _ two_accounts_history_reachable).
Defined.

Lemma passwords_stay_hashed_witness :
  reachable sample_crypt sample_sha256 sample_validators default_env 5300
    (replay sample_crypt sample_sha256 sample_validators default_env
       empty_world sample_history)
  /\ passwords_hashed sample_crypt
       (replay sample_crypt sample_sha256 sample_validators default_env
          empty_world sample_history).
Proof.
  exact (conj sample_history_reachable
           (passwords_stay_hashed sample_crypt sample_sha256 sample_validators
              default_env 5300 _ sample_history_reachable)).
Defined.

(** A request stores a lock on alice, who has no failed attempt. *)
Lemma updateUser_writes_the_lock_fields_witness :
  account alice_world "alice" = Some alice
  /\ exists u1,
       account
         (snd (updateUser sample_validators (_id alice)
                 {| body_password := None; body_loginAttempts := Some 0;
                    body_lockUntil := Some (Some 9000000) |} alice_world))
         "alice" = Some u1
       /\ loginAttempts u1 = 0
       /\ lockUntil u1 = Some 9000000
       /\ password u1 = password alice.
Proof.
  exact (conj eq_refl
           (updateUser_writes_the_lock_fields sample_validators "alice"
              alice_world alice 0 (Some 9000000) eq_refl)).
Defined.

(** A request sends ["Plain1!"] as alice's password, and another one sends
    the digest of another password. *)
Lemma updateUser_stores_the_password_unhashed_witness :
  account alice_world "alice" = Some alice
  /\ password_ok sample_validators "Plain1!" = true
  /\ String.length "Plain1!" <> 60%nat
  /\ fst (getAuthenticatedUser sample_crypt default_env "alice"
            (Js.Str "Plain1!") 2000 2300
            (snd (updateUser sample_validators (_id alice)
                    {| body_password := Some "Plain1!";
                       body_loginAttempts := None; body_lockUntil := None |}
                    alice_world)))
     = Normal {| user := None; reason := Some INVALID_PASSWORD |}
  /\ password_ok sample_validators (sample_salt ++ other_password) = true
  /\ String.length (sample_salt ++ other_password) = 60%nat
  /\ sample_crypt other_password
       (substring 0 29 (sample_salt ++ other_password))
     = Some (sample_salt ++ other_password)%string
  /\ fst (getAuthenticatedUser sample_crypt default_env "alice"
            (Js.Str other_password) 2000 2300
            (snd (updateUser sample_validators (_id alice)
                    {| body_password := Some (sample_salt ++ other_password)%string;
                       body_loginAttempts := None; body_lockUntil := None |}
                    alice_world)))
     = Normal
         {| user :=
              Some (select_login
                      (set_paths
                         {| body_password :=
                              Some (sample_salt ++ other_password)%string;
                            body_loginAttempts := None;
                            body_lockUntil := None |} alice));
            reason := None |}.
Proof.
  assert (N : String.length "Plain1!" <> 60%nat) by (cbn; lia).
  refine (conj eq_refl (conj eq_refl (conj N (conj _ (conj eq_refl
            (conj eq_refl (conj eq_refl _))))))).
  - exact (proj2 (proj2
             (updateUser_stores_the_password_unhashed sample_crypt
                sample_validators default_env "alice" alice_world alice
                "Plain1!" eq_refl eq_refl))
             N (Js.Str "Plain1!") 2000 2300).
  - apply (proj1 (proj2
             (updateUser_stores_the_password_unhashed sample_crypt
                sample_validators default_env "alice" alice_world alice
                (sample_salt ++ other_password)%string eq_refl eq_refl))
             other_password 2000 2300).
    split; reflexivity.
Defined.

Lemma sample_forum_reachable : forum_reachable sample_forum.
Proof.
  unfold sample_forum. cbn [serve_all sample_comment_requests].
  repeat (lazymatch goal with
          | |- forum_reachable (snd (serve ?r ?f)) => apply (forum_step f r)
          end).
  - apply forum_start.
  - intros c [].
  - intros c Hc. vm_compute in Hc.
    repeat (destruct Hc as [<-|Hc]; [split; discriminate|]). destruct Hc.
  - intros c Hc. vm_compute in Hc.
    repeat (destruct Hc as [<-|Hc]; [split; discriminate|]). destruct Hc.
  - exact I.
Qed.

Lemma sample_comment_stored : In sample_comment (comments sample_forum).
Proof. vm_compute. left. reflexivity. Qed.

Lemma like_counts_stay_exact_witness :
  forum_reachable sample_forum
  /\ In sample_comment (comments sample_forum)
  /\ likeCount sample_comment = Z.of_nat (List.length (likes sample_comment))
  /\ NoDup (map like_user (likes sample_comment)).
Proof.
  exact (conj sample_forum_reachable
           (conj sample_comment_stored
              (like_counts_stay_exact sample_forum sample_comment
                 sample_forum_reachable sample_comment_stored))).
Defined.

Lemma reply_counts_stay_exact_witness :
  forum_reachable sample_forum
  /\ In sample_comment (comments sample_forum)
  /\ replyCount sample_comment
     = Z.of_nat
         (List.length
            (replies_to (comment_id sample_comment) (comments sample_forum))).
Proof.
  exact (conj sample_forum_reachable
           (conj sample_comment_stored
              (proj1 (reply_counts_stay_exact sample_forum sample_comment
                        sample_forum_reachable sample_comment_stored)))).
Defined.

Lemma replies_stay_on_their_post_witness :
  forum_reachable sample_forum
  /\ In sample_reply (comments sample_forum)
  /\ parentComment sample_reply = Some (comment_id sample_comment)
  /\ Comment_findById (comment_id sample_comment) sample_forum
     = Some sample_comment
  /\ post sample_reply = post sample_comment.
Proof.
  assert (I : In sample_reply (comments sample_forum))
    by (vm_compute; right; left; reflexivity).
  exact (conj sample_forum_reachable
           (conj I (conj eq_refl (conj eq_refl
              (replies_stay_on_their_post sample_forum sample_reply
                 sample_comment sample_forum_reachable I eq_refl eq_refl))))).
Defined.

Lemma like_twice_restores_witness :
  forum_reachable sample_forum
  /\ Comment_findById 10 sample_forum = Some sample_comment
  /\ find (fun like => Nat.eqb (like_user like) 9) (likes sample_comment) = None
  /\ comments
       (snd (likeComment 10 9 700 (snd (likeComment 10 9 600 sample_forum))))
     = comments sample_forum.
Proof.
  destruct (like_twice_restores 10 9 600 700 sample_forum sample_comment
              sample_forum_reachable eq_refl) as (_ & _ & _ & K).
  exact (conj sample_forum_reachable (conj eq_refl (conj eq_refl (K eq_refl)))).
Defined.

Lemma deleteComment_cascades_one_level_witness :
  forum_reachable sample_forum
  /\ Comment_findById 10 sample_forum = Some sample_comment
  /\ author sample_comment = 7%nat
  /\ Comment_findById (comment_id sample_reply)
       (snd (deleteComment 10 7 sample_forum)) = None
  /\ exists deep',
       In deep' (comments (snd (deleteComment 10 7 sample_forum)))
       /\ comment_id deep' = comment_id sample_deep
       /\ parentComment deep' = Some (comment_id sample_reply).
Proof.
  assert (Ir : In sample_reply (comments sample_forum))
    by (vm_compute; right; left; reflexivity).
  assert (Id : In sample_deep (comments sample_forum))
    by (vm_compute; right; right; left; reflexivity).
  assert (Nr : comment_id sample_reply <> 10%nat) by discriminate.
  assert (Nd : comment_id sample_deep <> 10%nat) by discriminate.
  destruct (deleteComment_cascades_one_level 10 7 sample_forum sample_comment
              sample_forum_reachable eq_refl eq_refl) as (_ & _ & _ & K).
  exact (conj sample_forum_reachable
           (conj eq_refl
              (conj eq_refl
                 (K sample_reply sample_deep Ir eq_refl Id eq_refl Nr Nd)))).
Defined.

Lemma content_changes_only_by_author_witness :
  forum_reachable sample_forum
  /\ new_ObjectId (DELETE_comment 11 8) sample_forum
  /\ In sample_comment (comments sample_forum)
  /\ author sample_comment <> requester (DELETE_comment 11 8)
  /\ In (set_replyCount 0 sample_comment)
       (comments (snd (serve (DELETE_comment 11 8) sample_forum)))
  /\ content (set_replyCount 0 sample_comment) = content sample_comment.
Proof.
  assert (A : author sample_comment <> requester (DELETE_comment 11 8))
    by discriminate.
  assert (I' : In (set_replyCount 0 sample_comment)
                 (comments (snd (serve (DELETE_comment 11 8) sample_forum))))
    by (vm_compute; left; reflexivity).
  destruct (content_changes_only_by_author (DELETE_comment 11 8) sample_forum
              sample_comment (set_replyCount 0 sample_comment)
              sample_forum_reachable I sample_comment_stored A I' eq_refl)
    as (K & _).
  exact (conj sample_forum_reachable
           (conj I (conj sample_comment_stored (conj A (conj I' K))))).
Defined.

(** Three spaces, two no-break spaces and 1001 letters are rejected; 501
    letters e with an acute accent, of one code unit each, are stored. *)
Lemma rejected_content_is_not_stored_witness :
  content_ok (trim "   ") = false
  /\ content_ok (trim nbsp_only) = false
  /\ content_ok (trim (letters 97 1001)) = false
  /\ content_ok (trim (letters 233 501)) = true
  /\ Comment_findById 10 sample_forum = Some sample_comment
  /\ snd (updateComment true 10 "   " 7 900 sample_forum) = sample_forum
  /\ statusCode (fst (updateComment true 10 "   " 7 900 sample_forum)) = 500
  /\ snd (createComment true nbsp_only None 1 7 13 sample_forum) = sample_forum
  /\ Post_exists 1 sample_forum = true
  /\ statusCode (fst (createComment true (letters 233 501) None 1 7 13
                        sample_forum)) = 201.
Proof.
  destruct (rejected_content_is_not_stored "   " sample_forum)
    as [B _].
  destruct (B eq_refl) as [_ K].
  destruct (rejected_content_is_not_stored nbsp_only sample_forum)
    as [N _].
  destruct (N eq_refl) as [C _].
  destruct (rejected_content_is_not_stored (letters 233 501) sample_forum)
    as [_ G].
  assert (Ok : content_ok (trim (letters 233 501)) = true)
    by (vm_compute; reflexivity).
  split; [reflexivity|]. split; [reflexivity|].
  split; [vm_compute; reflexivity|]. split; [exact Ok|].
  split; [reflexivity|].
  split; [exact (proj1 (K 10%nat 7%nat 900 sample_comment eq_refl eq_refl))|].
  split; [exact (proj2 (K 10%nat 7%nat 900 sample_comment eq_refl eq_refl))|].
  split; [exact (proj1 (C None 1%nat 7%nat 13%nat))|].
  split; [reflexivity|].
  exact (proj1 (G Ok 1%nat 7%nat 13%nat eq_refl)).
Defined.

(** A body with operator keys and markup; a body that switches the escaping
    off. *)
Lemma sanitized_body_is_clean_witness :
  no_constructor_key sample_body = true
  /\ sanitizeMiddleware sample_body
     = JObj [("bio", JStr "&lt;script&gt;");
             ("tags", JArr [JStr "a&#x2F;b"; JObj []])]
  /\ no_markup_value (sanitizeMiddleware sample_body) = true
  /\ no_operator_key sample_marked_body = true
  /\ sanitizeMiddleware sample_marked_body = sample_marked_body
  /\ no_markup_value (sanitizeMiddleware sample_marked_body) = false.
Proof.
  destruct (sanitized_body_is_clean sample_body) as (_ & M & _).
  destruct (sanitized_body_is_clean sample_marked_body) as (_ & _ & G).
  assert (E : sanitizeMiddleware sample_marked_body = sample_marked_body)
    by (apply (G [("constructor", JNull); ("bio", JStr "<script>")]);
        reflexivity).
  refine (conj eq_refl (conj eq_refl (conj (M eq_refl)
            (conj eq_refl (conj E _))))).
  rewrite E. reflexivity.
Defined.

(** alice's pending verification token, consumed twice. *)
Lemma verification_token_single_use_witness :
  find (verification_filter (sample_sha256 "verify-me") 1000) [alice_pending]
  = Some alice_pending
  /\ succeeded
       (fst (verifyEmail sample_crypt sample_sha256 sample_validators "verify-me"
               sample_salt 1000
               {| users := [alice_pending]; calls := [] |})) = true
  /\ succeeded
       (fst (verifyEmail sample_crypt sample_sha256 sample_validators "verify-me"
               sample_salt 2000
               (snd (verifyEmail sample_crypt sample_sha256 sample_validators
                       "verify-me" sample_salt 1000
                       {| users := [alice_pending]; calls := [] |})))) = false.
Proof.
  destruct (verification_token_single_use sample_crypt sample_sha256
              sample_validators) as (S & V).
  assert (U : forall d, In d [alice_pending] ->
                        emailVerificationToken d
                        = Some (sample_sha256 "verify-me") ->
                        _id d = _id alice_pending).
  { intros d [<-|[]] _. reflexivity. }
  refine (conj eq_refl (conj _ _)).
  - apply (S "verify-me" sample_salt 1000
             {| users := [alice_pending]; calls := [] |}).
    exists alice_pending. split; [left; reflexivity|].
    split; [reflexivity|]. exists 86400000. split; [reflexivity | lia].
  - apply (V "verify-me" sample_salt 1000
             {| users := [alice_pending]; calls := [] |} alice_pending eq_refl U).
Defined.
